(** * mekara: the suspendable script executor and the VCR cassette

    A shallow embedding of
    - [mekara/scripting/runtime.py]  (steps and results),
    - [mekara/mcp/executor.py]       (frames, the pending derivation, the
                                      driving loop),
    - [mekara/mcp/server.py]         (the four tool operations),
    - [mekara/vcr/events.py], [mekara/vcr/cassette.py] (the event log),
    followed by the properties of the specification that concern them.

    Conventions.  Python objects mutated in place are threaded explicitly:
    a method [m(self, x)] becomes a function of the object's state that
    returns the new state next to its result.  A raised exception is the
    [Raise] outcome; the state returned with it is the state at the point of
    the [raise].  Strings are byte strings. *)

From stdpp Require Import base option list strings pretty.
From Stdlib Require Import Ascii ZArith Lia.

Set Default Proof Using "Type".
Set Warnings "-register-all".


(** ** Python values and errors *)

(** The values scripts and drivers exchange ([Any] in the source): what
    a YAML document can hold. *)
Inductive PyValue : Type :=
  | PyNone
  | PyBool (b : bool)
  | PyInt (z : Z)
  | PyStr (s : string)
  | PyList (l : list PyValue)
  | PyDict (items : list (string * PyValue)).

(** A [dict] keeps insertion order; it is an association list. *)
Abbreviation PyDictOf A := (list (string * A)).

(** An exception object carried as data (in [AutoException.exception] and
    [ScriptCallResult.exception]); [str(e)] is its message. *)
Record PyException := mkException { exc_message : string }.

(** Exceptions raised by the modelled code ([LoadError] is the source's
    [ScriptLoadError]). *)
Inductive PyError : Type :=
  | ValueError (msg : string)
  | RuntimeError (msg : string)
  | TypeError (msg : string)
  | IndexError (msg : string)
  | LoadError (msg : string)
  | AttributeError (msg : string)
  | AssertionError.

Inductive Res (A : Type) : Type :=
  | Ok (a : A)
  | Raise (e : PyError).
Arguments Ok {A} a.
Arguments Raise {A} e.

Definition is_raise {A} (r : Res A) : bool :=
  match r with Raise _ => true | Ok _ => false end.

(** The outcome of a call that drives the loop: it returns, raises, or is
    still looping when the fuel granted to it runs out. *)
Inductive Outcome (A : Type) : Type :=
  | Returned (a : A)
  | Raised (e : PyError)
  | OutOfFuel.
Arguments Returned {A} a.
Arguments Raised {A} e.
Arguments OutOfFuel {A}.

(** Stateful, fallible code: a method over an object of state [S]. *)
Definition Eff (S A : Type) : Type := S -> Res A * S.

Definition ret {S A} (a : A) : Eff S A := fun s => (Ok a, s).
Definition raise {S A} (e : PyError) : Eff S A := fun s => (Raise e, s).
Definition bind {S A B} (c : Eff S A) (k : A -> Eff S B) : Eff S B :=
  fun s => match c s with
           | (Ok a, s') => k a s'
           | (Raise e, s') => (Raise e, s')
           end.
Definition gets {S A} (f : S -> A) : Eff S A := fun s => (Ok (f s), s).
Definition modify {S} (f : S -> S) : Eff S unit := fun s => (Ok tt, f s).

Declare Scope eff_scope.
Delimit Scope eff_scope with eff.
Notation "x <- c ;; k" := (bind c (fun x => k))
  (at level 100, c at next level, right associativity) : eff_scope.
Notation "c ;;; k" := (bind c (fun _ => k))
  (at level 100, right associativity) : eff_scope.

(** ** Text helpers ([str] methods used by the source) *)

Definition newline : ascii := "010"%char.
Definition NL : string := String newline EmptyString.

(** [s.split("\n")]: always at least one piece. *)
Fixpoint split_lines_aux (cur : string) (s : string) : list string :=
  match s with
  | EmptyString => [String.rev cur]
  | String c rest =>
      if Ascii.eqb c newline
      then String.rev cur :: split_lines_aux EmptyString rest
      else split_lines_aux (String c cur) rest
  end.
Definition split_lines (s : string) : list string := split_lines_aux EmptyString s.

(** [s.rstrip("\n")]. *)
Fixpoint lstrip_newlines (s : string) : string :=
  match s with
  | String c rest => if Ascii.eqb c newline then lstrip_newlines rest else s
  | EmptyString => EmptyString
  end.
Definition rstrip_newlines (s : string) : string :=
  String.rev (lstrip_newlines (String.rev s)).

(** [s.strip()], for the ASCII white space. *)
Definition is_space (c : ascii) : bool :=
  let n := nat_of_ascii c in
  ((9 <=? n) && (n <=? 13)) || ((28 <=? n) && (n <=? 32)).
Fixpoint lstrip (s : string) : string :=
  match s with
  | String c rest => if is_space c then lstrip rest else s
  | EmptyString => EmptyString
  end.
Definition strip (s : string) : string :=
  String.rev (lstrip (String.rev (lstrip s))).

(** [s.replace(":", "/")]. *)
Fixpoint replace_colons (s : string) : string :=
  match s with
  | String c rest =>
      String (if Ascii.eqb c ":"%char then "/"%char else c) (replace_colons rest)
  | EmptyString => EmptyString
  end.

(** ["sep".join(parts)]. *)
Definition join (sep : string) (parts : list string) : string :=
  String.concat sep parts.

(** [needle in s]. *)
Fixpoint contains (needle s : string) : bool :=
  if String.prefix needle s then true
  else match s with
       | EmptyString => false
       | String _ rest => contains needle rest
       end.

(** * The cassette ([mekara/vcr/events.py], [mekara/vcr/cassette.py]) *)

Module Cassette.

(** ** Events *)

Record McpStartInputEvent := {
  start_name : string;
  start_arguments : string;
  start_working_dir : option string }.

Record McpContinueCompiledScriptInputEvent := {
  continue_outputs : PyDictOf PyValue }.

Record McpToolOutputEvent := {
  out_tool : string;
  out_output : string }.

Record AutoStepInputs := {
  action_type : string;
  action : string;
  context : option string;
  kwargs : option (PyDictOf PyValue) }.

Record ShellResultData := {
  shell_success : bool;
  shell_exit_code : Z;
  shell_output : string }.

Record CallResultData := {
  call_success : bool;
  call_value : PyValue;
  call_error : option string;
  call_output : string }.

Record AutoExceptionData := {
  exn_success : bool;
  exn_exception : string;
  exn_step_description : string;
  exn_output : string }.

Inductive AutoStepResult : Type :=
  | ResShell (r : ShellResultData)
  | ResCall (r : CallResultData)
  | ResException (r : AutoExceptionData).

Record AutoStepEvent := {
  step_working_dir : string;
  step_inputs : AutoStepInputs;
  step_result : AutoStepResult }.

(** [VcrEvent]: the union of the event classes. *)
Inductive VcrEvent : Type :=
  | EvStart (e : McpStartInputEvent)
  | EvContinue (e : McpContinueCompiledScriptInputEvent)
  | EvStatus
  | EvFinishNLScript
  | EvToolOutput (e : McpToolOutputEvent)
  | EvAutoStep (e : AutoStepEvent).

(** The event classes themselves, as passed for [event_type]. *)
Inductive EventClass : Type :=
  | ClsMcpStartInputEvent
  | ClsMcpContinueCompiledScriptInputEvent
  | ClsMcpStatusInputEvent
  | ClsMcpFinishNLScriptInputEvent
  | ClsMcpToolOutputEvent
  | ClsAutoStepEvent.

Global Instance EventClass_eq_dec : EqDecision EventClass.
Proof. solve_decision. Defined.

(** [type(event)]. *)
Definition type_of (e : VcrEvent) : EventClass :=
  match e with
  | EvStart _ => ClsMcpStartInputEvent
  | EvContinue _ => ClsMcpContinueCompiledScriptInputEvent
  | EvStatus => ClsMcpStatusInputEvent
  | EvFinishNLScript => ClsMcpFinishNLScriptInputEvent
  | EvToolOutput _ => ClsMcpToolOutputEvent
  | EvAutoStep _ => ClsAutoStepEvent
  end.

(** [cls.__name__]. *)
Definition class_name (c : EventClass) : string :=
  match c with
  | ClsMcpStartInputEvent => "McpStartInputEvent"
  | ClsMcpContinueCompiledScriptInputEvent => "McpContinueCompiledScriptInputEvent"
  | ClsMcpStatusInputEvent => "McpStatusInputEvent"
  | ClsMcpFinishNLScriptInputEvent => "McpFinishNLScriptInputEvent"
  | ClsMcpToolOutputEvent => "McpToolOutputEvent"
  | ClsAutoStepEvent => "AutoStepEvent"
  end.

(** [isinstance(event, cls)]: the event classes are unrelated dataclasses. *)
Definition isinstance (e : VcrEvent) (c : EventClass) : bool :=
  bool_decide (type_of e = c).

(** ** [to_dict] *)

Definition opt_str (o : option string) : PyValue :=
  match o with Some s => PyStr s | None => PyNone end.

Definition AutoStepInputs_to_dict (i : AutoStepInputs) : PyValue :=
  PyDict ([("action_type", PyStr (action_type i));
           ("action", PyStr (action i));
           ("context", opt_str (context i))]
          ++ match kwargs i with
             | Some kw => [("kwargs", PyDict kw)]
             | None => []
             end).

Definition AutoStepResult_to_dict (r : AutoStepResult) : PyValue :=
  match r with
  | ResShell r =>
      PyDict [("type", PyStr "shell");
              ("success", PyBool (shell_success r));
              ("exit_code", PyInt (shell_exit_code r));
              ("output", PyStr (shell_output r))]
  | ResCall r =>
      PyDict [("type", PyStr "call");
              ("success", PyBool (call_success r));
              ("value", call_value r);
              ("error", opt_str (call_error r));
              ("output", PyStr (call_output r))]
  | ResException r =>
      PyDict [("type", PyStr "exception");
              ("success", PyBool (exn_success r));
              ("exception", PyStr (exn_exception r));
              ("step_description", PyStr (exn_step_description r));
              ("output", PyStr (exn_output r))]
  end.

Definition to_dict (e : VcrEvent) : PyValue :=
  match e with
  | EvStart e =>
      PyDict [("type", PyStr "mcp_tool_input");
              ("tool", PyStr "start");
              ("input", PyDict [("name", PyStr (start_name e));
                                ("arguments", PyStr (start_arguments e));
                                ("working_dir", opt_str (start_working_dir e))])]
  | EvContinue e =>
      PyDict [("type", PyStr "mcp_tool_input");
              ("tool", PyStr "continue_compiled_script");
              ("input", PyDict [("outputs", PyDict (continue_outputs e))])]
  | EvStatus =>
      PyDict [("type", PyStr "mcp_tool_input");
              ("tool", PyStr "status");
              ("input", PyDict [])]
  | EvFinishNLScript =>
      PyDict [("type", PyStr "mcp_tool_input");
              ("tool", PyStr "finish_nl_script");
              ("input", PyDict [])]
  | EvToolOutput e =>
      PyDict [("type", PyStr "mcp_tool_output");
              ("tool", PyStr (out_tool e));
              ("output", PyStr (out_output e))]
  | EvAutoStep e =>
      PyDict [("type", PyStr "auto_step");
              ("working_dir", PyStr (step_working_dir e));
              ("inputs", AutoStepInputs_to_dict (step_inputs e));
              ("result", AutoStepResult_to_dict (step_result e))]
  end.

(** ** [VCRCassette] *)

Inductive CassetteMode : Type := ModeRecord | ModeReplay.

Global Instance CassetteMode_eq_dec : EqDecision CassetteMode.
Proof. solve_decision. Defined.

Record VCRCassette := {
  path : string;
  mode : CassetteMode;
  initial_state : PyDictOf PyValue;
  _events : list VcrEvent;
  _replay_event_index : nat;
  _last_saved_event_count : nat }.

Definition set_events (f : list VcrEvent -> list VcrEvent) (c : VCRCassette) :=
  {| path := path c; mode := mode c; initial_state := initial_state c;
     _events := f (_events c);
     _replay_event_index := _replay_event_index c;
     _last_saved_event_count := _last_saved_event_count c |}.

Definition set_replay_event_index (f : nat -> nat) (c : VCRCassette) :=
  {| path := path c; mode := mode c; initial_state := initial_state c;
     _events := _events c;
     _replay_event_index := f (_replay_event_index c);
     _last_saved_event_count := _last_saved_event_count c |}.

Definition set_last_saved_event_count (n : nat) (c : VCRCassette) :=
  {| path := path c; mode := mode c; initial_state := initial_state c;
     _events := _events c;
     _replay_event_index := _replay_event_index c;
     _last_saved_event_count := n |}.

(** [VCRCassette(path, mode="record", initial_state=...)]. *)
Definition new_record (p : string) (init : PyDictOf PyValue) : VCRCassette :=
  {| path := p; mode := ModeRecord; initial_state := init;
     _events := []; _replay_event_index := 0; _last_saved_event_count := 0 |}.

Local Open Scope eff_scope.

Definition record_event (event : VcrEvent) : Eff VCRCassette unit :=
  m <- gets mode ;;
  if bool_decide (m <> ModeRecord)
  then raise (ValueError "Cannot record events while in replay mode.")
  else modify (set_events (fun evs => evs ++ [event])).

Definition has_remaining_events : Eff VCRCassette bool :=
  m <- gets mode ;;
  if bool_decide (m <> ModeReplay)
  then raise (ValueError "has_remaining_events() is only available in replay mode.")
  else
    i <- gets _replay_event_index ;;
    evs <- gets _events ;;
    ret (bool_decide (i < length evs)).

(** [consume_event(event_type=None)].  The subscript
    [self._events[self._replay_event_index]] is in range after the
    exhaustion check; the [None] branch of the lookup is the [IndexError]
    that check excludes. *)
Definition consume_event (event_type : option EventClass)
  : Eff VCRCassette VcrEvent :=
  m <- gets mode ;;
  if bool_decide (m <> ModeReplay)
  then raise (ValueError "Cannot replay events while in record mode.")
  else
    i <- gets _replay_event_index ;;
    evs <- gets _events ;;
    if bool_decide (length evs <= i)
    then raise (ValueError "VCR replay has no remaining recorded events.")
    else
      match evs !! i with
      | None => raise (ValueError "list index out of range")
      | Some event =>
          match event_type with
          | Some cls =>
              if negb (isinstance event cls)
              then raise (ValueError
                     ("VCR replay event mismatch. Expected " +:+ class_name cls
                      +:+ ", got " +:+ class_name (type_of event) +:+ "."))
              else
                modify (set_replay_event_index (fun n => n + 1)) ;;;
                ret event
          | None =>
              modify (set_replay_event_index (fun n => n + 1)) ;;;
              ret event
          end
      end.

Definition replay_position : Eff VCRCassette nat :=
  m <- gets mode ;;
  if bool_decide (m <> ModeReplay)
  then raise (ValueError "Replay position is only available in replay mode.")
  else gets _replay_event_index.

Local Close Scope eff_scope.

(** ** Saving

    [yaml.dump(data, default_flow_style=False, allow_unicode=True,
    sort_keys=False)] belongs to PyYAML; the cassette is modelled over any
    emitter. *)
Class YamlEmitter := yaml_dump : PyValue -> string.

(** The file at [self.path]: [None] while it does not exist. *)
Definition File := option string.

(** What [save] does to the file: [path.write_text(s)] replaces the content,
    a [f.write(s)] on the file opened with mode ["a"] extends it. *)
Inductive FileOp : Type :=
  | WriteText (s : string)
  | Append (s : string).

Definition apply_op (f : File) (op : FileOp) : File :=
  match op with
  | WriteText s => Some s
  | Append s => Some (default "" f +:+ s)
  end.

Definition apply_ops (ops : list FileOp) (f : File) : File :=
  foldl apply_op f ops.


Section WithEmitter.
Context `{E : YamlEmitter}.

(** The document of the first save. *)
Definition document (init : PyDictOf PyValue) (events : list VcrEvent) : PyValue :=
  PyDict [("initial_state", PyDict init);
          ("events", PyList (map to_dict events))].

(** The writes of the append path for one event: its own dump, one line at
    a time, a line equal to the dump's first line prefixed as a list item
    and every other line indented. *)
Definition event_writes (event : VcrEvent) : list FileOp :=
  let event_yaml := yaml_dump (to_dict event) in
  map (fun line =>
         if bool_decide (line = hd "" (split_lines event_yaml))
         then Append ("- " +:+ line +:+ NL)
         else Append ("  " +:+ line +:+ NL))
      (split_lines (rstrip_newlines event_yaml)).

(** [save()]: the cassette after the call and the writes it made, in
    order.  ([path.parent.mkdir] does not touch the file.) *)
Definition save (c : VCRCassette) : VCRCassette * list FileOp :=
  if bool_decide (mode c <> ModeRecord) then (c, [])
  else if bool_decide (_last_saved_event_count c = 0) then
    (set_last_saved_event_count (length (_events c)) c,
     [WriteText (yaml_dump (document (initial_state c) (_events c)))])
  else
    let new_events := drop (_last_saved_event_count c) (_events c) in
    match new_events with
    | [] => (c, [])
    | _ =>
        (set_last_saved_event_count (length (_events c)) c,
         concat (map event_writes new_events))
    end.

(** A recording session: events are recorded and the cassette is saved, in
    any order. *)
Inductive Action : Type :=
  | DoRecord (event : VcrEvent)
  | DoSave.




(** The events a session records. *)
Definition recorded (actions : list Action) : list VcrEvent :=
  omap (fun a => match a with DoRecord e => Some e | DoSave => None end) actions.






End WithEmitter.

End Cassette.

(** * Steps and results ([mekara/scripting/runtime.py]) *)

Module Runtime.

(** A [CallAction] holds a Python callable; the model keeps its [__name__]
    (what the function does belongs to the auto executor). *)
Inductive AutoAction : Type :=
  | ShellAction (cmd : string)
  | CallAction (func : string) (kwargs : PyDictOf PyValue).

Record ShellResult := {
  sh_success : bool;
  sh_exit_code : Z;
  sh_output : string }.

Record CallResult := {
  cr_success : bool;
  cr_value : PyValue;
  cr_error : option string;
  cr_output : string }.

Record AutoException := {
  ae_success : bool;
  ae_exception : PyException;
  ae_step_description : string;
  ae_output : string }.

(** [AutoResult = ShellResult | CallResult | AutoException]. *)
Inductive AutoResult : Type :=
  | RShell (r : ShellResult)
  | RCall (r : CallResult)
  | RException (r : AutoException).

Definition auto_success (r : AutoResult) : bool :=
  match r with
  | RShell r => sh_success r
  | RCall r => cr_success r
  | RException r => ae_success r
  end.

Definition auto_output (r : AutoResult) : string :=
  match r with
  | RShell r => sh_output r
  | RCall r => cr_output r
  | RException r => ae_output r
  end.

Record Auto := {
  action : AutoAction;
  context : string }.

Record Llm := {
  prompt : string;
  expects : PyDictOf string }.

Record CallScript := {
  name : string;
  request : string;
  working_dir : option string }.

Record LlmResult := {
  lr_success : bool;
  lr_outputs : PyDictOf PyValue }.

Record ScriptCallResult := {
  sc_success : bool;
  sc_summary : string;
  sc_aborted : bool;
  sc_steps_executed : nat;
  sc_exception : option PyException }.

(** What a script yields. *)
Inductive Step : Type :=
  | SAuto (s : Auto)
  | SLlm (s : Llm)
  | SCall (s : CallScript).

(** What is sent back into a script
    ([StepResult = AutoResult | LlmResult | ScriptCallResult]). *)
Inductive StepResult : Type :=
  | OfAuto (r : AutoResult)
  | OfLlm (r : LlmResult)
  | OfCall (r : ScriptCallResult).

Definition result_success (r : StepResult) : bool :=
  match r with
  | OfAuto r => auto_success r
  | OfLlm r => lr_success r
  | OfCall r => sc_success r
  end.

Definition is_Llm (s : option Step) : bool :=
  match s with Some (SLlm _) => true | _ => false end.
Definition is_CallScript (s : option Step) : bool :=
  match s with Some (SCall _) => true | _ => false end.

(** [Auto.description], with Python's [repr] of a keyword argument as a
    parameter. *)
Definition Auto_description (repr : PyValue -> string) (a : Auto) : string :=
  match action a with
  | ShellAction cmd => cmd
  | CallAction func kwargs =>
      func +:+ "(" +:+
      join ", " (map (fun kv => fst kv +:+ "=" +:+ repr (snd kv)) kwargs)
      +:+ ")"
  end.

(** [CallScript.description]. *)
Definition CallScript_description (c : CallScript) : string :=
  if bool_decide (request c = "") then "/" +:+ name c
  else "/" +:+ name c +:+ " " +:+ request c.

(** ** Script bodies as resumable computations

    A compiled script is a Python generator: it yields a step and is resumed
    with the value sent to it.  [Prog] is the body from a resumption point
    on: it stops, or yields a step and waits.  Bodies that raise are outside
    the model. *)
Inductive Prog : Type :=
  | PStop
  | PYield (s : Step) (k : option StepResult -> Prog).

(** A generator object and its three states. *)
Inductive Generator : Type :=
  | GenCreated (body : Prog)
  | GenSuspended (k : option StepResult -> Prog)
  | GenClosed.

(** Run a body up to its next yield; [None] is [StopIteration]. *)
Definition resume (p : Prog) : option Step * Generator :=
  match p with
  | PStop => (None, GenClosed)
  | PYield s k => (Some s, GenSuspended k)
  end.

(** [next(g)]. *)
Definition gen_next (g : Generator) : option Step * Generator :=
  match g with
  | GenCreated body => resume body
  | GenSuspended k => resume (k None)
  | GenClosed => (None, GenClosed)
  end.

(** [g.send(v)] for a value [v] that is not [None]. *)
Definition gen_send (v : StepResult) (g : Generator)
  : Res (option Step) * Generator :=
  match g with
  | GenCreated _ =>
      (Raise (TypeError "can't send non-None value to a just-started generator"), g)
  | GenSuspended k => let '(s, g') := resume (k (Some v)) in (Ok s, g')
  | GenClosed => (Ok None, GenClosed)
  end.

End Runtime.

(** * The executor ([mekara/mcp/executor.py]) *)

Module Executor.
Import Runtime.

(** ** What the executor asks of its surroundings *)

Record ScriptInfo := {
  path : string;
  is_bundled : bool }.

Record ResolvedTarget := {
  compiled : option ScriptInfo;
  nl : ScriptInfo;
  target_name : string }.

(** [load_script(name, request)]: a loaded script, or [ScriptLoadError]. *)
Inductive LoadedScript : Type :=
  | LoadedCompiledScript (generator : Prog) (target : ResolvedTarget)
  | LoadedNLScript (target : ResolvedTarget)
  | ScriptLoadError (msg : string).

(** One run of [auto_executor.execute(step, working_dir=...)]: the results
    carried by the events it yields, and how the iteration ends. *)
Inductive ExecEnd : Type :=
  | Exhausted
  | RaisedAutoExecutionError (original_exception : PyException) (output : string)
  | RaisedException (exc : PyException).

Record Execution := {
  yielded : list AutoResult;
  ending : ExecEnd }.

(** The surroundings: the auto executor (real or VCR), the script loader,
    the files holding the natural-language sources, Python's [repr].
    [World] is whatever state the auto executor acts on. *)
Class Host := {
  World : Type;
  execute : Auto -> string -> World -> Execution * World;
  load_script : string -> string -> World -> LoadedScript;
  read_nl_prompt : ResolvedTarget -> string -> World -> string;
  repr : PyValue -> string }.

(** ** Executed steps and pending values *)

Record ExecutedStep := {
  es_script_name : string;
  es_step_index : nat;
  es_step : Step;
  es_result : option StepResult;
  es_is_entry : bool;
  es_is_exit : bool }.

Record PendingLlmStep := {
  pl_step : Llm;
  pl_script_name : string;
  pl_step_index : nat;
  pl_stack_path : string;
  pl_context : string }.

Record PendingNLScript := {
  pn_name : string;
  pn_content : string }.

Record PendingNLFallback := {
  pf_script_name : string;
  pf_nl_source : string;
  pf_exception : AutoException;
  pf_step_index : nat;
  pf_stack_path : string }.

Inductive Pending : Type :=
  | IsPendingLlmStep (p : PendingLlmStep)
  | IsPendingNLScript (p : PendingNLScript)
  | IsPendingNLFallback (p : PendingNLFallback).

Record RunResult := {
  executed_steps : list ExecutedStep;
  output_text : string;
  rr_pending : option Pending }.

(** [RunResult.completed]. *)
Definition completed (r : RunResult) : bool :=
  match rr_pending r with None => true | Some _ => false end.

(** ** Frames *)

Record CompiledScriptFrame := {
  c_script_name : string;
  c_working_dir : string;
  c_resolved_target : ResolvedTarget;
  c_arguments : string;
  generator : Generator;
  _step_index : nat;
  _current_step : option Step;
  has_shown_nl_source : bool;
  exception : option AutoException }.

Record NLScriptFrame := {
  n_script_name : string;
  n_working_dir : string;
  n_resolved_target : ResolvedTarget;
  n_arguments : string }.

Inductive ExecutionFrame : Type :=
  | Compiled (f : CompiledScriptFrame)
  | NLFrame (f : NLScriptFrame).

Definition script_name (f : ExecutionFrame) : string :=
  match f with Compiled f => c_script_name f | NLFrame f => n_script_name f end.
Definition resolved_target (f : ExecutionFrame) : ResolvedTarget :=
  match f with Compiled f => c_resolved_target f | NLFrame f => n_resolved_target f end.
Definition arguments (f : ExecutionFrame) : string :=
  match f with Compiled f => c_arguments f | NLFrame f => n_arguments f end.

Definition with_generator (g : Generator) (f : CompiledScriptFrame) :=
  {| c_script_name := c_script_name f; c_working_dir := c_working_dir f;
     c_resolved_target := c_resolved_target f; c_arguments := c_arguments f;
     generator := g; _step_index := _step_index f;
     _current_step := _current_step f;
     has_shown_nl_source := has_shown_nl_source f; exception := exception f |}.

Definition with_step_index (n : nat) (f : CompiledScriptFrame) :=
  {| c_script_name := c_script_name f; c_working_dir := c_working_dir f;
     c_resolved_target := c_resolved_target f; c_arguments := c_arguments f;
     generator := generator f; _step_index := n;
     _current_step := _current_step f;
     has_shown_nl_source := has_shown_nl_source f; exception := exception f |}.

(** The [current_step] setter. *)
Definition set_current_step (s : option Step) (f : CompiledScriptFrame) :=
  {| c_script_name := c_script_name f; c_working_dir := c_working_dir f;
     c_resolved_target := c_resolved_target f; c_arguments := c_arguments f;
     generator := generator f; _step_index := _step_index f;
     _current_step := s;
     has_shown_nl_source := has_shown_nl_source f; exception := exception f |}.

Definition with_has_shown_nl_source (b : bool) (f : CompiledScriptFrame) :=
  {| c_script_name := c_script_name f; c_working_dir := c_working_dir f;
     c_resolved_target := c_resolved_target f; c_arguments := c_arguments f;
     generator := generator f; _step_index := _step_index f;
     _current_step := _current_step f;
     has_shown_nl_source := b; exception := exception f |}.

Definition with_exception (e : option AutoException) (f : CompiledScriptFrame) :=
  {| c_script_name := c_script_name f; c_working_dir := c_working_dir f;
     c_resolved_target := c_resolved_target f; c_arguments := c_arguments f;
     generator := generator f; _step_index := _step_index f;
     _current_step := _current_step f;
     has_shown_nl_source := has_shown_nl_source f; exception := e |}.

(** [CompiledScriptFrame.step_index]. *)
Definition step_index (f : CompiledScriptFrame) : nat := _step_index f.

(** The [current_step] property: pulls the first step from the generator
    when none is cached; [None] when the generator is exhausted. *)
Definition current_step (f : CompiledScriptFrame)
  : option Step * CompiledScriptFrame :=
  match _current_step f with
  | None =>
      match gen_next (generator f) with
      | (Some s, g) => (Some s, set_current_step (Some s) (with_generator g f))
      | (None, g) => (None, with_generator g f)
      end
  | Some s => (Some s, f)
  end.

(** [CompiledScriptFrame.advance(result)].  Only [StopIteration] is caught;
    the [TypeError] of a send into a generator that was never started
    leaves the frame as [send] left it. *)
Definition advance (result : StepResult) (f : CompiledScriptFrame)
  : Res unit * CompiledScriptFrame :=
  match gen_send result (generator f) with
  | (Ok (Some s), g) =>
      (Ok tt, with_step_index (_step_index f + 1)
                (set_current_step (Some s) (with_generator g f)))
  | (Ok None, g) => (Ok tt, set_current_step None (with_generator g f))
  | (Raise e, g) => (Raise e, with_generator g f)
  end.

(** ** The executor object

    [stack] lists the frames from the top down: its head is Python's
    [self.stack[-1]], its last element [self.stack[0]]. *)
Record McpScriptExecutor := {
  working_dir : string;
  stack : list ExecutionFrame;
  recently_executed_steps : list ExecutedStep }.

Definition with_stack (st : list ExecutionFrame) (x : McpScriptExecutor) :=
  {| working_dir := working_dir x; stack := st;
     recently_executed_steps := recently_executed_steps x |}.

Definition with_recent (l : list ExecutedStep) (x : McpScriptExecutor) :=
  {| working_dir := working_dir x; stack := stack x;
     recently_executed_steps := l |}.

(** [McpScriptExecutor(working_dir, auto_executor)]. *)
Definition new_executor (wd : string) : McpScriptExecutor :=
  {| working_dir := wd; stack := []; recently_executed_steps := [] |}.

(** [script_name] (root script), [current_script_name], [stack_depth]. *)
Definition root_script_name (x : McpScriptExecutor) : option string :=
  script_name <$> last (stack x).
Definition current_script_name (x : McpScriptExecutor) : option string :=
  script_name <$> head (stack x).
Definition stack_depth (x : McpScriptExecutor) : nat := length (stack x).

(** [get_stack_path()]: from the root frame to the top. *)
Definition get_stack_path (x : McpScriptExecutor) : string :=
  join " > "
    (map (fun frame =>
            match frame with
            | NLFrame f => n_script_name f
            | Compiled f =>
                c_script_name f +:+ "[" +:+ pretty (step_index f) +:+ "]"
            end)
         (rev (stack x))).

Section WithHost.
Context `{H : Host}.

(** [_load_nl_source(frame)]. *)
Definition _load_nl_source (frame : ExecutionFrame) (w : World) : string :=
  read_nl_prompt (resolved_target frame) (arguments frame) w.

(** The [pending] property.  It returns the pending value and the executor
    as the evaluation leaves it: reading [top_frame.current_step] may start
    the generator, and the first evaluation that shows the source sets
    [has_shown_nl_source]. *)
Definition pending (w : World) (x : McpScriptExecutor)
  : option Pending * McpScriptExecutor :=
  match stack x with
  | [] => (None, x)
  | Compiled top :: rest =>
      match exception top with
      | Some exc =>
          let nl_source :=
            if has_shown_nl_source top then ""
            else _load_nl_source (Compiled top) w in
          let top' :=
            if has_shown_nl_source top then top
            else with_has_shown_nl_source true top in
          let x' := with_stack (Compiled top' :: rest) x in
          (Some (IsPendingNLFallback
                   {| pf_script_name := c_script_name top';
                      pf_nl_source := nl_source;
                      pf_exception := exc;
                      pf_step_index := step_index top';
                      pf_stack_path := get_stack_path x' |}), x')
      | None =>
          let '(step, top1) := current_step top in
          match step with
          | Some (SLlm l) =>
              let context :=
                if has_shown_nl_source top1 then ""
                else "## Script Context: `" +:+ c_script_name top1 +:+ "`"
                     +:+ NL +:+ NL +:+ _load_nl_source (Compiled top1) w
                     +:+ NL +:+ NL +:+ "---" +:+ NL +:+ NL in
              let top2 :=
                if has_shown_nl_source top1 then top1
                else with_has_shown_nl_source true top1 in
              let x' := with_stack (Compiled top2 :: rest) x in
              (Some (IsPendingLlmStep
                       {| pl_step := l;
                          pl_script_name := c_script_name top2;
                          pl_step_index := step_index top2;
                          pl_stack_path := get_stack_path x';
                          pl_context := context |}), x')
          | _ => (None, with_stack (Compiled top1 :: rest) x)
          end
      end
  | NLFrame top :: rest =>
      (Some (IsPendingNLScript
               {| pn_name := n_script_name top;
                  pn_content := _load_nl_source (NLFrame top) w |}), x)
  end.

(** ** Bookkeeping *)

Definition record_step (e : ExecutedStep) (x : McpScriptExecutor) :=
  with_recent (recently_executed_steps x ++ [e]) x.

(** [_build_result(pending)]. *)
Definition _build_result (p : option Pending) (x : McpScriptExecutor)
  : RunResult * McpScriptExecutor :=
  ({| executed_steps := recently_executed_steps x;
      output_text := "";
      rr_pending := p |},
   with_recent [] x).

(** [_push_compiled_script] and [_push_nl_script]. *)
Definition _push_compiled_script (body : Prog) (script_name working_dir : string)
    (target : ResolvedTarget) (arguments : string) (x : McpScriptExecutor) :=
  with_stack
    (Compiled {| c_script_name := script_name; c_working_dir := working_dir;
                 c_resolved_target := target; c_arguments := arguments;
                 generator := GenCreated body; _step_index := 0;
                 _current_step := None; has_shown_nl_source := false;
                 exception := None |} :: stack x) x.

Definition _push_nl_script (script_name working_dir : string)
    (target : ResolvedTarget) (arguments : string) (x : McpScriptExecutor) :=
  with_stack
    (NLFrame {| n_script_name := script_name; n_working_dir := working_dir;
                n_resolved_target := target; n_arguments := arguments |}
     :: stack x) x.

(** [push_script(script_name, arguments, working_dir)]. *)
Definition push_script (script_name arguments working_dir : string)
    (w : World) (x : McpScriptExecutor) : Res unit * McpScriptExecutor :=
  match load_script script_name arguments w with
  | ScriptLoadError msg => (Raise (LoadError msg), x)
  | LoadedNLScript target =>
      (Ok tt, _push_nl_script (target_name target) working_dir target arguments x)
  | LoadedCompiledScript body target =>
      (Ok tt, _push_compiled_script body (target_name target) working_dir
                target arguments x)
  end.

(** [_advance_frame(frame, result)] where [frame] is the top of the stack. *)
Definition _advance_frame (result : StepResult) (x : McpScriptExecutor)
  : Res unit * McpScriptExecutor :=
  match stack x with
  | Compiled frame :: rest =>
      let '(r, frame') := advance result frame in
      (r, with_stack (Compiled frame' :: rest) x)
  | _ => (Raise AssertionError, x)
  end.

(** After a child frame is popped: if the new top is a compiled frame whose
    current step is a [CallScript], record the exit and advance it with
    [result]; otherwise nothing more happens.  ([_pop_frame] and both
    branches of [complete_nl_script] each spell this out.) *)
Definition resume_parent (result : ScriptCallResult) (x : McpScriptExecutor)
  : Res unit * McpScriptExecutor :=
  match stack x with
  | Compiled parent_frame :: below =>
      let '(step, parent_frame) := current_step parent_frame in
      let x := with_stack (Compiled parent_frame :: below) x in
      match step with
      | Some (SCall call) =>
          let x :=
            record_step
              {| es_script_name := c_script_name parent_frame;
                 es_step_index := step_index parent_frame;
                 es_step := SCall call;
                 es_result := Some (OfCall result);
                 es_is_entry := false; es_is_exit := true |} x in
          _advance_frame (OfCall result) x
      | _ => (Ok tt, x)
      end
  | _ => (Ok tt, x)
  end.

(** [_pop_frame()]. *)
Definition _pop_frame (x : McpScriptExecutor) : Res unit * McpScriptExecutor :=
  match stack x with
  | [] => (Raise (IndexError "pop from empty list"), x)
  | NLFrame _ :: rest => (Raise AssertionError, with_stack rest x)
  | Compiled completed_frame :: rest =>
      let steps_executed := step_index completed_frame in
      resume_parent
        {| sc_success := true;
           sc_summary := "Completed " +:+ c_script_name completed_frame
                         +:+ " in " +:+ pretty steps_executed +:+ " steps";
           sc_aborted := false;
           sc_steps_executed := steps_executed;
           sc_exception := None |}
        (with_stack rest x)
  end.

(** [_execute_auto_step(step, frame)]: the result of the last event, an
    [AutoExecutionError] (any other exception is wrapped into one with no
    output), or the failed [assert result is not None]. *)
Inductive AutoStepOutcome : Type :=
  | AutoReturned (result : AutoResult)
  | AutoExecutionError (original_exception : PyException) (output : string)
  | AutoAssertionError.

Definition _execute_auto_step (step : Auto) (frame : CompiledScriptFrame)
    (w : World) : AutoStepOutcome * World :=
  let '(run, w) := execute step (c_working_dir frame) w in
  match ending run with
  | RaisedAutoExecutionError exc output => (AutoExecutionError exc output, w)
  | RaisedException exc => (AutoExecutionError exc "", w)
  | Exhausted =>
      match last (yielded run) with
      | Some result => (AutoReturned result, w)
      | None => (AutoAssertionError, w)
      end
  end.

(** ** The driving loop *)

(** How one pass through the body of [while self.stack:] ends. *)
Inductive Flow : Type :=
  | Continue
  | Return (r : RunResult)
  | Raises (e : PyError).

Definition is_PendingLlmStep (p : option Pending) : bool :=
  match p with Some (IsPendingLlmStep _) => true | _ => false end.
Definition is_PendingNLScript (p : option Pending) : bool :=
  match p with Some (IsPendingNLScript _) => true | _ => false end.
Definition is_PendingNLFallback (p : option Pending) : bool :=
  match p with Some (IsPendingNLFallback _) => true | _ => false end.

(** [return self._build_result(self.pending)]. *)
Definition return_pending (w : World) (x : McpScriptExecutor)
  : Flow * McpScriptExecutor :=
  let '(p, x) := pending w x in
  let '(r, x) := _build_result p x in
  (Return r, x).

(** The two assertions on [self.pending] followed by
    [return self._build_result(self.pending)]: three evaluations of the
    property. *)
Definition return_pending_asserting (expected : option Pending -> bool)
    (w : World) (x : McpScriptExecutor) : Flow * McpScriptExecutor :=
  let '(p, x) := pending w x in
  match p with
  | None => (Raises AssertionError, x)
  | Some _ =>
      let '(p, x) := pending w x in
      if expected p then return_pending w x else (Raises AssertionError, x)
  end.

(** The error-handling llm step synthesized for a failed auto step. *)
Definition with_output (error_detail output : string) : string :=
  if bool_decide (output = "") then error_detail
  else error_detail +:+ NL +:+ NL +:+ "Output:" +:+ NL +:+ output.

Definition shell_error_detail (r : ShellResult) : string :=
  with_output ("exit code " +:+ pretty (sh_exit_code r)) (sh_output r).

Definition call_error_detail (r : CallResult) : string :=
  with_output ("Error: " +:+ default "None" (cr_error r)) (cr_output r).

Definition error_step (step : Auto) (error_detail : string) : Llm :=
  {| prompt :=
       "The step `" +:+ context step +:+ "` failed." +:+ NL +:+ NL
       +:+ "Command: `" +:+ Auto_description repr step +:+ "`" +:+ NL
       +:+ error_detail +:+ NL +:+ NL
       +:+ "Please handle this error and decide how to proceed.";
     expects := [] |}.

(** The auto step's [ExecutedStep]. *)
Definition auto_executed (frame : CompiledScriptFrame) (step : Auto)
    (result : AutoResult) : ExecutedStep :=
  {| es_script_name := c_script_name frame;
     es_step_index := step_index frame;
     es_step := SAuto step;
     es_result := Some (OfAuto result);
     es_is_entry := false; es_is_exit := false |}.

(** The hard fault: [frame.exception = ...] and return the fallback. *)
Definition fault (w : World) (frame : CompiledScriptFrame)
    (rest : list ExecutionFrame) (step : Auto) (auto_exception : AutoException)
    (x : McpScriptExecutor) : Flow * McpScriptExecutor :=
  let x := record_step (auto_executed frame step (RException auto_exception)) x in
  let x := with_stack (Compiled (with_exception (Some auto_exception) frame) :: rest) x in
  return_pending w x.

(** The soft failure: [frame.current_step = error_step] and return it. *)
Definition soft_failure (w : World) (frame : CompiledScriptFrame)
    (rest : list ExecutionFrame) (step : Auto) (error_detail : string)
    (x : McpScriptExecutor) : Flow * McpScriptExecutor :=
  let frame := set_current_step (Some (SLlm (error_step step error_detail))) frame in
  return_pending_asserting is_PendingLlmStep w
    (with_stack (Compiled frame :: rest) x).

(** An auto step that produced a shell or call result: record it, then
    escalate a failure to the llm or advance the frame. *)
Definition finish_auto (w : World) (frame : CompiledScriptFrame)
    (rest : list ExecutionFrame) (step : Auto) (result : AutoResult)
    (error_detail : string) (x : McpScriptExecutor) : Flow * McpScriptExecutor :=
  let x := record_step (auto_executed frame step result) x in
  if negb (auto_success result)
  then soft_failure w frame rest step error_detail x
  else
    match _advance_frame (OfAuto result) x with
    | (Ok _, x) => (Continue, x)
    | (Raise e, x) => (Raises e, x)
    end.

(** The body of the loop, for a non-empty stack. *)
Definition loop_body (s : McpScriptExecutor * World)
  : Flow * (McpScriptExecutor * World) :=
  let '(x, w) := s in
  match stack x with
  | [] => (Continue, (x, w))
  | NLFrame _ :: _ =>
      let '(fl, x) := return_pending w x in (fl, (x, w))
  | Compiled frame :: rest =>
      match exception frame with
      | Some _ => let '(fl, x) := return_pending w x in (fl, (x, w))
      | None =>
          let '(step, frame) := current_step frame in
          let x := with_stack (Compiled frame :: rest) x in
          match step with
          | None =>
              match _pop_frame x with
              | (Ok _, x) => (Continue, (x, w))
              | (Raise e, x) => (Raises e, (x, w))
              end
          | Some (SLlm _) =>
              let '(fl, x) := return_pending_asserting is_PendingLlmStep w x in
              (fl, (x, w))
          | Some (SCall call) =>
              let x :=
                record_step
                  {| es_script_name := c_script_name frame;
                     es_step_index := step_index frame;
                     es_step := SCall call;
                     es_result := None;
                     es_is_entry := true; es_is_exit := false |} x in
              match load_script (name call) (request call) w with
              | ScriptLoadError msg =>
                  let result :=
                    {| sc_success := false; sc_summary := msg;
                       sc_aborted := true; sc_steps_executed := 0;
                       sc_exception := None |} in
                  let x :=
                    record_step
                      {| es_script_name := c_script_name frame;
                         es_step_index := step_index frame;
                         es_step := SCall call;
                         es_result := Some (OfCall result);
                         es_is_entry := false; es_is_exit := true |} x in
                  match _advance_frame (OfCall result) x with
                  | (Ok _, x) => (Continue, (x, w))
                  | (Raise e, x) => (Raises e, (x, w))
                  end
              | LoadedNLScript target =>
                  let nested_working_dir :=
                    default (c_working_dir frame) (Runtime.working_dir call) in
                  let x :=
                    _push_nl_script (target_name target) nested_working_dir
                      target (request call) x in
                  let '(fl, x) := return_pending_asserting is_PendingNLScript w x in
                  (fl, (x, w))
              | LoadedCompiledScript body target =>
                  let nested_working_dir :=
                    default (c_working_dir frame) (Runtime.working_dir call) in
                  (Continue,
                   (_push_compiled_script body (target_name target)
                      nested_working_dir target (request call) x, w))
              end
          | Some (SAuto step) =>
              match _execute_auto_step step frame w with
              | (AutoExecutionError exc output, w) =>
                  let auto_exception :=
                    {| ae_success := false; ae_exception := exc;
                       ae_step_description := Auto_description repr step;
                       ae_output := output |} in
                  let '(fl, x) := fault w frame rest step auto_exception x in
                  (fl, (x, w))
              | (AutoAssertionError, w) => (Raises AssertionError, (x, w))
              | (AutoReturned (RException result), w) =>
                  let '(fl, x) := fault w frame rest step result x in
                  (fl, (x, w))
              | (AutoReturned (RShell r), w) =>
                  let '(fl, x) :=
                    finish_auto w frame rest step (RShell r) (shell_error_detail r) x in
                  (fl, (x, w))
              | (AutoReturned (RCall r), w) =>
                  let '(fl, x) :=
                    finish_auto w frame rest step (RCall r) (call_error_detail r) x in
                  (fl, (x, w))
              end
          end
      end
  end.

(** [run_until_llm()]: the loop, with the number of passes bounded by
    [fuel]. *)
Fixpoint run_until_llm (fuel : nat) (s : McpScriptExecutor * World)
  : Outcome RunResult * (McpScriptExecutor * World) :=
  match stack (fst s) with
  | [] =>
      let '(r, x) := _build_result None (fst s) in (Returned r, (x, snd s))
  | _ :: _ =>
      match fuel with
      | 0 => (OutOfFuel, s)
      | S fuel =>
          match loop_body s with
          | (Continue, s) => run_until_llm fuel s
          | (Return r, s) => (Returned r, s)
          | (Raises e, s) => (Raised e, s)
          end
      end
  end.

(** ** Resuming *)

(** [continue_after_llm(outputs)]. *)
Definition continue_after_llm (outputs : PyDictOf PyValue)
    (w : World) (x : McpScriptExecutor) : Res bool * McpScriptExecutor :=
  let '(p, x) := pending w x in
  if is_PendingNLScript p || is_PendingNLFallback p then
    (Raise (RuntimeError
       "An NL script is pending. Call finish_nl_script instead of continue_compiled_script."),
     x)
  else
    let '(p, x) := pending w x in
    if negb (is_PendingLlmStep p) then
      (Raise (RuntimeError "No pending llm step to continue from"), x)
    else
      let llm_result := {| lr_success := true; lr_outputs := outputs |} in
      match _advance_frame (OfLlm llm_result) x with
      | (Raise e, x) => (Raise e, x)
      | (Ok _, x) =>
          match stack x with
          | Compiled frame :: rest =>
              let '(step, frame) := current_step frame in
              let x := with_stack (Compiled frame :: rest) x in
              match step with
              | None => (Ok (bool_decide (1 < length (stack x))), x)
              | Some _ => (Ok true, x)
              end
          | _ => (Raise AssertionError, x)
          end
      end.

(** [is_waiting_on_llm()]. *)
Definition is_waiting_on_llm (w : World) (x : McpScriptExecutor)
  : bool * McpScriptExecutor :=
  let '(p, x) := pending w x in (is_PendingLlmStep p, x).

(** [complete_nl_script()]. *)
Definition complete_nl_script (w : World) (x : McpScriptExecutor)
  : Res unit * McpScriptExecutor :=
  let '(p, x) := pending w x in
  if is_PendingNLScript p then
    match stack x with
    | NLFrame nl_frame :: rest =>
        resume_parent
          {| sc_success := true;
             sc_summary := "Completed: " +:+ n_script_name nl_frame;
             sc_aborted := false; sc_steps_executed := 1;
             sc_exception := None |}
          (with_stack rest x)
    | _ :: rest => (Raise AssertionError, with_stack rest x)
    | [] => (Raise (IndexError "pop from empty list"), x)
    end
  else
    let '(p, x) := pending w x in
    if is_PendingNLFallback p then
      match stack x with
      | Compiled failed_frame :: rest =>
          match exception failed_frame with
          | Some auto_exception =>
              resume_parent
                {| sc_success := false;
                   sc_summary := "Completed with fallback: "
                                 +:+ c_script_name failed_frame;
                   sc_aborted := false;
                   sc_steps_executed := step_index failed_frame + 1;
                   sc_exception := Some (ae_exception auto_exception) |}
                (with_stack rest x)
          | None => (Raise AssertionError, with_stack rest x)
          end
      | _ :: rest => (Raise AssertionError, with_stack rest x)
      | [] => (Raise (IndexError "pop from empty list"), x)
      end
    else (Raise (RuntimeError "No pending NL script to complete"), x).

End WithHost.

End Executor.

(** * The tool surface ([mekara/mcp/server.py]) *)

Module Server.
Import Runtime Executor.

Section WithHost.
Context `{H : Host}.

(** ** Formatting *)

(** [PendingLlmStep.format()]. *)
Definition format_llm_step (p : PendingLlmStep) : string :=
  let location :=
    if contains " > " (pl_stack_path p) then
      "## LLM Step in `" +:+ pl_script_name p +:+ "` (step "
      +:+ pretty (pl_step_index p) +:+ ")" +:+ NL +:+ NL
      +:+ "**Stack:** `" +:+ pl_stack_path p +:+ "`"
    else
      "## LLM Step " +:+ pretty (pl_step_index p) +:+ " in `"
      +:+ pl_script_name p +:+ "`" in
  let has_expects := negb (bool_decide (expects (pl_step p) = [])) in
  join NL
    ((if bool_decide (pl_context p = "") then [] else [pl_context p])
     ++ [location; ""; prompt (pl_step p)]
     ++ (if has_expects
         then [""; "### Expected outputs:"]
              ++ map (fun kv => "- `" +:+ fst kv +:+ "`: " +:+ snd kv)
                     (expects (pl_step p))
         else [])
     ++ (if has_expects
         then [""; "When you have completed this step, call `continue_compiled_script` with the outputs."]
         else [""; "When you have completed this step, call `continue_compiled_script` (no outputs needed)."])).

(** [PendingNLScript.format()]. *)
Definition format_nl_script (p : PendingNLScript) : string :=
  "## Natural Language Command: `" +:+ pn_name p +:+ "`" +:+ NL +:+ NL
  +:+ pn_content p +:+ NL +:+ NL
  +:+ "---" +:+ NL +:+ NL
  +:+ "When you have completed this command, call `finish_nl_script` to mark it complete.".

(** [PendingNLFallback.format()]. *)
Definition format_nl_fallback (p : PendingNLFallback) : string :=
  let stack_info :=
    if contains " > " (pf_stack_path p)
    then "**Stack:** `" +:+ pf_stack_path p +:+ "`" else "" in
  join NL
    (["## Exception in Compiled Script: `" +:+ pf_script_name p +:+ "`"]
     ++ (if bool_decide (stack_info = "") then [] else [stack_info])
     ++ ["**Step " +:+ pretty (pf_step_index p)
         +:+ " failed with an exception.** Falling back to manual execution of the original script.";
         "";
         "### Failed Step";
         "";
         "`" +:+ ae_step_description (pf_exception p) +:+ "`";
         "";
         "### Exception";
         "";
         "```" +:+ NL +:+ exc_message (ae_exception (pf_exception p)) +:+ NL +:+ "```"]
     ++ (if bool_decide (pf_nl_source p = "") then []
         else [""; "### Original Script Instructions"; ""; pf_nl_source p])
     ++ [""; "---"; "";
         "**Follow the instructions above to complete this task manually.** When done, call `finish_nl_script` to mark it complete."]).

Definition format_pending (p : Pending) : string :=
  match p with
  | IsPendingLlmStep p => format_llm_step p
  | IsPendingNLScript p => format_nl_script p
  | IsPendingNLFallback p => format_nl_fallback p
  end.

(** [ExecutedStep.output]. *)
Definition output (e : ExecutedStep) : option string :=
  match es_result e with
  | Some (OfAuto r) =>
      let out := strip (auto_output r) in
      if bool_decide (out = "") then None else Some out
  | _ => None
  end.

Definition indented (tag : string) (text : string) : list string :=
  [""; "  <" +:+ tag +:+ ">"]
  ++ map (fun line => "  " +:+ line) (split_lines text)
  ++ ["  </" +:+ tag +:+ ">"].

(** The lines [_format_executed_steps] appends for one step; the two
    [assert isinstance(exec_step.step, CallScript)] can fail. *)
Definition format_executed_step (e : ExecutedStep) : Res (list string) :=
  let prefix := es_script_name e +:+ "[" +:+ pretty (es_step_index e) +:+ "]" in
  if es_is_entry e then
    match es_step e with
    | SCall call =>
        Ok ["- `" +:+ prefix +:+ "`: ↪ Calling `"
            +:+ CallScript_description call +:+ "`"]
    | _ => Raise AssertionError
    end
  else if es_is_exit e then
    match es_step e with
    | SCall call =>
        match es_result e with
        | Some result =>
            let status := if result_success result then "✓" else "✗" in
            Ok ["- `" +:+ prefix +:+ "`: " +:+ status +:+ " Returned from `"
                +:+ name call +:+ "`"]
        | None =>
            Ok ["- `" +:+ prefix +:+ "`: ↩ Returned from `" +:+ name call +:+ "`"]
        end
    | _ => Raise AssertionError
    end
  else
    match es_step e with
    | SAuto step =>
        let status :=
          match es_result e with
          | Some result => if result_success result then "✓" else "✗"
          | None => "✗"
          end in
        Ok (["- `" +:+ prefix +:+ "`: " +:+ status +:+ " `"
             +:+ Auto_description repr step +:+ "`"]
            ++ match output e with
               | Some out => indented "output" out
               | None => []
               end
            ++ match es_result e with
               | Some (OfAuto (RException r)) =>
                   indented "exception" (exc_message (ae_exception r))
               | _ => []
               end)
    | _ => Ok []
    end.

Fixpoint format_steps (steps : list ExecutedStep) : Res (list string) :=
  match steps with
  | [] => Ok []
  | e :: steps =>
      match format_executed_step e with
      | Raise err => Raise err
      | Ok lines =>
          match format_steps steps with
          | Raise err => Raise err
          | Ok more => Ok (lines ++ more)
          end
      end
  end.

(** [_format_executed_steps(executed_steps)]. *)
Definition _format_executed_steps (steps : list ExecutedStep) : Res string :=
  match steps with
  | [] => Ok ""
  | _ =>
      match format_steps steps with
      | Raise err => Raise err
      | Ok lines => Ok (join NL ("### Steps executed:" :: lines))
      end
  end.

(** [_format_run_result(result)]. *)
Definition _format_run_result (result : RunResult) : Res string :=
  match _format_executed_steps (executed_steps result) with
  | Raise err => Raise err
  | Ok steps_text =>
      let parts :=
        (match executed_steps result with [] => [] | _ => [steps_text] end)
        ++ match rr_pending result with
           | None =>
               [NL +:+ "## All Steps Completed" +:+ NL +:+ NL
                +:+ "The script has finished execution."]
           | Some p => [format_pending p]
           end in
      Ok (match parts with [] => "No output." | _ => join (NL +:+ NL) parts end)
  end.

(** [_handle_run_result(result)]. *)
Definition _handle_run_result (result : RunResult) : Res string :=
  match _format_run_result result with
  | Raise err => Raise err
  | Ok response =>
      Ok (if bool_decide (response = "")
          then "Script executed but produced no output." else response)
  end.

(** ** The four operations

    The server object holds the executor; the auto executor acts on the
    world.  [fuel] bounds the passes of the driving loop. *)

Definition respond (r : Outcome RunResult * (McpScriptExecutor * World))
  : Outcome string * (McpScriptExecutor * World) :=
  match r with
  | (Returned result, s) =>
      match _handle_run_result result with
      | Ok response => (Returned response, s)
      | Raise e => (Raised e, s)
      end
  | (Raised e, s) => (Raised e, s)
  | (OutOfFuel, s) => (OutOfFuel, s)
  end.

Definition all_completed : string :=
  "## All Steps Completed" +:+ NL +:+ NL +:+ "The script has finished execution.".

(** [start(name, arguments, working_dir)]. *)
Definition start (fuel : nat) (name arguments : string)
    (working_dir : option string) (s : McpScriptExecutor * World)
  : Outcome string * (McpScriptExecutor * World) :=
  let '(x, w) := s in
  let name := replace_colons name in
  let resolved_working_dir := default (Executor.working_dir x) working_dir in
  match push_script name arguments resolved_working_dir w x with
  | (Raise (LoadError msg), x) => (Returned ("Error: " +:+ msg), (x, w))
  | (Raise e, x) => (Raised e, (x, w))
  | (Ok _, x) => respond (run_until_llm fuel (x, w))
  end.

(** [continue_compiled_script(outputs)]. *)
Definition continue_compiled_script (fuel : nat) (outputs : PyDictOf PyValue)
    (s : McpScriptExecutor * World)
  : Outcome string * (McpScriptExecutor * World) :=
  let '(x, w) := s in
  let '(p, x) := pending w x in
  if is_PendingNLScript p then
    let '(p, x) := pending w x in
    match p with
    | Some (IsPendingNLScript p) =>
        (Returned
           ("Error: Natural language script `" +:+ pn_name p +:+ "` is pending. "
            +:+ "Call `finish_nl_script` instead of `continue_compiled_script` once all "
            +:+ "steps are complete."), (x, w))
    | _ => (Raised (AttributeError "name"), (x, w))
    end
  else
    let '(p, x) := pending w x in
    if is_PendingNLFallback p then
      let '(p, x) := pending w x in
      match p with
      | Some (IsPendingNLFallback p) =>
          (Returned
             ("Error: Compiled script `" +:+ pf_script_name p
              +:+ "` needs to be completed manually. "
              +:+ "Call `finish_nl_script` instead of `continue_compiled_script` once all "
              +:+ "steps are complete."), (x, w))
      | _ => (Raised (AttributeError "script_name"), (x, w))
      end
    else
      let '(p, x) := pending w x in
      match p with
      | None => (Returned "Error: No LLM step is pending. Nothing to continue.", (x, w))
      | Some _ =>
          match continue_after_llm outputs w x with
          | (Raise e, x) => (Raised e, (x, w))
          | (Ok false, x) => (Returned all_completed, (x, w))
          | (Ok true, x) => respond (run_until_llm fuel (x, w))
          end
      end.

(** [finish_nl_script()]. *)
Definition finish_nl_script (fuel : nat) (s : McpScriptExecutor * World)
  : Outcome string * (McpScriptExecutor * World) :=
  let '(x, w) := s in
  let '(p, x) := pending w x in
  if negb (is_PendingNLScript p || is_PendingNLFallback p) then
    let '(p, x) := pending w x in
    if is_PendingLlmStep p then
      (Returned
         ("Error: A compiled script LLM step is pending, not an NL script. "
          +:+ "Call `continue_compiled_script` instead."), (x, w))
    else
      (Returned "Error: No NL script is pending. Use `start` to begin a script.",
       (x, w))
  else
    match complete_nl_script w x with
    | (Raise e, x) => (Raised e, (x, w))
    | (Ok _, x) => respond (run_until_llm fuel (x, w))
    end.

(** [status()]. *)
Definition status (w : World) (x : McpScriptExecutor)
  : Res string * McpScriptExecutor :=
  let '(p, x) := pending w x in
  match p with
  | Some _ =>
      let '(p, x) := pending w x in
      match p with
      | Some p => (Ok (format_pending p), x)
      | None => (Raise (AttributeError "format"), x)
      end
  | None =>
      match stack x with
      | [] => (Ok "No script is currently running.", x)
      | _ =>
          (Ok (join NL
                 ["## Script: `" +:+ default "None" (root_script_name x) +:+ "`";
                  "Stack depth: " +:+ pretty (stack_depth x);
                  "Stack path: `" +:+ get_stack_path x +:+ "`"]), x)
      end
  end.

End WithHost.

End Server.

(** * Example scripts and a test host

    The in-memory scripts of [tests/test_mcp_server.py] (loaded there
    through [ScriptLoaderStub]) and a few more in the same style, with an
    auto executor whose results are fixed by the command. *)

Module Scenarios.
Import Runtime Executor.

Definition llm (prompt : string) (expects : PyDictOf string) : Step :=
  SLlm {| prompt := prompt; expects := expects |}.
Definition auto (cmd : string) (context : string) : Step :=
  SAuto {| action := ShellAction cmd; context := context |}.
Definition auto_call (func : string) (kwargs : PyDictOf PyValue)
    (context : string) : Step :=
  SAuto {| action := CallAction func kwargs; context := context |}.
Definition call_script (name : string) (request : string) : Step :=
  SCall {| name := name; request := request; Runtime.working_dir := None |}.

(** [script_with_llm_step]. *)
Definition script_with_llm_step : Prog :=
  PYield (llm "Please do something" [("done", "Whether task was done")])
    (fun _ => PStop).

(** [script_with_two_llm_steps]. *)
Definition script_with_two_llm_steps : Prog :=
  PYield (llm "First step" [])
    (fun _ => PYield (llm "Second step" []) (fun _ => PStop)).

(** [script_with_auto_only]. *)
Definition script_with_auto_only : Prog :=
  PYield (auto "echo hello" "Greet") (fun _ => PStop).

(** An auto step that exits with status 1, then an llm step. *)
Definition script_with_failing_auto : Prog :=
  PYield (auto "false" "Run the check")
    (fun _ => PYield (llm "Report the outcome" []) (fun _ => PStop)).

(** An auto step whose function raises. *)
Definition script_with_raising_auto : Prog :=
  PYield (auto_call "explode" [] "Blow up") (fun _ => PStop).

(** A script that calls a script nobody provides, then one that exists. *)
Definition script_calling_missing : Prog :=
  PYield (call_script "missing" "")
    (fun _ => PYield (call_script "child" "") (fun _ => PStop)).

(** A script that calls an auto-only script and then asks the llm. *)
Definition script_calling_auto_only : Prog :=
  PYield (call_script "helper" "")
    (fun _ => PYield (llm "Wrap up" []) (fun _ => PStop)).

Definition mock_target (name : string) (has_compiled : bool) : ResolvedTarget :=
  {| compiled :=
       if has_compiled
       then Some {| path := "scripts/" +:+ name +:+ ".py"; is_bundled := false |}
       else None;
     nl := {| path := "commands/" +:+ name +:+ ".md"; is_bundled := false |};
     target_name := name |}.

Definition registry : list (string * Prog) :=
  [("parent", script_with_llm_step);
   ("child", script_with_two_llm_steps);
   ("helper", script_with_auto_only);
   ("failing", script_with_failing_auto);
   ("raising", script_with_raising_auto);
   ("outer", script_calling_missing);
   ("wrapper", script_calling_auto_only)].

Fixpoint lookup_script (name : string) (reg : list (string * Prog)) : option Prog :=
  match reg with
  | [] => None
  | (n, body) :: reg => if bool_decide (n = name) then Some body else lookup_script name reg
  end.

(** The world of the test host: the shell commands and functions run so
    far, latest last. *)
Definition test_execute (step : Auto) (working_dir : string) (w : list string)
  : Execution * list string :=
  match action step with
  | ShellAction cmd =>
      ({| yielded :=
            [RShell (if bool_decide (cmd = "false")
                     then {| sh_success := false; sh_exit_code := 1; sh_output := "" |}
                     else {| sh_success := true; sh_exit_code := 0;
                             sh_output := "ok" +:+ NL |})];
          ending := Exhausted |}, w ++ [cmd])
  | CallAction func kwargs =>
      if bool_decide (func = "explode")
      then ({| yielded := [];
               ending := RaisedAutoExecutionError (mkException "boom") "" |},
            w ++ [func])
      else ({| yielded := [RCall {| cr_success := true; cr_value := PyNone;
                                    cr_error := None; cr_output := "" |}];
               ending := Exhausted |}, w ++ [func])
  end.

Definition test_load_script (name request : string) (w : list string)
  : LoadedScript :=
  let name := replace_colons name in
  match lookup_script name registry with
  | Some body => LoadedCompiledScript body (mock_target name true)
  | None =>
      if bool_decide (name = "notes") then LoadedNLScript (mock_target name false)
      else ScriptLoadError ("Script not found: " +:+ name)
  end.

Definition test_repr (v : PyValue) : string :=
  match v with
  | PyNone => "None"
  | PyBool true => "True"
  | PyBool false => "False"
  | PyInt z => pretty z
  | PyStr s => "'" +:+ s +:+ "'"
  | PyList _ => "[...]"
  | PyDict _ => "{...}"
  end.

#[export] Instance test_host : Host := {|
  World := list string;
  execute := test_execute;
  load_script := test_load_script;
  read_nl_prompt := fun target _ _ => "# Mock NL source for " +:+ target_name target;
  repr := test_repr |}.

Definition no_commands : World := ([] : list string).
Definition fresh : McpScriptExecutor * World := (new_executor "/work", no_commands).




(** [failing] after [start]: its auto step failed softly and the
    synthesized llm step is pending. *)
Definition failing_started : McpScriptExecutor * World :=
  (Server.start 10 "failing" "" None fresh).2.

Definition failing_frame : CompiledScriptFrame :=
  Eval vm_compute in
    match stack failing_started.1 with
    | Compiled f :: _ => f
    | _ =>
        {| c_script_name := ""; c_working_dir := "";
           c_resolved_target := mock_target "" false; c_arguments := "";
           generator := GenClosed; _step_index := 0; _current_step := None;
           has_shown_nl_source := false; exception := None |}
    end.

(** The state in which an operation leaves the server. *)
Definition after {A} (r : A * (McpScriptExecutor * World))
  : McpScriptExecutor * World := snd r.

End Scenarios.

(** * A block-style emitter for concrete cassettes

    A small emitter in the block style of the cassette files: mappings one
    key per line, nested mappings indented by two, sequences as [- ] items
    level with their key, empty collections in flow form.  It stands in for
    PyYAML where a concrete cassette file is computed; the general results
    on [save] are stated for every emitter. *)

Module BlockYaml.
Import Cassette.

Definition scalar (v : PyValue) : option string :=
  match v with
  | PyNone => Some "null"
  | PyBool true => Some "true"
  | PyBool false => Some "false"
  | PyInt z => Some (pretty z)
  | PyStr s => Some (if bool_decide (s = "") then "''" else s)
  | PyList [] => Some "[]"
  | PyDict [] => Some "{}"
  | _ => None
  end.

Definition is_list (v : PyValue) : bool :=
  match v with PyList _ => true | _ => false end.

(** The first line of an item carries the dash, the others are indented. *)
Definition as_item (lines : list string) : list string :=
  match lines with
  | [] => []
  | first :: others => ("- " +:+ first) :: map (fun l => "  " +:+ l) others
  end.

Fixpoint block_lines (v : PyValue) : list string :=
  match v with
  | PyDict items =>
      (fix entries (items : list (string * PyValue)) : list string :=
         match items with
         | [] => []
         | (k, v) :: items =>
             match scalar v with
             | Some text => [k +:+ ": " +:+ text]
             | None =>
                 (k +:+ ":")
                 :: (if is_list v then block_lines v
                     else map (fun l => "  " +:+ l) (block_lines v))
             end ++ entries items
         end) items
  | PyList items =>
      (fix elements (items : list PyValue) : list string :=
         match items with
         | [] => []
         | v :: items =>
             match scalar v with
             | Some text => ["- " +:+ text]
             | None => as_item (block_lines v)
             end ++ elements items
         end) items
  | _ => []
  end.

Definition dump (v : PyValue) : string :=
  match scalar v with
  | Some text => text +:+ NL
  | None => join NL (block_lines v) +:+ NL
  end.

#[export] Instance emitter : YamlEmitter := dump.

Definition initial : PyDictOf PyValue := [("working_dir", PyStr "/test/project")].

Definition tape : VCRCassette := new_record "cassette.yaml" initial.

(** The events of [tests/test_cassette_append.py]. *)
Definition ev_start : VcrEvent :=
  EvStart {| start_name := "test"; start_arguments := ""; start_working_dir := None |}.
Definition ev_started : VcrEvent :=
  EvToolOutput {| out_tool := "start"; out_output := "started" |}.

(** A cassette opened for replay on two recorded events. *)
Definition replaying : VCRCassette :=
  {| path := "cassette.yaml"; mode := ModeReplay; initial_state := initial;
     _events := [ev_start; ev_started];
     _replay_event_index := 0; _last_saved_event_count := 2 |}.

End BlockYaml.

(** * Vocabulary of the executor's properties *)

Module Vocabulary.
Import Runtime Executor Server.

Section WithHost.
Context `{H : Host}.

(** ** States *)

(** The states the executor's public methods lead to from a new
    executor. *)
Inductive reachable : McpScriptExecutor * World -> Prop :=
  | reach_new (wd : string) (w : World) :
      reachable (new_executor wd, w)
  | reach_push_script (s : McpScriptExecutor * World) (name args wd : string) :
      reachable s -> reachable ((push_script name args wd s.2 s.1).2, s.2)
  | reach_run_until_llm (s : McpScriptExecutor * World) (fuel : nat) :
      reachable s -> reachable (run_until_llm fuel s).2
  | reach_continue_after_llm (s : McpScriptExecutor * World)
      (outputs : PyDictOf PyValue) :
      reachable s -> reachable ((continue_after_llm outputs s.2 s.1).2, s.2)
  | reach_complete_nl_script (s : McpScriptExecutor * World) :
      reachable s -> reachable ((complete_nl_script s.2 s.1).2, s.2).

(** A call of one of the four tools, and the state it leaves. *)
Inductive Call : Type :=
  | CallStart (name arguments : string) (working_dir : option string)
  | CallContinue (outputs : PyDictOf PyValue)
  | CallFinish
  | CallStatus.

Definition call (fuel : nat) (c : Call) (s : McpScriptExecutor * World)
  : McpScriptExecutor * World :=
  match c with
  | CallStart name arguments working_dir =>
      (start fuel name arguments working_dir s).2
  | CallContinue outputs => (continue_compiled_script fuel outputs s).2
  | CallFinish => (finish_nl_script fuel s).2
  | CallStatus => ((status s.2 s.1).2, s.2)
  end.

(** A sequence of calls, each with the fuel granted to its loop. *)
Definition calls (cs : list (nat * Call)) (s : McpScriptExecutor * World)
  : McpScriptExecutor * World :=
  foldl (fun s fc => call fc.1 fc.2 s) s cs.

(** The states the tool surface leads to. *)
Definition served (s : McpScriptExecutor * World) : Prop :=
  exists wd w cs, s = calls cs (new_executor wd, w).

(** ** The pending derivation *)

(** C1 as the specification states it: deriving twice in a row gives the
    same value and changes nothing. *)
Definition pending_pure_claim : Prop :=
  forall s, reachable s ->
    let r1 := pending s.2 s.1 in
    let r2 := pending s.2 r1.2 in
    r1.1 = r2.1 /\ r1.2 = s.1 /\ r2.2 = s.1.

(** C2 as the specification states it. *)
Definition pending_none_iff_empty_claim : Prop :=
  forall s, served s -> ((pending s.2 s.1).1 = None <-> stack s.1 = []).

(** C3 as the specification states it. *)
Definition status_read_only_claim : Prop :=
  forall w x, exists text, status w x = (Ok text, x).

(** A pending value without its one-time source text. *)
Definition without_source (p : option Pending) : option Pending :=
  match p with
  | Some (IsPendingLlmStep p) =>
      Some (IsPendingLlmStep
              {| pl_step := pl_step p; pl_script_name := pl_script_name p;
                 pl_step_index := pl_step_index p;
                 pl_stack_path := pl_stack_path p; pl_context := "" |})
  | Some (IsPendingNLFallback p) =>
      Some (IsPendingNLFallback
              {| pf_script_name := pf_script_name p; pf_nl_source := "";
                 pf_exception := pf_exception p;
                 pf_step_index := pf_step_index p;
                 pf_stack_path := pf_stack_path p |})
  | p => p
  end.

(** The frame with its first step pulled from the generator, if none is
    cached. *)
Definition pulled (f : CompiledScriptFrame) : CompiledScriptFrame :=
  (current_step f).2.

(** [f'] is [f] up to the two fields the derivation fills in: the cached
    first step (with the generator started to obtain it) and
    [has_shown_nl_source]. *)
Definition lazily_filled (f f' : CompiledScriptFrame) : Prop :=
  f' = f \/ f' = pulled f
  \/ f' = with_has_shown_nl_source true f
  \/ f' = with_has_shown_nl_source true (pulled f).

(** [x'] is [x] up to the lazily filled fields of its top frame. *)
Definition top_lazily_filled (x x' : McpScriptExecutor) : Prop :=
  working_dir x' = working_dir x
  /\ recently_executed_steps x' = recently_executed_steps x
  /\ match stack x with
     | Compiled f :: rest =>
         exists f', stack x' = Compiled f' :: rest /\ lazily_filled f f'
     | frames => stack x' = frames
     end.

(** ** Escalation *)

(** [f'] is [f] up to [has_shown_nl_source]. *)
Definition flag_eq (f f' : CompiledScriptFrame) : Prop :=
  f' = f \/ f' = with_has_shown_nl_source true f.

Definition is_Auto (s : option Step) : bool :=
  match s with Some (SAuto _) => true | _ => false end.

Definition no_exception (f : CompiledScriptFrame) : bool :=
  match exception f with None => true | Some _ => false end.

(** A frame waiting on an llm step (the synthesized one of a soft failure
    included), and a frame with a live fault on its auto step. *)
Definition soft_pending (f : CompiledScriptFrame) : Prop :=
  no_exception f = true /\ is_Llm (_current_step f) = true.

Definition hard_fault (f : CompiledScriptFrame) : Prop :=
  no_exception f = false /\ is_Auto (_current_step f) = true.

(** A frame the loop leaves alone: it waits on an llm step or holds a
    fault. *)
Definition parked (f : CompiledScriptFrame) : Prop :=
  soft_pending f \/ hard_fault f.

(** The top frame sits on [tail]. *)
Definition on_tail (tail : list ExecutionFrame) (x : McpScriptExecutor) : Prop :=
  exists top, stack x = top :: tail.

(** The frame [f] is on the stack, right above the frames [below], and as
    it was up to [has_shown_nl_source]: not popped, not advanced. *)
Definition kept_in (f : CompiledScriptFrame) (below : list ExecutionFrame)
    (frames : list ExecutionFrame) : Prop :=
  exists above f',
    frames = above ++ Compiled f' :: below /\ flag_eq f f'.

Definition kept (f : CompiledScriptFrame) (below : list ExecutionFrame)
    (x : McpScriptExecutor) : Prop :=
  kept_in f below (stack x).

(** The one call that resolves the frame kept above [below] when it is the
    top of the stack: [continue_compiled_script] for a pending llm step,
    [finish_nl_script] for a fault. *)
Definition resolves (f : CompiledScriptFrame) (below : list ExecutionFrame)
    (c : Call) (x : McpScriptExecutor) : bool :=
  bool_decide (length (stack x) = S (length below))
  && match c with
     | CallContinue _ => no_exception f
     | CallFinish => negb (no_exception f)
     | _ => false
     end.

(** No call of the sequence resolves the frame. *)
Fixpoint unresolved (f : CompiledScriptFrame) (below : list ExecutionFrame)
    (cs : list (nat * Call)) (s : McpScriptExecutor * World) : Prop :=
  match cs with
  | [] => True
  | fc :: cs =>
      resolves f below fc.2 s.1 = false
      /\ unresolved f below cs (call fc.1 fc.2 s)
  end.

(** ** Where the loop returns *)

(** A pass that returns, returns something pending on a stack that is not
    empty. *)
Definition returns_pending (fl : Flow) (x : McpScriptExecutor) : Prop :=
  forall r, fl = Return r ->
    (exists p, rr_pending r = Some p) /\ stack x <> [].

(** ** Frames in use *)


End WithHost.

End Vocabulary.

(** * Reading events back ([from_dict] in [mekara/vcr/events.py]) *)

Module FromDict.
Import Cassette.

(** Python's [repr], where a message quotes a value: of a value, of the
    set of unexpected keys (given here in the order of the dict), of the
    recorded inputs of an auto step. *)
Class Repr := {
  repr_value : PyValue -> string;
  repr_keys : list string -> string;
  repr_inputs : AutoStepInputs -> string }.

(** What is raised: an error of [PyError], or a [KeyError]. *)
Inductive Failure : Type :=
  | Error (e : PyError)
  | KeyError (key : string).

(** How building an object from loaded data ends.  The dataclasses do not
    check their fields: data whose values are not of the annotated types
    gives an object the typed records cannot hold, the outcome [Untyped]. *)
Inductive Parsed (A : Type) : Type :=
  | Built (a : A)
  | Untyped
  | Fails (f : Failure).
Arguments Built {A} a.
Arguments Untyped {A}.
Arguments Fails {A} f.

(** Statements in sequence: a failure ends the function. *)
Definition and_then {A B} (m : Parsed A) (k : A -> Parsed B) : Parsed B :=
  match m with
  | Built a => k a
  | Untyped => Untyped
  | Fails f => Fails f
  end.

(** The arguments of a constructor call, evaluated from left to right: the
    first failure is raised, even after an argument of the wrong type. *)
Definition ap {A B} (f : Parsed (A -> B)) (a : Parsed A) : Parsed B :=
  match f with
  | Fails e => Fails e
  | Built g =>
      match a with
      | Built x => Built (g x)
      | Untyped => Untyped
      | Fails e => Fails e
      end
  | Untyped =>
      match a with
      | Fails e => Fails e
      | _ => Untyped
      end
  end.

Declare Scope parsed_scope.
Delimit Scope parsed_scope with parsed.
Notation "'let*' x ':=' m 'in' k" := (and_then m (fun x => k))
  (at level 10, x name, m at level 100, k at level 200) : parsed_scope.
Notation "m ';;' k" := (and_then m (fun _ => k))
  (at level 100, k at level 200, right associativity) : parsed_scope.
Notation "f '<*>' a" := (ap f a) (at level 61, left associativity) : parsed_scope.

(** A value of the annotated type. *)
Definition typed {A} (conv : PyValue -> option A) (m : Parsed PyValue) : Parsed A :=
  match m with
  | Built v => match conv v with Some a => Built a | None => Untyped end
  | Untyped => Untyped
  | Fails f => Fails f
  end.

Definition as_str (v : PyValue) : option string :=
  match v with PyStr s => Some s | _ => None end.
Definition as_opt_str (v : PyValue) : option (option string) :=
  match v with PyNone => Some None | PyStr s => Some (Some s) | _ => None end.
Definition as_bool (v : PyValue) : option bool :=
  match v with PyBool b => Some b | _ => None end.
Definition as_int (v : PyValue) : option Z :=
  match v with PyInt z => Some z | _ => None end.
Definition as_dict (v : PyValue) : option (PyDictOf PyValue) :=
  match v with PyDict items => Some items | _ => None end.
Definition as_opt_dict (v : PyValue) : option (option (PyDictOf PyValue)) :=
  match v with PyNone => Some None | PyDict items => Some (Some items) | _ => None end.
Definition as_any (v : PyValue) : option PyValue := Some v.

(** ** Operations on loaded data *)

(** [v == "literal"]. *)
Definition is_str (v : PyValue) (literal : string) : bool :=
  match v with PyStr s => bool_decide (s = literal) | _ => false end.

Fixpoint dict_lookup (key : string) (items : PyDictOf PyValue) : option PyValue :=
  match items with
  | [] => None
  | (k, v) :: items => if bool_decide (k = key) then Some v else dict_lookup key items
  end.

(** [data.keys()], and the value under ["type"] where there is one. *)
Definition keys_of (data : PyValue) : list string :=
  match data with PyDict items => items.*1 | _ => [] end.

Definition type_of_data (data : PyValue) : option PyValue :=
  match data with PyDict items => dict_lookup "type" items | _ => None end.

(** [data.get(key, default)]. *)
Definition get (data : PyValue) (key : string) (dflt : PyValue) : Parsed PyValue :=
  match data with
  | PyDict items => Built (default dflt (dict_lookup key items))
  | _ => Fails (Error (AttributeError "get"))
  end.

(** [data[key]]. *)
Definition getitem (data : PyValue) (key : string) : Parsed PyValue :=
  match data with
  | PyDict items =>
      match dict_lookup key items with
      | Some v => Built v
      | None => Fails (KeyError key)
      end
  | PyStr _ => Fails (Error (TypeError "string indices must be integers"))
  | PyList _ => Fails (Error (TypeError "list indices must be integers or slices, not str"))
  | _ => Fails (Error (TypeError "object is not subscriptable"))
  end.

Section WithRepr.
Context `{R : Repr}.

Local Open Scope parsed_scope.

(** [_check_keys(data, expected, context)]. *)
Definition _check_keys (data : PyValue) (expected : list string)
    (context : string) : Parsed unit :=
  match data with
  | PyDict items =>
      let extra := filter (fun k => k ∉ expected) (items.*1) in
      match extra with
      | [] => Built tt
      | _ => Fails (Error (ValueError (context +:+ ": unexpected keys "
                                        +:+ repr_keys extra)))
      end
  | _ => Fails (Error (AttributeError "keys"))
  end.

(** ** The [from_dict] class methods *)

Definition McpStartInputEvent_from_dict (data : PyValue)
  : Parsed McpStartInputEvent :=
  _check_keys data ["type"; "tool"; "input"] "McpStartInputEvent" ;;
  let* input_data := get data "input" (PyDict []) in
  _check_keys input_data ["name"; "arguments"; "working_dir"]
    "McpStartInputEvent.input" ;;
  Built Build_McpStartInputEvent
    <*> typed as_str (getitem input_data "name")
    <*> typed as_str (get input_data "arguments" (PyStr ""))
    <*> typed as_opt_str (get input_data "working_dir" PyNone).

Definition McpContinueCompiledScriptInputEvent_from_dict (data : PyValue)
  : Parsed McpContinueCompiledScriptInputEvent :=
  _check_keys data ["type"; "tool"; "input"] "McpContinueCompiledScriptInputEvent" ;;
  let* input_data := get data "input" (PyDict []) in
  _check_keys input_data ["outputs"] "McpContinueCompiledScriptInputEvent.input" ;;
  Built Build_McpContinueCompiledScriptInputEvent
    <*> typed as_dict (getitem input_data "outputs").

Definition McpStatusInputEvent_from_dict (data : PyValue) : Parsed unit :=
  _check_keys data ["type"; "tool"; "input"] "McpStatusInputEvent" ;;
  let* input_data := get data "input" (PyDict []) in
  _check_keys input_data [] "McpStatusInputEvent.input" ;;
  Built tt.

Definition McpFinishNLScriptInputEvent_from_dict (data : PyValue) : Parsed unit :=
  _check_keys data ["type"; "tool"; "input"] "McpFinishNLScriptInputEvent" ;;
  let* input_data := get data "input" (PyDict []) in
  _check_keys input_data [] "McpFinishNLScriptInputEvent.input" ;;
  Built tt.

(** [_MCP_INPUT_TYPES], each class with its [from_dict]. *)
Definition _MCP_INPUT_TYPES : list (string * (PyValue -> Parsed VcrEvent)) :=
  [("start", fun data => Built EvStart <*> McpStartInputEvent_from_dict data);
   ("continue_compiled_script",
    fun data => Built EvContinue <*> McpContinueCompiledScriptInputEvent_from_dict data);
   ("status", fun data => McpStatusInputEvent_from_dict data ;; Built EvStatus);
   ("finish_nl_script",
    fun data => McpFinishNLScriptInputEvent_from_dict data ;; Built EvFinishNLScript)].

Fixpoint registered {A} (tool : string) (types : list (string * A)) : option A :=
  match types with
  | [] => None
  | (k, a) :: types => if bool_decide (k = tool) then Some a else registered tool types
  end.

(** [mcp_input_from_dict(data)].  The test [tool not in _MCP_INPUT_TYPES]
    hashes [tool]: a list or a dict there is a [TypeError]. *)
Definition mcp_input_from_dict (data : PyValue) : Parsed VcrEvent :=
  let* tool := get data "tool" PyNone in
  match tool with
  | PyList _ => Fails (Error (TypeError "unhashable type: 'list'"))
  | PyDict _ => Fails (Error (TypeError "unhashable type: 'dict'"))
  | PyStr name =>
      match registered name _MCP_INPUT_TYPES with
      | Some from_dict => from_dict data
      | None => Fails (Error (ValueError ("Unknown MCP tool: " +:+ repr_value tool)))
      end
  | _ => Fails (Error (ValueError ("Unknown MCP tool: " +:+ repr_value tool)))
  end.

Definition McpToolOutputEvent_from_dict (data : PyValue)
  : Parsed McpToolOutputEvent :=
  _check_keys data ["type"; "tool"; "output"] "McpToolOutputEvent" ;;
  Built Build_McpToolOutputEvent
    <*> typed as_str (getitem data "tool")
    <*> typed as_str (getitem data "output").

Definition AutoStepInputs_from_dict (data : PyValue) : Parsed AutoStepInputs :=
  _check_keys data ["action_type"; "action"; "context"; "kwargs"] "AutoStepInputs" ;;
  Built Build_AutoStepInputs
    <*> typed as_str (getitem data "action_type")
    <*> typed as_str (getitem data "action")
    <*> typed as_opt_str (get data "context" PyNone)
    <*> typed as_opt_dict (get data "kwargs" PyNone).

Definition ShellResultData_from_dict (data : PyValue) : Parsed ShellResultData :=
  _check_keys data ["type"; "success"; "exit_code"; "output"] "ShellResultData" ;;
  Built Build_ShellResultData
    <*> typed as_bool (getitem data "success")
    <*> typed as_int (getitem data "exit_code")
    <*> typed as_str (get data "output" (PyStr "")).

Definition CallResultData_from_dict (data : PyValue) : Parsed CallResultData :=
  _check_keys data ["type"; "success"; "value"; "error"; "output"] "CallResultData" ;;
  Built Build_CallResultData
    <*> typed as_bool (getitem data "success")
    <*> typed as_any (get data "value" PyNone)
    <*> typed as_opt_str (get data "error" PyNone)
    <*> typed as_str (get data "output" (PyStr "")).

Definition AutoExceptionData_from_dict (data : PyValue) : Parsed AutoExceptionData :=
  _check_keys data ["type"; "success"; "exception"; "step_description"; "output"]
    "AutoExceptionData" ;;
  Built Build_AutoExceptionData
    <*> typed as_bool (getitem data "success")
    <*> typed as_str (getitem data "exception")
    <*> typed as_str (getitem data "step_description")
    <*> typed as_str (get data "output" (PyStr "")).

(** [result_from_dict(data)]: whatever is neither ["shell"] nor ["call"]
    is read as the record of an exception. *)
Definition result_from_dict (data : PyValue) : Parsed AutoStepResult :=
  let* ty := getitem data "type" in
  if is_str ty "shell" then Built ResShell <*> ShellResultData_from_dict data
  else
    let* ty := getitem data "type" in
    if is_str ty "call" then Built ResCall <*> CallResultData_from_dict data
    else Built ResException <*> AutoExceptionData_from_dict data.

Definition AutoStepEvent_from_dict (data : PyValue) : Parsed AutoStepEvent :=
  _check_keys data ["type"; "working_dir"; "inputs"; "result"; "index"]
    "AutoStepEvent" ;;
  Built Build_AutoStepEvent
    <*> typed as_str (getitem data "working_dir")
    <*> (let* inputs := getitem data "inputs" in AutoStepInputs_from_dict inputs)
    <*> (let* result := getitem data "result" in result_from_dict result).

(** [event_from_dict(data)]. *)
Definition event_from_dict (data : PyValue) : Parsed VcrEvent :=
  let* event_type := get data "type" PyNone in
  if is_str event_type "mcp_tool_input" then mcp_input_from_dict data
  else if is_str event_type "mcp_tool_output" then
    Built EvToolOutput <*> McpToolOutputEvent_from_dict data
  else if is_str event_type "auto_step" then
    Built EvAutoStep <*> AutoStepEvent_from_dict data
  else Fails (Error (ValueError ("Unknown event type: "
                                  +:+ repr_value event_type))).

End WithRepr.

End FromDict.

(** * Opening a cassette ([VCRCassette.__init__], [_load],
      [get_working_dir] in [mekara/vcr/cassette.py])

    [yaml.safe_load] belongs to PyYAML: [_load] is modelled from the data
    it returns on. *)

Module CassetteFile.
Import Cassette FromDict.

Section WithRepr.
Context `{R : Repr}.

Local Open Scope parsed_scope.

(** [event_from_dict(e) for e in raw_events]. *)
Fixpoint events_from_dicts (raw_events : list PyValue) : Parsed (list VcrEvent) :=
  match raw_events with
  | [] => Built []
  | e :: raw_events =>
      Built cons <*> event_from_dict e <*> events_from_dicts raw_events
  end.

(** [isinstance(event, dict) and "type" in event]. *)
Definition is_event_dict (event : PyValue) : bool :=
  match event with
  | PyDict items => bool_decide (is_Some (dict_lookup "type" items))
  | _ => false
  end.

(** ["working_dir" in initial_state], for whatever the document holds
    there. *)
Definition has_working_dir (initial_state : PyValue) : Parsed bool :=
  match initial_state with
  | PyDict items => Built (bool_decide (is_Some (dict_lookup "working_dir" items)))
  | PyStr s => Built (contains "working_dir" s)
  | PyList l => Built (existsb (fun v => is_str v "working_dir") l)
  | _ => Fails (Error (TypeError "argument is not iterable"))
  end.

(** [_load()], on the data read: what [yaml.safe_load] returned for the
    file, [{}] when there is no file. *)
Definition _load (p : string) (data : PyValue) : Parsed VCRCassette :=
  let* raw_events := get data "events" PyNone in
  let* raw_events :=
    match raw_events with
    | PyNone =>
        match data with
        | PyDict (_ :: _) =>
            Fails (Error (ValueError
              ("Cassette format is missing required event data. "
               +:+ "Re-record to capture boundary-level events.")))
        | _ => Built (PyList [])
        end
    | _ => Built raw_events
    end in
  match raw_events with
  | PyList raw_events =>
      if negb (forallb is_event_dict raw_events) then
        Fails (Error (ValueError
          ("Cassette events must be dictionaries with a type field. "
           +:+ "Re-record to capture boundary-level events.")))
      else
        let* initial_state := get data "initial_state" PyNone in
        match initial_state with
        | PyNone =>
            Fails (Error (ValueError
              "Cassette format is missing required initial_state. Re-record the cassette."))
        | _ =>
            let* present := has_working_dir initial_state in
            if negb present then
              Fails (Error (ValueError
                "Cassette initial_state is missing required working_dir. Re-record the cassette."))
            else
              Built (fun initial_state events =>
                       {| path := p; mode := ModeReplay;
                          initial_state := initial_state;
                          _events := events;
                          _replay_event_index := 0;
                          _last_saved_event_count := length events |})
                <*> typed as_dict (Built initial_state)
                <*> events_from_dicts raw_events
        end
  | _ => Fails (Error (ValueError "Cassette events must be a list of recorded events."))
  end.

(** [VCRCassette(path, mode=..., initial_state=...)].  [file] is the data
    of the file at [path], if there is one. *)
Definition VCRCassette_init (p : string) (m : CassetteMode)
    (initial_state : option (PyDictOf PyValue)) (file : option PyValue)
  : Parsed VCRCassette :=
  match m with
  | ModeRecord =>
      match initial_state with
      | None => Fails (Error (ValueError "Record mode requires initial_state"))
      | Some initial_state => Built (new_record p initial_state)
      end
  | ModeReplay =>
      match initial_state with
      | Some _ =>
          Fails (Error (ValueError
            "Replay mode must not receive initial_state (loaded from file)"))
      | None => _load p (default (PyDict []) file)
      end
  end.

End WithRepr.

(** The replay cassette holding a recording: its initial state and its
    events, none of them consumed yet and all of them counted as saved. *)
Definition loaded (p : string) (init : PyDictOf PyValue) (tape : list VcrEvent)
  : VCRCassette :=
  {| path := p; mode := ModeReplay; initial_state := init; _events := tape;
     _replay_event_index := 0; _last_saved_event_count := length tape |}.

(** [get_working_dir()]; a path is kept as the string it is built from.
    [Path(x)] is a [TypeError] unless [x] is a string. *)
Definition get_working_dir (c : VCRCassette) : Res string :=
  match dict_lookup "working_dir" (initial_state c) with
  | None | Some PyNone => Raise (ValueError "No working_dir in initial_state.")
  | Some (PyStr working_dir) => Ok working_dir
  | Some _ => Raise (TypeError "expected str, bytes or os.PathLike object")
  end.

End CassetteFile.

(** * Recording and replaying auto steps ([mekara/scripting/auto.py],
      [mekara/vcr/auto_steps.py], [mekara/vcr/auto_executor.py]) *)

Module VcrAuto.
Import Cassette Runtime Executor FromDict.

(** ** Python's [==] on the values of a cassette

    Numbers compare by value ([True == 1]); dicts compare without regard
    to the order of their items. *)
Fixpoint py_eq (a b : PyValue) {struct a} : bool :=
  match a, b with
  | PyNone, PyNone => true
  | PyBool x, PyBool y => Bool.eqb x y
  | PyBool x, PyInt z => Z.eqb (if x then 1 else 0) z
  | PyInt z, PyBool x => Z.eqb z (if x then 1 else 0)
  | PyInt x, PyInt y => Z.eqb x y
  | PyStr s, PyStr t => bool_decide (s = t)
  | PyList l, PyList m =>
      (fix eq_list (l m : list PyValue) : bool :=
         match l, m with
         | [], [] => true
         | x :: l, y :: m => py_eq x y && eq_list l m
         | _, _ => false
         end) l m
  | PyDict d, PyDict e =>
      Nat.eqb (length d) (length e)
      && (fix all_in (d : list (string * PyValue)) : bool :=
            match d with
            | [] => true
            | (k, v) :: d =>
                (fix found (e : list (string * PyValue)) : bool :=
                   match e with
                   | [] => false
                   | (k', v') :: e => (bool_decide (k = k') && py_eq v v') || found e
                   end) e
                && all_in d
            end) d
  | _, _ => false
  end.

(** [==] of two [AutoStepInputs] (a frozen dataclass: field by field). *)
Definition inputs_eq (a b : AutoStepInputs) : bool :=
  bool_decide (Cassette.action_type a = Cassette.action_type b)
  && bool_decide (Cassette.action a = Cassette.action b)
  && bool_decide (Cassette.context a = Cassette.context b)
  && match kwargs a, kwargs b with
     | None, None => true
     | Some x, Some y => py_eq (PyDict x) (PyDict y)
     | _, _ => false
     end.

(** [str(e)] of a raised error, and the error as an exception object. *)
Definition error_text (e : PyError) : string :=
  match e with
  | ValueError msg | RuntimeError msg | TypeError msg | IndexError msg
  | LoadError msg | AttributeError msg => msg
  | AssertionError => ""
  end.

Definition as_exception (e : PyError) : PyException := mkException (error_text e).

(** ** [AutoStepInputs.from_step] and [auto_steps.py] *)

Definition AutoStepInputs_from_step (step : Auto) : AutoStepInputs :=
  match Runtime.action step with
  | ShellAction cmd =>
      {| Cassette.action_type := "shell"; Cassette.action := cmd;
         Cassette.context := Some (Runtime.context step); kwargs := None |}
  | CallAction func kw =>
      {| Cassette.action_type := "call"; Cassette.action := func;
         Cassette.context := Some (Runtime.context step); kwargs := Some kw |}
  end.

(** [build_recorded_auto_step_event(step=, result=, working_dir=)]. *)
Definition build_recorded_auto_step_event (step : Auto) (result : AutoResult)
    (working_dir : string) : AutoStepEvent :=
  let result_data :=
    match result with
    | RShell r =>
        ResShell {| shell_success := sh_success r;
                    shell_exit_code := sh_exit_code r;
                    shell_output := sh_output r |}
    | RException r =>
        ResException {| exn_success := ae_success r;
                        exn_exception := exc_message (ae_exception r);
                        exn_step_description := ae_step_description r;
                        exn_output := ae_output r |}
    | RCall r =>
        ResCall {| call_success := cr_success r; call_value := cr_value r;
                   call_error := cr_error r; call_output := cr_output r |}
    end in
  {| step_working_dir := working_dir;
     step_inputs := AutoStepInputs_from_step step;
     step_result := result_data |}.

(** [reconstruct_auto_step_result(recorded_event=)]. *)
Definition reconstruct_auto_step_result (recorded_event : AutoStepEvent)
  : AutoResult :=
  match step_result recorded_event with
  | ResShell d =>
      RShell {| sh_success := shell_success d; sh_exit_code := shell_exit_code d;
                sh_output := shell_output d |}
  | ResException d =>
      RException {| ae_success := exn_success d;
                    ae_exception := mkException (exn_exception d);
                    ae_step_description := exn_step_description d;
                    ae_output := exn_output d |}
  | ResCall d =>
      RCall {| cr_success := call_success d; cr_value := call_value d;
               cr_error := call_error d; cr_output := call_output d |}
  end.

(** ** The executor that is wrapped

    One run of the inner executor's [execute]: the results of the events
    it yields and how the iteration ends.  [VcrAutoExecutor] tells a
    [ScriptExecutionError] from the other exceptions. *)
Inductive InnerEnd : Type :=
  | InnerExhausted
  | InnerAutoExecutionError (original_exception : PyException) (output : string)
  | InnerScriptExecutionError (exc : PyException)
  | InnerException (exc : PyException).

Record InnerExecution := {
  inner_yielded : list AutoResult;
  inner_ending : InnerEnd }.

(** What the recording acts on: the machine the steps run on (with the
    inner executor), the loader of the scripts and the reader of their
    sources. *)
Class Surroundings := {
  Machine : Type;
  inner_execute : Auto -> string -> Machine -> InnerExecution * Machine;
  scripts : string -> string -> Machine -> LoadedScript;
  nl_prompt : ResolvedTarget -> string -> Machine -> string }.

(** ** [RealAutoExecutor]

    The subprocess and the called function are the machine's: a shell
    command ends with a return code and its two streams, or the subprocess
    cannot be created; a function returns or raises, with what it printed. *)
Class Processes := {
  Computer : Type;
  subprocess : string -> string -> Computer
               -> (PyException + (option Z * string * string)) * Computer;
  call_func : string -> PyDictOf PyValue -> string -> Computer
              -> (PyException + PyValue) * string * string * Computer }.

Section Real.
Context `{P : Processes}.

(** [_execute_shell(cmd, working_dir)]. *)
Definition _execute_shell (cmd working_dir : string) (m : Computer)
  : (PyException + ShellResult) * Computer :=
  match subprocess cmd working_dir m with
  | (inl exc, m) => (inl exc, m)
  | (inr (returncode, stdout, stderr), m) =>
      (inr {| sh_success := bool_decide (returncode = Some 0%Z);
              sh_exit_code := default 0%Z returncode;
              sh_output := stdout +:+ stderr |}, m)
  end.

(** [RealAutoExecutor.execute(step, working_dir=)]. *)
Definition RealAutoExecutor_execute (step : Auto) (working_dir : string)
    (m : Computer) : InnerExecution * Computer :=
  match Runtime.action step with
  | ShellAction cmd =>
      match _execute_shell cmd working_dir m with
      | (inl exc, m) =>
          ({| inner_yielded := []; inner_ending := InnerException exc |}, m)
      | (inr result, m) =>
          ({| inner_yielded := [RShell result]; inner_ending := InnerExhausted |}, m)
      end
  | CallAction func kw =>
      match call_func func kw working_dir m with
      | (inl exc, stdout, stderr, m) =>
          ({| inner_yielded := [];
              inner_ending := InnerAutoExecutionError exc (stdout +:+ stderr) |}, m)
      | (inr value, stdout, stderr, m) =>
          ({| inner_yielded :=
                [RCall {| cr_success := true; cr_value := value;
                          cr_error := None; cr_output := stdout +:+ stderr |}];
              inner_ending := InnerExhausted |}, m)
      end
  end.

End Real.

(** ** [VcrAutoExecutor] *)

Section Vcr.
Context `{S : Surroundings} `{R : Repr} `{E : YamlEmitter}.

(** The cassette, the file it is saved to, and the machine. *)
Record VcrWorld := {
  cassette : VCRCassette;
  file : File;
  machine : Machine }.

Definition with_cassette (c : VCRCassette) (w : VcrWorld) : VcrWorld :=
  {| cassette := c; file := file w; machine := machine w |}.

(** [self._cassette.record_event(event)] followed by
    [self._cassette.save()]. *)
Definition record_and_save (event : VcrEvent) (w : VcrWorld) : Res unit * VcrWorld :=
  match record_event event (cassette w) with
  | (Raise e, c) => (Raise e, with_cassette c w)
  | (Ok _, c) =>
      let '(c, ops) := save c in
      (Ok tt, {| cassette := c; file := apply_ops ops (file w);
                 machine := machine w |})
  end.

Definition inputs_mismatch (expected_inputs got : AutoStepInputs) : string :=
  "VCR replay error: auto_step inputs mismatch." +:+ NL
  +:+ "Expected: " +:+ repr_inputs expected_inputs +:+ NL
  +:+ "Got: " +:+ repr_inputs got +:+ NL
  +:+ "Re-record the cassette to capture events in order.".

Definition working_dir_mismatch (expected got : string) : string :=
  "VCR replay error: working_dir mismatch." +:+ NL
  +:+ "Expected: " +:+ repr_value (PyStr expected) +:+ NL
  +:+ "Got: " +:+ repr_value (PyStr got) +:+ NL
  +:+ "Re-record the cassette to capture events in order.".

(** The [AutoException] built from what the inner executor raised. *)
Definition raised_result (step : Auto) (exc : PyException) (output : string)
  : AutoResult :=
  RException {| ae_success := false; ae_exception := exc;
                ae_step_description := Auto_description repr_value step;
                ae_output := output |}.

(** [VcrAutoExecutor.execute(step, working_dir=)]: one run, as its
    consumer sees it, and the world after it. *)
Definition VcrAutoExecutor_execute (step : Auto) (working_dir : string)
    (w : VcrWorld) : Execution * VcrWorld :=
  match mode (cassette w) with
  | ModeReplay =>
      match consume_event (Some ClsAutoStepEvent) (cassette w) with
      | (Raise e, c) =>
          ({| yielded := []; ending := RaisedException (as_exception e) |},
           with_cassette c w)
      | (Ok (EvAutoStep recorded_event), c) =>
          let w := with_cassette c w in
          let expected_inputs := AutoStepInputs_from_step step in
          if negb (inputs_eq (step_inputs recorded_event) expected_inputs) then
            ({| yielded := [];
                ending := RaisedException
                  (mkException (inputs_mismatch expected_inputs
                                  (step_inputs recorded_event))) |}, w)
          else if negb (bool_decide (working_dir = step_working_dir recorded_event)) then
            ({| yielded := [];
                ending := RaisedException
                  (mkException (working_dir_mismatch
                                  (step_working_dir recorded_event) working_dir)) |}, w)
          else
            ({| yielded := [reconstruct_auto_step_result recorded_event];
                ending := Exhausted |}, w)
      | (Ok _, c) =>
          ({| yielded := [];
              ending := RaisedException (as_exception (AttributeError "inputs")) |},
           with_cassette c w)
      end
  | ModeRecord =>
      let '(run, m) := inner_execute step working_dir (machine w) in
      let w := {| cassette := cassette w; file := file w; machine := m |} in
      match inner_ending run with
      | InnerScriptExecutionError exc =>
          ({| yielded := inner_yielded run; ending := RaisedException exc |}, w)
      | ending =>
          let caught :=
            match ending with
            | InnerAutoExecutionError exc output => [raised_result step exc output]
            | InnerException exc => [raised_result step exc ""]
            | _ => []
            end in
          let events := inner_yielded run ++ caught in
          match last events with
          | None => ({| yielded := events; ending := Exhausted |}, w)
          | Some final_result =>
              match record_and_save
                      (EvAutoStep (build_recorded_auto_step_event step final_result
                                     working_dir)) w with
              | (Raise e, w) =>
                  ({| yielded := events;
                      ending := RaisedException (as_exception e) |}, w)
              | (Ok _, w) => ({| yielded := events; ending := Exhausted |}, w)
              end
          end
      end
  end.

(** The executor's surroundings when its auto executor is a
    [VcrAutoExecutor]. *)
Definition vcr_host : Host := {|
  World := VcrWorld;
  execute := VcrAutoExecutor_execute;
  load_script := fun name request w => scripts name request (machine w);
  read_nl_prompt := fun target arguments w => nl_prompt target arguments (machine w);
  repr := repr_value |}.

End Vcr.

(** The real executor as the one that is wrapped, for a loader and a
    reader of sources. *)
Definition real_surroundings `{P : Processes}
    (scripts : string -> string -> Computer -> LoadedScript)
    (nl_prompt : ResolvedTarget -> string -> Computer -> string) : Surroundings := {|
  Machine := Computer;
  inner_execute := RealAutoExecutor_execute;
  scripts := scripts;
  nl_prompt := nl_prompt |}.

End VcrAuto.

(** * Recording and replaying the tool calls ([mekara/vcr/mcp_server.py],
      [tests/vcr_test_driver.py]) *)

Module VcrServer.
Import Cassette Runtime Executor FromDict CassetteFile VcrAuto.

Section Vcr.
Context `{S : Surroundings} `{R : Repr} `{E : YamlEmitter}.

#[local] Existing Instance vcr_host.

(** The server object: the inner [MekaraServer]'s executor, and the world
    with the cassette it shares with the [VcrAutoExecutor]. *)
Definition VcrState : Type := McpScriptExecutor * VcrWorld.

Definition output_mismatch (method expected got : string) : string :=
  "VCR replay error: " +:+ method +:+ "() output mismatch." +:+ NL
  +:+ "Expected: " +:+ repr_value (PyStr expected) +:+ NL
  +:+ "Got: " +:+ repr_value (PyStr got) +:+ NL
  +:+ "Re-record the cassette if outputs have changed.".

(** [VcrMekaraServer(cassette, working_dir)]. *)
Definition VcrMekaraServer_init (c : VCRCassette) (working_dir : option string)
    (f : File) (m : Machine) : Res VcrState :=
  let w := {| cassette := c; file := f; machine := m |} in
  match mode c with
  | ModeRecord =>
      match working_dir with
      | None => Raise (ValueError "Record mode requires working_dir")
      | Some working_dir => Ok (new_executor working_dir, w)
      end
  | ModeReplay =>
      match get_working_dir c with
      | Raise e => Raise e
      | Ok replay_working_dir => Ok (new_executor replay_working_dir, w)
      end
  end.

(** What the four methods share: in record mode the input event is
    recorded, the inner server is called, its response is recorded and the
    cassette saved; in replay mode the inner server is called and its
    response compared with the next recorded output. *)
Definition recorded_call (method : string) (input : VcrEvent)
    (inner : VcrState -> Outcome string * VcrState) (s : VcrState)
  : Outcome string * VcrState :=
  let '(x, w) := s in
  match mode (cassette w) with
  | ModeRecord =>
      match record_event input (cassette w) with
      | (Raise e, c) => (Raised e, (x, with_cassette c w))
      | (Ok _, c) =>
          match inner (x, with_cassette c w) with
          | (Returned response, (x, w)) =>
              match record_and_save
                      (EvToolOutput {| out_tool := method; out_output := response |})
                      w with
              | (Raise e, w) => (Raised e, (x, w))
              | (Ok _, w) => (Returned response, (x, w))
              end
          | other => other
          end
      end
  | ModeReplay =>
      match inner s with
      | (Returned response, (x, w)) =>
          match consume_event (Some ClsMcpToolOutputEvent) (cassette w) with
          | (Raise e, c) => (Raised e, (x, with_cassette c w))
          | (Ok (EvToolOutput output_event), c) =>
              if negb (bool_decide (response = out_output output_event)) then
                (Raised (ValueError (output_mismatch method
                                       (out_output output_event) response)),
                 (x, with_cassette c w))
              else (Returned response, (x, with_cassette c w))
          | (Ok _, c) => (Raised (AttributeError "output"), (x, with_cassette c w))
          end
      | other => other
      end
  end.

(** [VcrMekaraServer.start], [continue_compiled_script], [status],
    [finish_nl_script]. *)
Definition start (fuel : nat) (name arguments : string)
    (working_dir : option string) : VcrState -> Outcome string * VcrState :=
  recorded_call "start"
    (EvStart {| start_name := name; start_arguments := arguments;
                start_working_dir := working_dir |})
    (Server.start fuel name arguments working_dir).

Definition continue_compiled_script (fuel : nat) (outputs : PyDictOf PyValue)
  : VcrState -> Outcome string * VcrState :=
  recorded_call "continue_compiled_script"
    (EvContinue {| continue_outputs := outputs |})
    (Server.continue_compiled_script fuel outputs).

Definition status : VcrState -> Outcome string * VcrState :=
  recorded_call "status" EvStatus
    (fun s =>
       match Server.status s.2 s.1 with
       | (Ok response, x) => (Returned response, (x, s.2))
       | (Raise e, x) => (Raised e, (x, s.2))
       end).

Definition finish_nl_script (fuel : nat) : VcrState -> Outcome string * VcrState :=
  recorded_call "finish_nl_script" EvFinishNLScript (Server.finish_nl_script fuel).

(** ** [MekaraServerTestDriver] *)

(** [MekaraServerTestDriver(cassette)]. *)
Definition MekaraServerTestDriver_init (c : VCRCassette) (f : File) (m : Machine)
  : Res VcrState :=
  if bool_decide (mode c <> ModeReplay)
  then Raise (ValueError "MekaraServerTestDriver requires replay mode cassette")
  else VcrMekaraServer_init c None f m.

(** The call an input event stands for. *)
Definition replayed (fuel : nat) (event : VcrEvent)
  : option (VcrState -> Outcome string * VcrState) :=
  match event with
  | EvStart e =>
      Some (start fuel (start_name e) (start_arguments e) (start_working_dir e))
  | EvContinue e => Some (continue_compiled_script fuel (continue_outputs e))
  | EvFinishNLScript => Some (finish_nl_script fuel)
  | EvStatus => Some status
  | _ => None
  end.

(** [run()]: the loop [while self._cassette.has_remaining_events()], for at
    most [turns] turns; [fuel] bounds the executor's loop in each call. *)
Fixpoint run (turns fuel : nat) (s : VcrState) : Outcome unit * VcrState :=
  let '(x, w) := s in
  match has_remaining_events (cassette w) with
  | (Raise e, c) => (Raised e, (x, with_cassette c w))
  | (Ok false, c) => (Returned tt, (x, with_cassette c w))
  | (Ok true, c) =>
      match turns with
      | 0 => (OutOfFuel, (x, with_cassette c w))
      | Datatypes.S turns =>
          match consume_event None c with
          | (Raise e, c) => (Raised e, (x, with_cassette c w))
          | (Ok event, c) =>
              match replayed fuel event with
              | None =>
                  (Raised (ValueError ("Unexpected event type: "
                                       +:+ class_name (type_of event))),
                   (x, with_cassette c w))
              | Some method =>
                  match method (x, with_cassette c w) with
                  | (Returned _, s) => run turns fuel s
                  | (Raised e, s) => (Raised e, s)
                  | (OutOfFuel, s) => (OutOfFuel, s)
                  end
              end
          end
      end
  end.

(** ** A recording session *)

(** The calls a client makes. *)
Inductive ToolCall : Type :=
  | ToolStart (name arguments : string) (working_dir : option string)
  | ToolContinue (outputs : PyDictOf PyValue)
  | ToolFinish
  | ToolStatus.

Definition tool (fuel : nat) (c : ToolCall) : VcrState -> Outcome string * VcrState :=
  match c with
  | ToolStart name arguments working_dir => start fuel name arguments working_dir
  | ToolContinue outputs => continue_compiled_script fuel outputs
  | ToolFinish => finish_nl_script fuel
  | ToolStatus => status
  end.

(** The calls made one after the other, as long as they return: the
    responses so far, and the state where the session ends or stops. *)
Fixpoint tools (fuel : nat) (cs : list ToolCall) (s : VcrState)
  : Outcome (list string) * VcrState :=
  match cs with
  | [] => (Returned [], s)
  | c :: cs =>
      match tool fuel c s with
      | (Returned response, s) =>
          match tools fuel cs s with
          | (Returned responses, s) => (Returned (response :: responses), s)
          | other => other
          end
      | (Raised e, s) => (Raised e, s)
      | (OutOfFuel, s) => (OutOfFuel, s)
      end
  end.

(** [run_server()] with [MEKARA_VCR_CASSETTE] set: a new cassette whose
    initial state is the working directory, and the recording server. *)
Definition recording_server (cassette_path working_dir : string) (f : File)
    (m : Machine) : Res VcrState :=
  VcrMekaraServer_init
    (new_record cassette_path [("working_dir", PyStr working_dir)])
    (Some working_dir) f m.

End Vcr.

End VcrServer.

(** * Vocabulary of the properties of recording and replay *)

Module VcrVocabulary.
Import Cassette Runtime Executor FromDict CassetteFile VcrAuto VcrServer.

Section WithHost.
Context `{H : Host}.

(** Two worlds in which the scripts and their sources are the same. *)
Definition same_sources (w w' : World) : Prop :=
  (forall name request, load_script name request w = load_script name request w')
  /\ (forall target arguments,
        read_nl_prompt target arguments w = read_nl_prompt target arguments w').

(** The auto step the next pass of the loop executes, if it executes one:
    the step, the frame with the step pulled, the frames below. *)
Definition next_auto (x : McpScriptExecutor)
  : option (Auto * CompiledScriptFrame * list ExecutionFrame) :=
  match stack x with
  | Compiled frame :: rest =>
      match exception frame with
      | Some _ => None
      | None =>
          match current_step frame with
          | (Some (SAuto step), frame) => Some (step, frame, rest)
          | _ => None
          end
      end
  | _ => None
  end.

(** How the pass goes on once the auto step has been executed. *)
Definition after_auto (o : AutoStepOutcome) (w : World) (step : Auto)
    (frame : CompiledScriptFrame) (rest : list ExecutionFrame)
    (x : McpScriptExecutor) : Flow * (McpScriptExecutor * World) :=
  match o with
  | AutoExecutionError exc output =>
      let auto_exception :=
        {| ae_success := false; ae_exception := exc;
           ae_step_description := Auto_description repr step;
           ae_output := output |} in
      let '(fl, x) := fault w frame rest step auto_exception x in (fl, (x, w))
  | AutoAssertionError => (Raises AssertionError, (x, w))
  | AutoReturned (RException result) =>
      let '(fl, x) := fault w frame rest step result x in (fl, (x, w))
  | AutoReturned (RShell r) =>
      let '(fl, x) :=
        finish_auto w frame rest step (RShell r) (shell_error_detail r) x in
      (fl, (x, w))
  | AutoReturned (RCall r) =>
      let '(fl, x) :=
        finish_auto w frame rest step (RCall r) (call_error_detail r) x in
      (fl, (x, w))
  end.

(** The response made of the outcome of the loop. *)
Definition response_of (o : Outcome RunResult) : Outcome string :=
  match o with
  | Returned result =>
      match Server._handle_run_result result with
      | Ok response => Returned response
      | Raise e => Raised e
      end
  | Raised e => Raised e
  | OutOfFuel => OutOfFuel
  end.

(** An operation of the server that reads the world through the sources
    only, except that it may end by running the loop: either it leaves the
    world alone, or it goes on as [run_until_llm] from some executor. *)
Definition ends_in_the_loop (fuel : nat)
    (op : McpScriptExecutor * World -> Outcome string * (McpScriptExecutor * World))
  : Prop :=
  forall x w w',
    same_sources w w' ->
    (exists o x', op (x, w) = (o, (x', w)) /\ op (x, w') = (o, (x', w')))
    \/ (exists x1, op (x, w) = Server.respond (run_until_llm fuel (x1, w))
                   /\ op (x, w') = Server.respond (run_until_llm fuel (x1, w'))).

(** [status()] as an operation on the server. *)
Definition status_op (s : McpScriptExecutor * World)
  : Outcome string * (McpScriptExecutor * World) :=
  match Server.status s.2 s.1 with
  | (Ok response, x) => (Returned response, (x, s.2))
  | (Raise e, x) => (Raised e, (x, s.2))
  end.

End WithHost.

Section Vcr.
Context `{S : Surroundings} `{R : Repr} `{E : YamlEmitter}.

(** The scripts and their sources do not depend on what the auto steps do
    to the machine. *)
Definition stable_sources : Prop :=
  (forall name request m m', scripts name request m = scripts name request m')
  /\ (forall target arguments m m',
        nl_prompt target arguments m = nl_prompt target arguments m').

(** A run of the inner executor that ends with a result or with an
    exception of the step: it yields at least one result, or raises
    something other than a [ScriptExecutionError]. *)
Definition ends_with_result (run : InnerExecution) : Prop :=
  match inner_ending run with
  | InnerExhausted => inner_yielded run <> []
  | InnerScriptExecutionError _ => False
  | _ => True
  end.

(** The result such a run ends with. *)
Definition final_of (step : Auto) (run : InnerExecution) : option AutoResult :=
  match inner_ending run with
  | InnerExhausted => last (inner_yielded run)
  | InnerAutoExecutionError exc output => Some (raised_result step exc output)
  | InnerException exc => Some (raised_result step exc "")
  | InnerScriptExecutionError _ => None
  end.

Definition inner_ends_with_result : Prop :=
  forall step working_dir m,
    ends_with_result (inner_execute step working_dir m).1.

(** The events a world's cassette holds. *)
Definition taped (w : VcrWorld) : list VcrEvent := _events (cassette w).

(** The replaying world [w'] is where the recording world [w] is on the
    tape: what [w] has recorded so far is the part of the tape that [w']
    has consumed. *)
Definition follows (tape : list VcrEvent) (w w' : VcrWorld) : Prop :=
  mode (cassette w) = ModeRecord
  /\ mode (cassette w') = ModeReplay
  /\ _events (cassette w') = tape
  /\ _events (cassette w) `prefix_of` tape
  /\ _replay_event_index (cassette w') = length (_events (cassette w)).

(** An operation on the server that, while recording, only adds to the
    tape. *)
Definition grows {B} (op : VcrState -> B * VcrState) : Prop :=
  forall x w,
    mode (cassette w) = ModeRecord ->
    mode (cassette (op (x, w)).2.2) = ModeRecord
    /\ taped w `prefix_of` taped (op (x, w)).2.2.

(** An operation that replays as it was recorded: from a replaying world
    that follows the recording one, it ends the same way with the same
    executor, consuming what the recording added to the tape and touching
    neither the machine nor the file. *)
Definition replays {B} (tape : list VcrEvent) (op : VcrState -> B * VcrState)
  : Prop :=
  forall x w w',
    follows tape w w' ->
    taped (op (x, w)).2.2 `prefix_of` tape ->
    exists w2,
      op (x, w') = ((op (x, w)).1, ((op (x, w)).2.1, w2))
      /\ follows tape (op (x, w)).2.2 w2
      /\ machine w2 = machine w' /\ file w2 = file w'.

(** The input event a call is recorded as. *)
Definition input_of (c : ToolCall) : VcrEvent :=
  match c with
  | ToolStart name arguments working_dir =>
      EvStart {| start_name := name; start_arguments := arguments;
                 start_working_dir := working_dir |}
  | ToolContinue outputs => EvContinue {| continue_outputs := outputs |}
  | ToolFinish => EvFinishNLScript
  | ToolStatus => EvStatus
  end.

End Vcr.

End VcrVocabulary.

(** * A recording studio for the example scripts

    The example scripts of [Scenarios] behind a [VcrMekaraServer]: a
    machine whose commands and functions have fixed results, the block
    emitter for the cassette file. *)

Module VcrScenarios.
Import Cassette Runtime Executor FromDict CassetteFile VcrAuto VcrServer.
Import Scenarios.

(** The machine: the commands and functions run so far, latest last. *)
Definition test_processes : Processes := {|
  Computer := list string;
  subprocess := fun cmd working_dir m =>
    (inr (if bool_decide (cmd = "false")
          then (Some 1%Z, "", "")
          else (Some 0%Z, "ok" +:+ NL, "")), m ++ [cmd]);
  call_func := fun func kw working_dir m =>
    if bool_decide (func = "explode")
    then (inl (mkException "boom"), "", "", m ++ [func])
    else (inr PyNone, "", "", m ++ [func]) |}.

Definition test_surroundings : Surroundings :=
  real_surroundings (P := test_processes)
    test_load_script
    (fun target _ _ => "# Mock NL source for " +:+ target_name target).

Definition test_reprs : Repr := {|
  repr_value := test_repr;
  repr_keys := fun ks => "{" +:+ join ", " (map (fun k => "'" +:+ k +:+ "'") ks) +:+ "}";
  repr_inputs := fun i =>
    "AutoStepInputs(action_type='" +:+ Cassette.action_type i
    +:+ "', action='" +:+ Cassette.action i +:+ "', ...)" |}.

Definition studio_state : Type :=
  VcrState (S := test_surroundings).

(** A new recording server in [/work]. *)
Definition studio : studio_state :=
  (new_executor "/work",
   @Build_VcrWorld test_surroundings
     (new_record "cassette.yaml" [("working_dir", PyStr "/work")])
     None ([] : list string)).

(** [wrapper] is started: its helper's auto step runs, then its llm step
    is answered. *)
Definition wrapper_session : list ToolCall :=
  [ToolStart "wrapper" "" None; ToolStatus; ToolContinue []].

Definition wrapper_recording
  : Outcome (list string) * studio_state :=
  tools (S := test_surroundings) (R := test_reprs) (E := BlockYaml.emitter)
    10 wrapper_session studio.

(** The frame of [helper] as it is pushed, and its auto step. *)
Definition helper_frame : CompiledScriptFrame :=
  {| c_script_name := "helper"; c_working_dir := "/work";
     c_resolved_target := mock_target "helper" true; c_arguments := "";
     generator := GenCreated script_with_auto_only; _step_index := 0;
     _current_step := None; has_shown_nl_source := false; exception := None |}.

Definition greet : Auto := {| action := ShellAction "echo hello"; context := "Greet" |}.

(** A replaying world over a tape. *)
Definition replaying_world (tape : list VcrEvent) : VcrWorld (S := test_surroundings) :=
  @Build_VcrWorld test_surroundings
    (loaded "cassette.yaml" [("working_dir", PyStr "/work")] tape)
    None ([] : list string).

(** [greet] as it was recorded in another directory. *)
Definition greeted_elsewhere : VcrEvent :=
  EvAutoStep
    (build_recorded_auto_step_event greet
       (RShell {| sh_success := true; sh_exit_code := 0; sh_output := "ok" |})
       "/elsewhere").

(** The record of an auto step as older cassettes hold it, with its
    [index]. *)
Definition old_record : PyValue :=
  PyDict [("type", PyStr "auto_step"); ("index", PyInt 0);
          ("working_dir", PyStr "/work");
          ("inputs", PyDict [("action_type", PyStr "shell");
                             ("action", PyStr "echo hello")]);
          ("result", PyDict [("type", PyStr "shell"); ("success", PyBool true);
                             ("exit_code", PyInt 0)])].

Definition old_record_read : VcrEvent :=
  EvAutoStep
    {| step_working_dir := "/work";
       step_inputs := {| Cassette.action_type := "shell";
                         Cassette.action := "echo hello";
                         Cassette.context := None; kwargs := None |};
       step_result := ResShell {| shell_success := true; shell_exit_code := 0;
                                  shell_output := "" |} |}.

(** A document whose [working_dir] is null. *)
Definition null_dir_document : PyValue :=
  document [("working_dir", PyNone)] [].

(** An inner server that answers whatever it is asked. *)
Definition answering (response : string) (s : studio_state)
  : Outcome string * studio_state :=
  (Returned response, s).


End VcrScenarios.


(** * Properties of the cassette *)

Module CassetteProps.
Import Cassette.




(** ** Replay *)

Ltac run_eff :=
  unfold consume_event, replay_position, has_remaining_events, record_event,
    bind, gets, modify, raise, ret; simpl.

(** C9.  [consume_event] works in replay mode only and reads strictly in
    sequence: a call that succeeds returns the event under the cursor and
    moves the cursor forward by exactly one, touching nothing else; the call
    raises a [ValueError] in record mode, when the cursor has passed the
    last event, and when an expected class is given that the event under the
    cursor is not an instance of.  The four cases are exhaustive, so no call
    returns silently where it should fail. *)
Theorem consume_event_sequential (c : VCRCassette) (event_type : option EventClass) :
  (mode c = ModeRecord ->
   exists msg, (consume_event event_type c).1 = Raise (ValueError msg))
  /\ (mode c = ModeReplay ->
      length (_events c) <= _replay_event_index c ->
      exists msg, (consume_event event_type c).1 = Raise (ValueError msg))
  /\ (forall event cls,
        mode c = ModeReplay ->
        _events c !! _replay_event_index c = Some event ->
        event_type = Some cls ->
        isinstance event cls = false ->
        exists msg, (consume_event event_type c).1 = Raise (ValueError msg))
  /\ (forall event,
        mode c = ModeReplay ->
        _events c !! _replay_event_index c = Some event ->
        (forall cls, event_type = Some cls -> isinstance event cls = true) ->
        consume_event event_type c
        = (Ok event, set_replay_event_index (fun n => n + 1) c)
        /\ _replay_event_index (consume_event event_type c).2
           = _replay_event_index c + 1
        /\ _events (consume_event event_type c).2 = _events c).
Proof.
  split; [|split; [|split]].
  - intros Hm. run_eff. rewrite Hm. simpl. eauto.
  - intros Hm Hlen. run_eff. rewrite Hm. simpl.
    rewrite bool_decide_eq_true_2 by done. eauto.
  - intros event cls Hm Hev -> Hinst. run_eff. rewrite Hm. simpl.
    apply lookup_lt_Some in Hev as Hlt.
    rewrite bool_decide_eq_false_2 by lia. rewrite Hev, Hinst. simpl. eauto.
  - intros event Hm Hev Hcls.
    assert (consume_event event_type c
            = (Ok event, set_replay_event_index (fun n => n + 1) c)) as ->.
    { run_eff. rewrite Hm. simpl. apply lookup_lt_Some in Hev as Hlt.
      rewrite bool_decide_eq_false_2 by lia. rewrite Hev.
      destruct event_type as [cls|]; [rewrite (Hcls cls eq_refl)|]; done. }
    done.
Qed.

(** Reading on: after a successful call the next call looks one event
    further. *)
Lemma consume_event_next (c : VCRCassette) (t1 t2 : option EventClass)
    (event : VcrEvent) (c' : VCRCassette) :
  consume_event t1 c = (Ok event, c') ->
  _events c !! _replay_event_index c = Some event
  /\ (forall event', consume_event t2 c' = (Ok event', (consume_event t2 c').2) ->
      _events c !! (_replay_event_index c + 1) = Some event').
Proof.
  run_eff. destruct (mode c) eqn:Hm; simpl; [done|].
  case_bool_decide as Hlen; [done|].
  destruct (_events c !! _replay_event_index c) as [ev|] eqn:Hev; [|done].
  assert (forall c0, (Ok ev, c0) = (Ok event, c') -> c0 = c' /\ ev = event)
    as Hinj by (intros ? [= -> ->]; done).
  intros Hc.
  assert (c' = set_replay_event_index (fun n => n + 1) c /\ ev = event) as [-> ->].
  { destruct t1 as [cls|]; [destruct (isinstance ev cls)|]; simpl in Hc;
      try done; by apply Hinj in Hc as [<- <-]. }
  split; [done|]. intros event'. simpl. rewrite Hm. simpl.
  case_bool_decide; [done|].
  destruct (_events c !! (_replay_event_index c + 1)) as [ev'|]; [|done].
  destruct t2 as [cls|]; [destruct (isinstance ev' cls)|]; simpl;
    intros [= ->]; done.
Qed.

(** C10.  A [consume_event] that raises consumes nothing: the cassette,
    and with it the replay cursor, is as before the call, so the next call
    sees the same event. *)
Theorem consume_event_failure_keeps_cursor (c c' : VCRCassette)
    (event_type : option EventClass) (err : PyError) :
  consume_event event_type c = (Raise err, c') ->
  c' = c
  /\ replay_position c' = replay_position c
  /\ forall event_type', consume_event event_type' c' = consume_event event_type' c.
Proof.
  intros Hc. assert (c' = c) as ->; [|done].
  revert Hc. run_eff. destruct (mode c); simpl; [by intros [= _ <-]|].
  case_bool_decide; [by intros [= _ <-]|].
  destruct (_events c !! _replay_event_index c) as [ev|]; [|by intros [= _ <-]].
  destruct event_type as [cls|]; [destruct (isinstance ev cls)|]; simpl;
    intros [= ]; done.
Qed.

(** ** Saving *)

Section Saving.
Context `{E : YamlEmitter}.















End Saving.








(** ** The replay properties on a recorded cassette *)

(** The first event of [BlockYaml.replaying] is read when a start input is
    expected. *)
Lemma consume_event_sequential_witness :
  consume_event (Some ClsMcpStartInputEvent) BlockYaml.replaying
  = (Ok BlockYaml.ev_start,
     set_replay_event_index (fun n => n + 1) BlockYaml.replaying).
Proof.
  destruct (consume_event_sequential BlockYaml.replaying
              (Some ClsMcpStartInputEvent)) as (_ & _ & _ & Hok).
  destruct (Hok BlockYaml.ev_start eq_refl eq_refl) as [Heq _].
  - by intros cls [= <-].
  - exact Heq.
Defined.

(** Expecting an auto step where a start input was recorded raises and
    leaves the cassette where it was. *)
Lemma consume_event_failure_keeps_cursor_witness :
  consume_event (Some ClsAutoStepEvent) BlockYaml.replaying
  = (Raise (ValueError
       "VCR replay event mismatch. Expected AutoStepEvent, got McpStartInputEvent."),
     BlockYaml.replaying)
  /\ replay_position BlockYaml.replaying = replay_position BlockYaml.replaying.
Proof.
  split; [reflexivity|].
  exact (proj1 (proj2 (consume_event_failure_keeps_cursor
                         BlockYaml.replaying BlockYaml.replaying
                         (Some ClsAutoStepEvent) _ eq_refl))).
Defined.

End CassetteProps.

(** * Properties of the executor *)

Module ExecutorProps.
Import Runtime Executor Server Vocabulary.

Section WithHost.
Context `{H : Host}.

(** ** Frames and generators *)

Lemma gen_next_exhausted (g g' : Generator) :
  gen_next g = (None, g') -> g' = GenClosed.
Proof.
  destruct g as [body|k|]; simpl.
  - destruct body; simpl; by intros [= <-].
  - destruct (k None); simpl; by intros [= <-].
  - by intros [= <-].
Qed.

Lemma current_step_cached (f : CompiledScriptFrame) (s : Step) :
  _current_step f = Some s -> current_step f = (Some s, f).
Proof. intros Hs. unfold current_step. by rewrite Hs. Qed.

(** Reading [current_step] a second time finds what the first read left. *)
Lemma current_step_again (f : CompiledScriptFrame) :
  current_step (pulled f) = ((current_step f).1, pulled f).
Proof.
  destruct f as [sn wd tgt args g idx [s|] shown exc];
    unfold pulled, current_step; simpl; [done|].
  destruct g as [[|s k]|k|]; simpl; try done.
  destruct (k None) as [|s k'] eqn:Hk; simpl; done.
Qed.

Lemma pulled_step_index (f : CompiledScriptFrame) :
  _step_index (pulled f) = _step_index f.
Proof.
  unfold pulled, current_step.
  destruct (_current_step f); [done|].
  by destruct (gen_next (generator f)) as [[s|] g].
Qed.

Lemma pulled_exception (f : CompiledScriptFrame) :
  exception (pulled f) = exception f.
Proof.
  unfold pulled, current_step.
  destruct (_current_step f); [done|].
  by destruct (gen_next (generator f)) as [[s|] g].
Qed.

(** ** The pending derivation *)

(** What one derivation does to the executor, and what a second one
    finds. *)
Lemma pending_settles (w : World) (x : McpScriptExecutor) :
  let r1 := pending w x in
  let r2 := pending w r1.2 in
  top_lazily_filled x r1.2
  /\ r2.2 = r1.2
  /\ r2.1 = without_source r1.1
  /\ pending w r2.2 = r2.
Proof.
  destruct x as [wdir [|[top|top] rest] recent];
    [by unfold top_lazily_filled| |by unfold top_lazily_filled].
  destruct top as [sn wd tgt args g idx cs shown exc].
  unfold top_lazily_filled, lazily_filled, pulled, pending, current_step.
  destruct exc as [exc|]; [destruct shown; simpl; eauto 12|].
  destruct cs as [[a|l|c]|];
    [simpl; eauto 12|destruct shown; simpl; eauto 12|simpl; eauto 12|].
  destruct g as [[|s k]|k|]; simpl; [eauto 12| |destruct (k None) as [|s k']|eauto 12];
    simpl; [|eauto 12|];
    (destruct s as [a|l|c]; [|destruct shown|]; simpl; eauto 12).
Qed.

(** Filling in the lazy fields leaves the frame where it is in its script. *)
Lemma lazily_filled_position (g g' : CompiledScriptFrame) :
  lazily_filled g g' ->
  _step_index g' = _step_index g
  /\ exception g' = exception g
  /\ (current_step g').1 = (current_step g).1.
Proof.
  pose proof (pulled_step_index g) as Hi.
  pose proof (pulled_exception g) as He.
  pose proof (current_step_again g) as Hc.
  assert (forall h, (current_step (with_has_shown_nl_source true h)).1
                    = (current_step h).1) as Hflag.
  { intros h. unfold current_step. simpl.
    destruct (_current_step h); [done|].
    by destruct (gen_next (generator h)) as [[s|] gen]. }
  intros [->|[->|[->| ->]]].
  - done.
  - by rewrite Hc.
  - by rewrite Hflag.
  - rewrite Hflag, Hc. done.
Qed.

(** C1, as the code has it.  Deriving [pending] may fill in two fields of
    the top frame and changes nothing else: it may pull the first step from
    the generator and cache it, and it sets [has_shown_nl_source] when it
    shows the source.  The depth of the stack, the frames under the top and
    the top frame's step index, exception and current step are as before.
    A second derivation leaves the executor exactly as the first left it and
    returns the value of the first without the one-time source text
    ([context], [nl_source]); from the second derivation on, deriving again
    returns the identical value and changes nothing. *)
Theorem pending_idempotent_after_first (w : World) (x : McpScriptExecutor) :
  let r1 := pending w x in
  let r2 := pending w r1.2 in
  let r3 := pending w r2.2 in
  top_lazily_filled x r1.2
  /\ length (stack r1.2) = length (stack x)
  /\ (forall g g' rest rest',
        stack x = Compiled g :: rest -> stack r1.2 = Compiled g' :: rest' ->
        rest' = rest
        /\ _step_index g' = _step_index g
        /\ exception g' = exception g
        /\ (current_step g').1 = (current_step g).1)
  /\ r2.2 = r1.2
  /\ r2.1 = without_source r1.1
  /\ r3 = r2.
Proof.
  intros r1 r2 r3.
  destruct (pending_settles w x) as (Hlazy & Hstate & Hvalue & Hagain).
  fold r1 in Hlazy, Hstate, Hvalue, Hagain. fold r2 in Hstate, Hvalue, Hagain.
  split; [done|]. split; [|split; [|done]].
  - destruct Hlazy as (_ & _ & Hs). destruct (stack x) as [|[top|top] rest].
    + by rewrite Hs.
    + destruct Hs as (g' & -> & _). done.
    + by rewrite Hs.
  - intros g g' rest rest' Hx Hx1. destruct Hlazy as (_ & _ & Hs).
    rewrite Hx in Hs. destruct Hs as (g'' & Hs & Hfilled).
    rewrite Hx1 in Hs. injection Hs as -> ->. split; [done|].
    by apply lazily_filled_position.
Qed.

(** The stack is empty exactly when there is no frame to derive from. *)
Lemma pending_empty_stack (w : World) (x : McpScriptExecutor) :
  stack x = [] -> (pending w x).1 = None.
Proof. intros Hs. unfold pending. by rewrite Hs. Qed.

Lemma pending_some_stack (w : World) (x : McpScriptExecutor) (p : Pending) :
  (pending w x).1 = Some p -> stack (pending w x).2 <> [].
Proof.
  pose proof (pending_settles w x) as [(_ & _ & Hst) _]. intros Hp.
  destruct (stack x) as [|[top|top] rest] eqn:Hx.
  - by rewrite pending_empty_stack in Hp.
  - destruct Hst as (f' & -> & _). done.
  - by rewrite Hst.
Qed.

(** C3, as the code has it.  [status] always returns a text, and what it
    does to the executor is what deriving [pending] does: it may start the
    top frame's generator to cache its first step and may set
    [has_shown_nl_source]; the depth of the stack, the frames under the top,
    and the top frame's step index, exception and current step are as
    before.  A second call of [status] changes nothing at all. *)
Theorem status_fills_lazy_fields (w : World) (x : McpScriptExecutor) :
  (exists text, (status w x).1 = Ok text)
  /\ (status w x).2 = (pending w x).2
  /\ top_lazily_filled x (status w x).2
  /\ length (stack (status w x).2) = length (stack x)
  /\ (forall g g' rest rest',
        stack x = Compiled g :: rest ->
        stack (status w x).2 = Compiled g' :: rest' ->
        rest' = rest
        /\ _step_index g' = _step_index g
        /\ exception g' = exception g
        /\ (current_step g').1 = (current_step g).1)
  /\ (status w (status w x).2).2 = (status w x).2.
Proof.
  pose proof (pending_settles w x) as (Hlazy & Hst & Hval & Hfix).
  assert ((exists text, (status w x).1 = Ok text)
          /\ (status w x).2 = (pending w x).2) as [Htext Hstate].
  { unfold status. destruct (pending w x) as [p x1]. simpl in *.
    destruct (pending w x1) as [p2 x2]. simpl in *. subst x2.
    destruct p as [p|]; simpl in *; [subst p2|].
    - destruct p; simpl; eauto.
    - destruct (stack x1); simpl; eauto. }
  split; [done|]. split; [done|]. rewrite Hstate. split; [done|].
  split; [|split].
  - destruct Hlazy as (_ & _ & Hs). destruct (stack x) as [|[top|top] rest].
    + by rewrite Hs.
    + destruct Hs as (f' & -> & _). done.
    + by rewrite Hs.
  - intros g g' rest rest' Hx Hx1. destruct Hlazy as (_ & _ & Hs).
    rewrite Hx in Hs. destruct Hs as (g'' & Hs & Hfilled).
    rewrite Hx1 in Hs. injection Hs as -> ->. split; [done|].
    by apply lazily_filled_position.
  - unfold status. destruct (pending w x) as [p x1]. simpl in *.
    destruct (pending w x1) as [p2 x2] eqn:Hp2. simpl in *. subst x2.
    destruct p2 as [p2|]; [rewrite Hfix|]; simpl; [by destruct p2|].
    by destruct (stack x1).
Qed.

(** ** Where the loop returns *)

Lemma return_pending_returns (w : World) (x : McpScriptExecutor) (p : Pending) :
  (pending w x).1 = Some p ->
  returns_pending (return_pending w x).1 (return_pending w x).2.
Proof.
  intros Hp. pose proof (pending_some_stack w x p Hp) as Hne.
  unfold return_pending. destruct (pending w x) as [q x1]. simpl in *. subst q.
  intros r [= <-]. simpl. eauto.
Qed.

Lemma return_pending_asserting_returns (expected : option Pending -> bool)
    (w : World) (x : McpScriptExecutor) :
  returns_pending (return_pending_asserting expected w x).1
    (return_pending_asserting expected w x).2.
Proof.
  unfold return_pending_asserting.
  pose proof (pending_settles w x) as (_ & Hst & Hval & Hfix).
  destruct (pending w x) as [[p1|] x1]; [|by intros r].
  cbn [fst snd] in Hst, Hval, Hfix.
  destruct (pending w x1) as [p2 x2]. cbn [fst snd] in Hst, Hval, Hfix.
  subst x2 p2. destruct (expected _); [|by intros r].
  destruct p1; eapply return_pending_returns; by rewrite Hfix.
Qed.

Lemma pending_fault_top (w : World) (x : McpScriptExecutor)
    (top : CompiledScriptFrame) (rest : list ExecutionFrame) (e : AutoException) :
  stack x = Compiled top :: rest -> exception top = Some e ->
  exists p, (pending w x).1 = Some p.
Proof. intros Hs He. unfold pending. rewrite Hs, He. simpl. eauto. Qed.

Lemma pending_nl_top (w : World) (x : McpScriptExecutor)
    (top : NLScriptFrame) (rest : list ExecutionFrame) :
  stack x = NLFrame top :: rest -> exists p, (pending w x).1 = Some p.
Proof. intros Hs. unfold pending. rewrite Hs. simpl. eauto. Qed.

Lemma loop_body_returns (s : McpScriptExecutor * World) :
  returns_pending (loop_body s).1 (loop_body s).2.1.
Proof.
  destruct s as [x w]. unfold loop_body.
  destruct (stack x) as [|[top|top] rest] eqn:Hs; [by intros r| |].
  2:{ destruct (pending_nl_top w x top rest Hs) as [p Hp].
      pose proof (return_pending_returns w x p Hp).
      by destruct (return_pending w x). }
  destruct (exception top) as [exc|] eqn:Hexc.
  { destruct (pending_fault_top w x top rest exc Hs Hexc) as [p Hp].
    pose proof (return_pending_returns w x p Hp).
    by destruct (return_pending w x). }
  destruct (current_step top) as [step top1].
  set (x1 := with_stack (Compiled top1 :: rest) x).
  destruct step as [[step|l|call]|].
  - assert (forall w exc y, returns_pending (fault w top1 rest step exc y).1
                                            (fault w top1 rest step exc y).2)
      as Hfault.
    { intros w0 e y. unfold fault.
      match goal with |- context [return_pending w0 ?z] =>
        destruct (pending_fault_top w0 z (with_exception (Some e) top1) rest e
                    eq_refl eq_refl) as [p Hp];
        exact (return_pending_returns w0 z p Hp) end. }
    assert (forall w r d, returns_pending (finish_auto w top1 rest step r d x1).1
                                          (finish_auto w top1 rest step r d x1).2)
      as Hfinish.
    { intros w0 r d. unfold finish_auto, soft_failure.
      destruct (auto_success r); simpl.
      - by destruct (_advance_frame _ _) as [[]]; intros r'.
      - apply return_pending_asserting_returns. }
    destruct (_execute_auto_step step top1 w) as [[[r|r|r]|e out|] w'].
    + specialize (Hfinish w' (RShell r) (shell_error_detail r)).
      by destruct (finish_auto _ _ _ _ _ _ _).
    + specialize (Hfinish w' (RCall r) (call_error_detail r)).
      by destruct (finish_auto _ _ _ _ _ _ _).
    + specialize (Hfault w' r x1). by destruct (fault _ _ _ _ _ _).
    + match goal with |- context [fault w' top1 rest step ?e x1] =>
        specialize (Hfault w' e x1) end.
      by destruct (fault _ _ _ _ _ _).
    + by intros r.
  - pose proof (return_pending_asserting_returns is_PendingLlmStep w x1).
    by destruct (return_pending_asserting _ _ _).
  - destruct (load_script (name call) (request call) w) as [body target|target|msg].
    + by intros r.
    + match goal with |- context [return_pending_asserting ?e w ?y] =>
        pose proof (return_pending_asserting_returns e w y) end.
      by destruct (return_pending_asserting _ _ _).
    + by destruct (_advance_frame _ _) as [[]]; intros r.
  - by destruct (_pop_frame x1) as [[]]; intros r.
Qed.

(** Wherever [run_until_llm] returns, its result has nothing pending
    exactly when the stack is empty. *)
Lemma run_until_llm_pending_iff_empty (fuel : nat)
    (s s' : McpScriptExecutor * World) (r : RunResult) :
  run_until_llm fuel s = (Returned r, s') ->
  (rr_pending r = None <-> stack s'.1 = []).
Proof.
  revert s. induction fuel as [|fuel IH]; intros [x w]; cbn [run_until_llm fst snd].
  - destruct (stack x) as [|a rest] eqn:Hx; [|done].
    intros [= <- <-]. simpl. by rewrite Hx.
  - destruct (stack x) as [|a rest] eqn:Hx;
      [intros [= <- <-]; simpl; by rewrite Hx|].
    pose proof (loop_body_returns (x, w)) as Hret.
    destruct (loop_body (x, w)) as [[|r'|err] s1]; [apply IH| |done].
    intros [= -> ->]. destruct (Hret r eq_refl) as [[p Hp] Hne].
    rewrite Hp. split; [done|]. intros Hempty. by destruct Hne.
Qed.

(** ** Frames the loop leaves alone *)

Section Kept.
Variable f : CompiledScriptFrame.
Variable below : list ExecutionFrame.

Lemma flag_eq_refl (g : CompiledScriptFrame) : flag_eq g g.
Proof. by left. Qed.

Lemma flag_eq_trans (g1 g2 g3 : CompiledScriptFrame) :
  flag_eq g1 g2 -> flag_eq g2 g3 -> flag_eq g1 g3.
Proof. intros [->| ->] [->| ->]; unfold flag_eq; auto. Qed.

Lemma parked_flag_eq (g g' : CompiledScriptFrame) :
  parked g -> flag_eq g g' -> parked g'.
Proof. by intros Hp [->| ->]. Qed.

Lemma soft_pending_flag_eq (g g' : CompiledScriptFrame) :
  soft_pending g -> flag_eq g g' -> soft_pending g'.
Proof. by intros Hp [->| ->]. Qed.

Lemma hard_fault_flag_eq (g g' : CompiledScriptFrame) :
  hard_fault g -> flag_eq g g' -> hard_fault g'.
Proof. by intros Hp [->| ->]. Qed.

(** A parked frame has its step cached, and it is not a [CallScript]. *)
Lemma parked_current_step (g : CompiledScriptFrame) :
  parked g ->
  exists st, current_step g = (Some st, g) /\ is_CallScript (Some st) = false.
Proof.
  unfold parked, soft_pending, hard_fault, current_step.
  intros [[_ Hs]|[_ Hs]]; destruct (_current_step g) as [[a|l|c]|]; by eauto.
Qed.

Lemma kept_in_cons (a : ExecutionFrame) (frames : list ExecutionFrame) :
  kept_in f below frames -> kept_in f below (a :: frames).
Proof. intros (above & f' & -> & Hf). by exists (a :: above), f'. Qed.

Lemma kept_in_top (f' : CompiledScriptFrame) :
  flag_eq f f' -> kept_in f below (Compiled f' :: below).
Proof. intros Hf. by exists [], f'. Qed.

Lemma kept_on_tail (tail : list ExecutionFrame) (x : McpScriptExecutor) :
  on_tail tail x -> kept_in f below tail -> kept f below x.
Proof. intros [a Ha] Hk. unfold kept. rewrite Ha. by apply kept_in_cons. Qed.

(** A kept frame is the top of the stack or lies under it. *)
Lemma kept_cases (x : McpScriptExecutor) :
  kept f below x ->
  (exists f', stack x = Compiled f' :: below /\ flag_eq f f')
  \/ (exists tail, on_tail tail x /\ kept_in f below tail
                   /\ length (stack x) <> S (length below)).
Proof.
  intros ([|a above] & f' & Hs & Hf); [left; by exists f'|right].
  exists (above ++ Compiled f' :: below). split; [by exists a|].
  split; [by exists above, f'|]. rewrite Hs. simpl. rewrite length_app. simpl. lia.
Qed.

Lemma kept_top_length (x : McpScriptExecutor) (f' : CompiledScriptFrame) :
  stack x = Compiled f' :: below -> length (stack x) = S (length below).
Proof. by intros ->. Qed.

(** *** The pending derivation *)

Lemma pending_on_tail (w : World) (tail : list ExecutionFrame)
    (x : McpScriptExecutor) :
  on_tail tail x -> on_tail tail (pending w x).2.
Proof.
  intros [a Ha]. pose proof (pending_settles w x) as [(_ & _ & Hst) _].
  rewrite Ha in Hst. destruct a as [top|top].
  - destruct Hst as (f' & Hs & _). by exists (Compiled f').
  - by exists (NLFrame top).
Qed.

Lemma pending_parked_top (w : World) (x : McpScriptExecutor)
    (g : CompiledScriptFrame) (rest : list ExecutionFrame) :
  stack x = Compiled g :: rest -> parked g ->
  exists g',
    stack (pending w x).2 = Compiled g' :: rest /\ flag_eq g g'
    /\ (soft_pending g -> is_PendingLlmStep (pending w x).1 = true)
    /\ (hard_fault g -> is_PendingNLFallback (pending w x).1 = true).
Proof.
  intros Hs Hp. destruct x as [wdir st recent]. simpl in Hs. subst st.
  destruct g as [sn wd tgt args gen idx cs shown exc].
  unfold parked, soft_pending, hard_fault, no_exception, pending,
    current_step, flag_eq in *. simpl in *.
  destruct Hp as [[He Hl]|[He Ha]]; destruct exc as [exc|]; try done;
    destruct cs as [[a|l|c]|]; try done;
    destruct shown; simpl; eexists;
    (split; [reflexivity|]); (split; [auto|]); split;
    first [done | by intros [? _]].
Qed.

Lemma pending_kept (w : World) (x : McpScriptExecutor) :
  parked f -> kept f below x -> kept f below (pending w x).2.
Proof.
  intros Hp Hk. destruct (kept_cases x Hk) as [(f' & Hs & Hf)|(tail & Ht & Hk' & _)].
  - destruct (pending_parked_top w x f' below Hs) as (g' & Hs' & Hf' & _);
      [by eapply parked_flag_eq|].
    unfold kept. rewrite Hs'. eapply kept_in_top, flag_eq_trans; done.
  - eapply kept_on_tail; [by apply pending_on_tail|done].
Qed.

Lemma pending_length (w : World) (x : McpScriptExecutor) :
  length (stack (pending w x).2) = length (stack x).
Proof.
  pose proof (pending_settles w x) as [(_ & _ & Hst) _].
  destruct (stack x) as [|[top|top] rest].
  - by rewrite Hst.
  - destruct Hst as (f' & -> & _). done.
  - by rewrite Hst.
Qed.

Lemma return_pending_kept (w : World) (x : McpScriptExecutor) :
  parked f -> kept f below x -> kept f below (return_pending w x).2.
Proof.
  intros Hp Hk. unfold return_pending.
  pose proof (pending_kept w x Hp Hk). by destruct (pending w x).
Qed.

Lemma return_pending_asserting_kept (expected : option Pending -> bool)
    (w : World) (x : McpScriptExecutor) :
  parked f -> kept f below x ->
  kept f below (return_pending_asserting expected w x).2.
Proof.
  intros Hp Hk. unfold return_pending_asserting.
  pose proof (pending_kept w x Hp Hk) as Hk1.
  destruct (pending w x) as [[p|] x1]; [|done]. simpl in Hk1.
  pose proof (pending_kept w x1 Hp Hk1) as Hk2.
  destruct (pending w x1) as [p2 x2]. simpl in Hk2.
  destruct (expected p2); [|done]. by apply return_pending_kept.
Qed.

(** *** Pushing, popping, advancing *)

Lemma advance_top_on_tail (r : StepResult) (tail : list ExecutionFrame)
    (x : McpScriptExecutor) :
  on_tail tail x -> on_tail tail (_advance_frame r x).2.
Proof.
  intros [a Ha]. unfold _advance_frame. rewrite Ha.
  destruct a as [top|top]; [|by exists (NLFrame top)].
  destruct (advance r top) as [res top']. by exists (Compiled top').
Qed.

Lemma resume_parent_kept (r : ScriptCallResult) (x : McpScriptExecutor) :
  parked f -> kept f below x -> kept f below (resume_parent r x).2.
Proof.
  intros Hp Hk.
  destruct (kept_cases x Hk) as [(f' & Hs & Hf)|(tail & [a Ha] & Hk' & _)];
    unfold resume_parent.
  - rewrite Hs.
    destruct (parked_current_step f') as (st & -> & Hst);
      [by eapply parked_flag_eq|].
    destruct st as [a|l|c]; try done; by apply kept_in_top.
  - rewrite Ha. destruct a as [top|top]; [|exact Hk].
    destruct (current_step top) as [step top1].
    assert (kept f below (with_stack (Compiled top1 :: tail) x)) as Hk1
      by (by apply kept_in_cons).
    destruct step as [[s|s|call]|]; try done.
    apply (kept_on_tail tail); [|done].
    apply advance_top_on_tail. by exists (Compiled top1).
Qed.

Lemma pop_frame_kept (tail : list ExecutionFrame) (x : McpScriptExecutor) :
  parked f -> on_tail tail x -> kept_in f below tail ->
  kept f below (_pop_frame x).2.
Proof.
  intros Hp [a Ha] Hk. unfold _pop_frame. rewrite Ha.
  destruct a as [top|top]; [|done]. by apply resume_parent_kept.
Qed.

Lemma push_script_kept (name args wd : string) (w : World)
    (x : McpScriptExecutor) :
  kept f below x -> kept f below (push_script name args wd w x).2.
Proof.
  intros Hk. unfold push_script.
  destruct (load_script name args w); [| |done]; by apply kept_in_cons.
Qed.

(** *** The driving loop *)

Lemma loop_body_kept (s : McpScriptExecutor * World) :
  parked f -> kept f below s.1 -> kept f below (loop_body s).2.1.
Proof.
  destruct s as [x w]. intros Hp Hk. change (kept f below x) in Hk.
  destruct (kept_cases x Hk) as [(f' & Hs & Hf)|(tail & [a Ha] & Hk' & _)];
    unfold loop_body.
  - (* the kept frame is the top: the loop returns at once *)
    rewrite Hs.
    assert (parked f') as Hp' by (by eapply parked_flag_eq).
    destruct (parked_current_step f' Hp') as (st & Hcs & Hst).
    destruct (exception f') as [exc|] eqn:Hexc.
    + pose proof (return_pending_kept w x Hp Hk). by destruct (return_pending w x).
    + rewrite Hcs. destruct Hp' as [[_ Hl]|[He _]];
        [|by unfold no_exception in He; rewrite Hexc in He].
      assert (_current_step f' = Some st) as Hcached.
      { unfold current_step in Hcs. destruct (_current_step f'); [|done].
        by injection Hcs as ->. }
      rewrite Hcached in Hl. destruct st as [a|l|c]; try done.
      pose proof (return_pending_asserting_kept is_PendingLlmStep w
                    (with_stack (Compiled f' :: below) x) Hp
                    ltac:(by apply kept_in_top)).
      by destruct (return_pending_asserting _ _ _).
  - (* the kept frame lies under the top *)
    rewrite Ha. destruct a as [top|top].
    2:{ pose proof (return_pending_kept w x Hp Hk). by destruct (return_pending w x). }
    destruct (exception top) as [exc|].
    { pose proof (return_pending_kept w x Hp Hk). by destruct (return_pending w x). }
    destruct (current_step top) as [step top1].
    set (x1 := with_stack (Compiled top1 :: tail) x).
    assert (on_tail tail x1) as Ht1 by (by exists (Compiled top1)).
    assert (kept f below x1) as Hk1 by (by apply (kept_on_tail tail)).
    destruct step as [[step|l|call]|].
    + (* auto *)
      assert (forall w exc, kept f below (fault w top1 tail step exc x1).2) as Hfault.
      { intros w0 e. unfold fault. apply return_pending_kept; [done|].
        by apply kept_in_cons. }
      assert (forall w r d, kept f below (finish_auto w top1 tail step r d x1).2)
        as Hfinish.
      { intros w0 r d. unfold finish_auto, soft_failure.
        destruct (auto_success r); simpl.
        - pose proof (advance_top_on_tail (OfAuto r) tail
                        (record_step (auto_executed top1 step r) x1) Ht1) as Ht2.
          destruct (_advance_frame _ _) as [[]]; by apply (kept_on_tail tail).
        - apply return_pending_asserting_kept; [done|]. by apply kept_in_cons. }
      destruct (_execute_auto_step step top1 w) as [[[r|r|r]|e out|] w'].
      * specialize (Hfinish w' (RShell r) (shell_error_detail r)).
        by destruct (finish_auto _ _ _ _ _ _ _).
      * specialize (Hfinish w' (RCall r) (call_error_detail r)).
        by destruct (finish_auto _ _ _ _ _ _ _).
      * specialize (Hfault w' r). by destruct (fault _ _ _ _ _ _).
      * match goal with |- context [fault w' top1 tail step ?e x1] =>
          specialize (Hfault w' e) end.
        by destruct (fault _ _ _ _ _ _).
      * done.
    + (* llm *)
      pose proof (return_pending_asserting_kept is_PendingLlmStep w x1 Hp Hk1).
      by destruct (return_pending_asserting _ _ _).
    + (* call_script *)
      destruct (load_script (name call) (request call) w) as [body target|target|msg].
      * by apply kept_in_cons.
      * match goal with |- context [return_pending_asserting ?e w ?y] =>
          pose proof (return_pending_asserting_kept e w y Hp
                        ltac:(by apply kept_in_cons)) end.
        by destruct (return_pending_asserting _ _ _).
      * match goal with |- context [_advance_frame ?r ?y] =>
          pose proof (advance_top_on_tail r tail y Ht1) as Ht2;
          destruct (_advance_frame r y) as [[]] end; by apply (kept_on_tail tail).
    + (* exhausted *)
      pose proof (pop_frame_kept tail x1 Hp Ht1 Hk').
      by destruct (_pop_frame x1) as [[]].
Qed.

Lemma kept_nonempty (x : McpScriptExecutor) :
  kept f below x -> exists a rest, stack x = a :: rest.
Proof.
  intros ([|a above] & f' & Hs & _); rewrite Hs; simpl; eauto.
Qed.

Lemma run_until_llm_kept (fuel : nat) (s : McpScriptExecutor * World) :
  parked f -> kept f below s.1 -> kept f below (run_until_llm fuel s).2.1.
Proof.
  intros Hp. revert s.
  induction fuel as [|fuel IH]; intros [x w] Hk; change (kept f below x) in Hk;
    destruct (kept_nonempty x Hk) as (a & rest & Hx);
    cbn [run_until_llm fst snd]; rewrite Hx; [exact Hk|].
  pose proof (loop_body_kept (x, w) Hp Hk) as Hk1.
  destruct (loop_body (x, w)) as [[|r|e] s1]; [by apply IH|done..].
Qed.

(** *** Resuming *)

Lemma continue_after_llm_kept (outputs : PyDictOf PyValue) (w : World)
    (x : McpScriptExecutor) :
  parked f -> kept f below x ->
  length (stack x) <> S (length below) \/ hard_fault f ->
  kept f below (continue_after_llm outputs w x).2.
Proof.
  intros Hp Hk Hguard. unfold continue_after_llm.
  destruct (kept_cases x Hk) as [(f' & Hs & Hf)|(tail & Ht & Hk' & _)].
  - destruct Hguard as [Hlen|Hhard]; [by rewrite Hs in Hlen|].
    destruct (pending_parked_top w x f' below Hs) as (g' & Hs' & _ & _ & Hfb);
      [by eapply parked_flag_eq|].
    pose proof (pending_kept w x Hp Hk) as Hk1.
    destruct (pending w x) as [p x1]. simpl in *.
    rewrite Hfb by (by eapply hard_fault_flag_eq). by rewrite orb_true_r.
  - apply (pending_on_tail w) in Ht as Ht1.
    destruct (pending w x) as [p x1]. simpl in Ht1.
    destruct (_ || _); [by apply (kept_on_tail tail)|].
    apply (pending_on_tail w) in Ht1 as Ht2.
    destruct (pending w x1) as [p2 x2]. simpl in Ht2.
    destruct (negb _); [by apply (kept_on_tail tail)|].
    match goal with |- context [_advance_frame ?r x2] =>
      pose proof (advance_top_on_tail r tail x2 Ht2) as Ht3;
      destruct (_advance_frame r x2) as [[[]|e] x3] end;
      [|by apply (kept_on_tail tail)].
    destruct Ht3 as [a Ha]. simpl in Ha. rewrite Ha.
    destruct a as [top|top]; [|by apply (kept_on_tail tail); [exists (NLFrame top)|]].
    destruct (current_step top) as [[step|] top']; by apply kept_in_cons.
Qed.

Lemma complete_nl_script_kept (w : World) (x : McpScriptExecutor) :
  parked f -> kept f below x ->
  length (stack x) <> S (length below) \/ soft_pending f ->
  kept f below (complete_nl_script w x).2.
Proof.
  intros Hp Hk Hguard. unfold complete_nl_script.
  destruct (kept_cases x Hk) as [(f' & Hs & Hf)|(tail & Ht & Hk' & _)].
  - destruct Hguard as [Hlen|Hsoft]; [by rewrite Hs in Hlen|].
    destruct (pending_parked_top w x f' below Hs) as (g' & Hs' & Hf' & Hl & _);
      [by eapply parked_flag_eq|].
    pose proof (pending_kept w x Hp Hk) as Hk1.
    destruct (pending w x) as [p x1]. simpl in *.
    specialize (Hl ltac:(by eapply soft_pending_flag_eq)).
    destruct p as [[p|p|p]|]; try done. simpl.
    destruct (pending_parked_top w x1 g' below Hs') as (g'' & _ & _ & Hl' & _);
      [eapply parked_flag_eq; [|done]; by eapply parked_flag_eq|].
    pose proof (pending_kept w x1 Hp Hk1) as Hk2.
    destruct (pending w x1) as [p2 x2]. simpl in *.
    specialize (Hl' ltac:(eapply soft_pending_flag_eq; [|done];
                          by eapply soft_pending_flag_eq)).
    by destruct p2 as [[p2|p2|p2]|].
  - apply (pending_on_tail w) in Ht as Ht1.
    destruct (pending w x) as [p x1]. simpl in Ht1.
    assert (kept f below (with_stack tail x1)) as Hpop by done.
    destruct (is_PendingNLScript p).
    + destruct Ht1 as [a ->]. destruct a as [top|top]; [done|].
      by apply resume_parent_kept.
    + apply (pending_on_tail w) in Ht1 as Ht2.
      destruct (pending w x1) as [p2 x2]. simpl in Ht2.
      assert (kept f below (with_stack tail x2)) as Hpop2 by done.
      destruct (is_PendingNLFallback p2); [|by apply (kept_on_tail tail)].
      destruct Ht2 as [a ->]. destruct a as [top|top]; [|done].
      destruct (exception top); [|done]. by apply resume_parent_kept.
Qed.

(** *** The four operations *)

Lemma respond_state (r : Outcome RunResult * (McpScriptExecutor * World)) :
  (respond r).2 = r.2.
Proof.
  destruct r as [[result|e|] s]; simpl; [|done..].
  by destruct (_handle_run_result result).
Qed.

Lemma start_kept (fuel : nat) (name arguments : string)
    (working_dir : option string) (s : McpScriptExecutor * World) :
  parked f -> kept f below s.1 ->
  kept f below (start fuel name arguments working_dir s).2.1.
Proof.
  destruct s as [x w]. intros Hp Hk. change (kept f below x) in Hk.
  unfold start.
  match goal with |- context [push_script ?n ?a ?d w x] =>
    pose proof (push_script_kept n a d w x Hk) as Hk1;
    destruct (push_script n a d w x) as [[[]|e] x1] end.
  - rewrite respond_state. by apply run_until_llm_kept.
  - by destruct e.
Qed.

Lemma continue_compiled_script_kept (fuel : nat) (outputs : PyDictOf PyValue)
    (s : McpScriptExecutor * World) :
  parked f -> kept f below s.1 ->
  length (stack s.1) <> S (length below) \/ hard_fault f ->
  kept f below (continue_compiled_script fuel outputs s).2.1.
Proof.
  destruct s as [x w]. intros Hp Hk Hguard.
  change (kept f below x) in Hk. change ((x, w).1) with x in Hguard.
  unfold continue_compiled_script.
  pose proof (pending_kept w x Hp Hk) as Hk1.
  pose proof (pending_length w x) as Hl1.
  destruct (pending w x) as [p1 x1]. simpl in Hk1, Hl1.
  pose proof (pending_kept w x1 Hp Hk1) as Hk2.
  pose proof (pending_length w x1) as Hl2.
  destruct (pending w x1) as [p2 x2]. simpl in Hk2, Hl2.
  destruct (is_PendingNLScript p1); [by destruct p2 as [[]|]|].
  pose proof (pending_kept w x2 Hp Hk2) as Hk3.
  pose proof (pending_length w x2) as Hl3.
  destruct (pending w x2) as [p3 x3]. simpl in Hk3, Hl3.
  destruct (is_PendingNLFallback p2); [by destruct p3 as [[]|]|].
  destruct p3 as [p3|]; [|done].
  pose proof (continue_after_llm_kept outputs w x3 Hp Hk3) as Hk4.
  destruct (continue_after_llm outputs w x3) as [[[]|e] x4];
    [|by apply Hk4; rewrite Hl3, Hl2, Hl1..].
  rewrite respond_state. apply run_until_llm_kept; [done|].
  apply Hk4. by rewrite Hl3, Hl2, Hl1.
Qed.

Lemma finish_nl_script_kept (fuel : nat) (s : McpScriptExecutor * World) :
  parked f -> kept f below s.1 ->
  length (stack s.1) <> S (length below) \/ soft_pending f ->
  kept f below (finish_nl_script fuel s).2.1.
Proof.
  destruct s as [x w]. intros Hp Hk Hguard.
  change (kept f below x) in Hk. change ((x, w).1) with x in Hguard.
  unfold finish_nl_script.
  pose proof (pending_kept w x Hp Hk) as Hk1.
  pose proof (pending_length w x) as Hl1.
  destruct (pending w x) as [p1 x1]. simpl in Hk1, Hl1.
  destruct (negb _).
  - pose proof (pending_kept w x1 Hp Hk1) as Hk2.
    destruct (pending w x1) as [p2 x2]. by destruct (is_PendingLlmStep p2).
  - pose proof (complete_nl_script_kept w x1 Hp Hk1) as Hk2.
    destruct (complete_nl_script w x1) as [[[]|e] x2];
      [|by apply Hk2; rewrite Hl1].
    rewrite respond_state. apply run_until_llm_kept; [done|].
    apply Hk2. by rewrite Hl1.
Qed.

Lemma status_kept (w : World) (x : McpScriptExecutor) :
  parked f -> kept f below x -> kept f below (status w x).2.
Proof.
  intros Hp Hk. unfold status.
  pose proof (pending_kept w x Hp Hk) as Hk1.
  destruct (pending w x) as [[p1|] x1]; simpl in Hk1.
  - pose proof (pending_kept w x1 Hp Hk1) as Hk2.
    by destruct (pending w x1) as [[p2|] x2].
  - by destruct (stack x1).
Qed.

Lemma call_kept (fuel : nat) (c : Call) (s : McpScriptExecutor * World) :
  parked f -> kept f below s.1 -> resolves f below c s.1 = false ->
  kept f below (call fuel c s).1.
Proof.
  intros Hp Hk Hres. unfold resolves in Hres.
  apply andb_false_iff in Hres as Hguard.
  rewrite bool_decide_eq_false in Hguard.
  destruct c as [name arguments working_dir|outputs| |]; simpl.
  - by apply start_kept.
  - apply continue_compiled_script_kept; [done..|].
    destruct Hguard as [?|Hexc]; [by left|right].
    destruct Hp as [[Hsoft _]|Hhard]; [congruence|done].
  - apply finish_nl_script_kept; [done..|].
    destruct Hguard as [?|Hexc]; [by left|right].
    apply negb_false_iff in Hexc.
    destruct Hp as [Hsoft|[Hhard _]]; [done|congruence].
  - by apply status_kept.
Qed.

Lemma calls_kept (cs : list (nat * Call)) (s : McpScriptExecutor * World) :
  parked f -> kept f below s.1 -> unresolved f below cs s ->
  kept f below (calls cs s).1.
Proof.
  intros Hp. revert s. induction cs as [|[fuel c] cs IH]; intros s Hk Hun; [done|].
  destruct Hun as [Hres Hun]. simpl in *. apply IH; [|done].
  by apply call_kept.
Qed.

End Kept.

(** C4.  A frame that waits on an llm step (also the step synthesized for
    a soft auto failure) or that holds a hard fault stays on the stack as it
    is, up to [has_shown_nl_source]: it is neither popped nor advanced.
    For a pending llm step this holds under every call except a
    [continue_compiled_script] made while the frame is the top of the
    stack; for a hard fault under every call, every
    [continue_compiled_script] included, except a [finish_nl_script] made
    while the frame is the top.  It then holds along any sequence of calls
    none of which is the resolving one. *)
Theorem escalation_tiers (f : CompiledScriptFrame) (below : list ExecutionFrame) :
  (soft_pending f ->
   forall fuel c s,
     kept f below s.1 ->
     (forall outputs, c = CallContinue outputs ->
                      length (stack s.1) <> S (length below)) ->
     kept f below (call fuel c s).1)
  /\ (hard_fault f ->
      forall fuel c s,
        kept f below s.1 ->
        (c = CallFinish -> length (stack s.1) <> S (length below)) ->
        kept f below (call fuel c s).1)
  /\ (parked f ->
      forall cs s,
        kept f below s.1 -> unresolved f below cs s ->
        kept f below (calls cs s).1).
Proof.
  split; [|split].
  - intros Hsoft fuel c s Hk Hc. apply call_kept; [by left|done|].
    unfold resolves. destruct Hsoft as [Hexc _]. rewrite Hexc.
    destruct c as [| outputs | |]; simpl; rewrite ?andb_false_r; try done.
    rewrite bool_decide_eq_false_2; [done|by eapply Hc].
  - intros Hhard fuel c s Hk Hc. apply call_kept; [by right|done|].
    unfold resolves. destruct Hhard as [Hexc _]. rewrite Hexc.
    destruct c as [| outputs | |]; simpl; rewrite ?andb_false_r; try done.
    rewrite bool_decide_eq_false_2; [done|by apply Hc].
  - intros Hp cs s. by apply calls_kept.
Qed.

(** ** One pass of the loop *)

Lemma pulled_cached (g : CompiledScriptFrame) (s : Step) :
  (current_step g).1 = Some s -> _current_step (pulled g) = Some s.
Proof.
  unfold pulled, current_step. destruct (_current_step g) as [s'|] eqn:Hc; simpl.
  - by intros [= ->].
  - destruct (gen_next (generator g)) as [[s'|] gen]; simpl; [by intros [= ->]|done].
Qed.








End WithHost.

End ExecutorProps.

(** * The properties on the example scripts *)

Module ScenarioProps.
Import Runtime Executor Server Vocabulary Scenarios ExecutorProps.

(** The executor right after [push_script("parent", "", "/work")]. *)
Lemma pushed_parent_reachable :
  reachable ((push_script "parent" "" "/work" fresh.2 fresh.1).2, fresh.2).
Proof. apply (reach_push_script fresh), (reach_new "/work" no_commands). Qed.

(** C1 as stated fails right after [push_script]: the first derivation of
    [pending] starts the generator, shows the script's source and sets
    [has_shown_nl_source]; the second returns the step without the
    source. *)
Lemma pending_not_pure : ~ pending_pure_claim.
Proof.
  intros Hclaim. destruct (Hclaim _ pushed_parent_reachable) as [Hvalue _].
  vm_compute in Hvalue. discriminate Hvalue.
Qed.

(** C3 as stated fails on the same executor: [status] leaves the top
    frame with its generator started, its first step cached and
    [has_shown_nl_source] set. *)
Lemma status_not_read_only : ~ status_read_only_claim.
Proof.
  intros Hclaim.
  destruct (Hclaim fresh.2 (push_script "parent" "" "/work" fresh.2 fresh.1).2)
    as [text Hstatus].
  vm_compute in Hstatus. discriminate Hstatus.
Qed.

(** C2 on [script_with_llm_step]: start it and answer its only llm step.
    [continue_compiled_script] reports completion, yet the finished frame is
    still on the stack while nothing is pending, and [status] goes on to
    describe a running script. *)
Theorem finished_script_stays_on_stack :
  let s := (start 10 "parent" "" None fresh).2 in
  let r := continue_compiled_script 10 [] s in
  r.1 = Returned all_completed
  /\ length (stack r.2.1) = 1
  /\ (pending r.2.2 r.2.1).1 = None
  /\ (status r.2.2 r.2.1).1
     = Ok ("## Script: `parent`" +:+ NL +:+ "Stack depth: 1" +:+ NL
           +:+ "Stack path: `parent[0]`")
  /\ ~ pending_none_iff_empty_claim.
Proof.
  split; [by vm_compute|]. split; [by vm_compute|]. split; [by vm_compute|].
  split; [by vm_compute|]. intros Hclaim.
  assert (served (calls [(10, CallStart "parent" "" None); (10, CallContinue [])]
                    fresh)) as Hserved by (by eexists _, _, _).
  apply Hclaim in Hserved as [Hempty _].
  specialize (Hempty ltac:(by vm_compute)). vm_compute in Hempty.
  discriminate Hempty.
Qed.




(** C4 on [failing]: with the synthesized llm step pending, [status],
    [finish_nl_script], a nested [start] of [child] and the
    [continue_compiled_script] that answers [child]'s first step all leave
    the [failing] frame on the stack as it was. *)
Lemma escalation_tiers_witness :
  kept failing_frame []
    (calls [(10, CallStatus); (10, CallFinish);
            (10, CallStart "child" "" None); (10, CallContinue []);
            (10, CallStatus)] failing_started).1.
Proof.
  apply (proj2 (proj2 (escalation_tiers failing_frame []))).
  - left. by split.
  - exists [], failing_frame. split; [by vm_compute|by left].
  - cbn [unresolved]. repeat split; by vm_compute.
Defined.

End ScenarioProps.

(** * Properties of the reading of events *)

Module FromDictProps.
Import Cassette FromDict CassetteFile.

Lemma and_then_built {A B} (m : Parsed A) (k : A -> Parsed B) (b : B) :
  and_then m k = Built b -> exists a, m = Built a /\ k a = Built b.
Proof. destruct m; [eauto | done | done]. Qed.

Lemma ap_built {A B} (f : Parsed (A -> B)) (a : Parsed A) (b : B) :
  ap f a = Built b -> exists g x, f = Built g /\ a = Built x /\ b = g x.
Proof.
  destruct f as [g| |], a as [x| |]; try done.
  intros [= <-]. eauto.
Qed.

Section WithRepr.
Context `{R : Repr}.

Lemma check_keys_built (data : PyValue) (expected : list string) (context : string) :
  _check_keys data expected context = Built tt ->
  exists items, data = PyDict items /\ forall k, k ∈ items.*1 -> k ∈ expected.
Proof.
  destruct data as [| | | | |items]; try done.
  unfold _check_keys.
  destruct (filter _ _) as [|k0 extra] eqn:Hextra; [|done].
  intros _. exists items. split; [done|].
  intros k Hk. destruct (decide (k ∈ expected)) as [|Hn]; [done|].
  assert (k ∈ filter (fun k => k ∉ expected) items.*1) as Hin
    by (apply list_elem_of_filter; done).
  rewrite Hextra in Hin. by apply elem_of_nil in Hin.
Qed.

Lemma is_str_true (v : PyValue) (literal : string) :
  is_str v literal = true -> v = PyStr literal.
Proof.
  destruct v; try done. simpl. intros Hs.
  apply bool_decide_eq_true in Hs. by subst.
Qed.

Lemma get_type (data : PyValue) (literal : string) (v : PyValue) :
  get data "type" PyNone = Built v -> is_str v literal = true ->
  type_of_data data = Some (PyStr literal).
Proof.
  destruct data as [| | | | |items]; try done. simpl.
  intros [= <-] Hs. apply is_str_true in Hs.
  destruct (dict_lookup "type" items); simpl in *; by subst.
Qed.

Lemma event_read_back (e : VcrEvent) : event_from_dict (to_dict e) = Built e.
Proof.
  destruct e as [[n a [w|]]|[o]| | |[t o]|[wd [aty ac [cx|] [kw|]] [[s c o]|[s v [er|] o]|[s ex d o]]]];
    vm_compute; reflexivity.
Qed.

Lemma events_read_back (events : list VcrEvent) :
  events_from_dicts (map to_dict events) = Built events.
Proof.
  induction events as [|e events IH]; [done|].
  cbn [map events_from_dicts]. by rewrite event_read_back, IH.
Qed.

Lemma to_dict_is_event_dict (e : VcrEvent) : is_event_dict (to_dict e) = true.
Proof. by destruct e. Qed.

(** X1.  The cassette round trip on the data: loading the document that
    the first save writes gives a replay cassette holding the recorded
    events in their order and the initial state, positioned at the first
    event, with every event counted as saved. *)
Theorem load_document (p : string) (init : PyDictOf PyValue)
    (events : list VcrEvent) :
  is_Some (dict_lookup "working_dir" init) ->
  _load p (document init events) = Built (loaded p init events).
Proof.
  intros Hwd.
  assert (get (document init events) "events" PyNone
          = Built (PyList (map to_dict events))) as Hevents by reflexivity.
  assert (get (document init events) "initial_state" PyNone
          = Built (PyDict init)) as Hinit by reflexivity.
  assert (forallb is_event_dict (map to_dict events) = true) as Hdicts.
  { apply forallb_forall. intros d Hd. apply in_map_iff in Hd as (e & <- & _).
    apply to_dict_is_event_dict. }
  unfold _load. rewrite Hevents, Hinit. cbn [and_then].
  rewrite Hdicts. cbn [negb has_working_dir and_then].
  rewrite bool_decide_eq_true_2 by done.
  cbn [negb typed as_dict ap]. by rewrite events_read_back.
Qed.

(** What [_load] builds, and from what. *)
Lemma load_shape (p : string) (data : PyValue) (c : VCRCassette) :
  _load p data = Built c ->
  exists items raw_events init events,
    data = PyDict items
    /\ dict_lookup "initial_state" items = Some (PyDict init)
    /\ dict_lookup "events" items = Some (PyList raw_events)
    /\ is_Some (dict_lookup "working_dir" init)
    /\ events_from_dicts raw_events = Built events
    /\ c = loaded p init events.
Proof.
  unfold _load. intros Hb.
  apply and_then_built in Hb as (raw0 & Hget & Hb).
  destruct data as [| | | | |items]; try done.
  cbn [get] in Hget. injection Hget as <-.
  apply and_then_built in Hb as (raw1 & Hraw & Hb).
  destruct raw1 as [| | | |raw_events|]; try done.
  destruct (dict_lookup "events" items) as [v|] eqn:Hevents; cbn [default] in Hraw.
  2: { destruct items; [|done]. injection Hraw as <-. done. }
  assert (v = PyList raw_events) as ->.
  { destruct v; try done; [by destruct items | by injection Hraw as ->]. }
  clear Hraw.
  destruct (negb (forallb is_event_dict raw_events)); [done|].
  cbn [get and_then] in Hb.
  destruct (dict_lookup "initial_state" items) as [st|] eqn:Hinit; [|done].
  cbn [default from_option id] in Hb.
  assert (exists init, st = PyDict init /\
            is_Some (dict_lookup "working_dir" init) /\
            Built (fun initial_state events =>
                     {| path := p; mode := ModeReplay;
                        initial_state := initial_state; _events := events;
                        _replay_event_index := 0;
                        _last_saved_event_count := length events |})
              <*> Built init <*> events_from_dicts raw_events = Built c)%parsed
    as (init & -> & Hwd & Hc).
  { destruct st as [| | |str|l|init]; try done.
    - cbn [has_working_dir and_then] in Hb.
      destruct (negb (contains "working_dir" str)); [done|].
      cbn [typed as_dict ap] in Hb. by destruct (events_from_dicts raw_events).
    - cbn [has_working_dir and_then] in Hb.
      destruct (negb (existsb _ l)); [done|].
      cbn [typed as_dict ap] in Hb. by destruct (events_from_dicts raw_events).
    - cbn [has_working_dir and_then] in Hb. exists init.
      case_bool_decide as Hwd; [|done]. done. }
  cbn [ap] in Hc.
  destruct (events_from_dicts raw_events) as [events| |] eqn:Hev; try done.
  injection Hc as <-.
  by exists items, raw_events, init, events.
Qed.


(** X2.  Data is read as an event only if it is a dict whose ["type"] is
    the one the event itself writes and whose every key is one the event
    writes, the [index] of old auto-step records apart: nothing of an
    unknown type is accepted and no unknown key is dropped. *)
Theorem event_from_dict_known (data : PyValue) (e : VcrEvent) :
  event_from_dict data = Built e ->
  type_of_data data = type_of_data (to_dict e)
  /\ forall k, k ∈ keys_of data ->
       k ∈ keys_of (to_dict e) \/ (k = "index" /\ type_of e = ClsAutoStepEvent).
Proof.
  unfold event_from_dict. intros He.
  apply and_then_built in He as (event_type & Hget & He).
  destruct (is_str event_type "mcp_tool_input") eqn:H1.
  { pose proof (get_type _ _ _ Hget H1) as Hty.
    unfold mcp_input_from_dict in He.
    apply and_then_built in He as (tool & Htool & He).
    assert (forall from_dict name,
              registered name _MCP_INPUT_TYPES = Some from_dict ->
              from_dict data = Built e ->
              type_of_data (to_dict e) = Some (PyStr "mcp_tool_input")
              /\ exists items, data = PyDict items
                   /\ (forall k, k ∈ items.*1 -> k ∈ keys_of (to_dict e))) as Hreg.
    { intros from_dict name Hname Hfrom. unfold _MCP_INPUT_TYPES in Hname.
      simpl in Hname.
      repeat case_bool_decide; simplify_eq.
      all: unfold and_then in Hfrom.
      all: match type of Hfrom with
        | context [match ?m with _ => _ end] => destruct m as [x| |] eqn:Hx
        end; simplify_eq;
        apply and_then_built in Hx as ([] & Hck & _);
        apply check_keys_built in Hck as (items & -> & Hk); eauto. }
    destruct tool as [| | |name| |]; try done.
    destruct (registered name _MCP_INPUT_TYPES) as [from_dict|] eqn:Hname; [|done].
    destruct (Hreg _ _ Hname He) as (Hte & items & -> & Hk).
    split; [congruence|]. intros k Hin. left. by apply Hk. }
  destruct (is_str event_type "mcp_tool_output") eqn:H2.
  { pose proof (get_type _ _ _ Hget H2) as Hty.
    apply ap_built in He as (g & x & [= <-] & Hx & ->).
    apply and_then_built in Hx as ([] & Hck & _).
    apply check_keys_built in Hck as (items & -> & Hk).
    split; [done|]. intros k Hin. left. by apply Hk. }
  destruct (is_str event_type "auto_step") eqn:H3; [|done].
  pose proof (get_type _ _ _ Hget H3) as Hty.
  apply ap_built in He as (g & x & [= <-] & Hx & ->).
  apply and_then_built in Hx as ([] & Hck & _).
  apply check_keys_built in Hck as (items & -> & Hk).
  split; [done|]. intros k Hin. specialize (Hk k Hin).
  simpl. rewrite !elem_of_cons in Hk. rewrite !elem_of_cons.
  destruct Hk as [-> | [-> | [-> | [-> | [-> | Hnil]]]]]; auto 6.
Qed.

End WithRepr.

End FromDictProps.

(** * Properties of the report of executed steps *)

Module ReportProps.
Import Runtime Executor.

Section WithHost.
Context `{H : Host}.

Local Abbreviation recent := recently_executed_steps.

(** A pass that returns reports the steps not yet reported and leaves none;
    another pass keeps them. *)
Local Abbreviation reported l fl x' :=
  (match fl with
   | Return r => l `prefix_of` executed_steps r /\ recent x' = []
   | _ => l `prefix_of` recent x'
   end).

Lemma pending_recent (w : World) (x : McpScriptExecutor) :
  recent (pending w x).2 = recent x.
Proof.
  unfold pending. destruct (stack x) as [|[top|top] rest]; [done| |done].
  destruct (exception top); [done|].
  by destruct (current_step top) as [[[]|] ?].
Qed.

Lemma return_pending_reported (w : World) (x : McpScriptExecutor) :
  reported (recent x) (return_pending w x).1 (return_pending w x).2.
Proof.
  unfold return_pending. pose proof (pending_recent w x) as Hp.
  destruct (pending w x) as [p x1]. cbn in *. by rewrite Hp.
Qed.

Lemma return_pending_asserting_reported (expected : option Pending -> bool)
    (w : World) (x : McpScriptExecutor) :
  reported (recent x) (return_pending_asserting expected w x).1
    (return_pending_asserting expected w x).2.
Proof.
  unfold return_pending_asserting. pose proof (pending_recent w x) as Hp.
  destruct (pending w x) as [[p|] x1]; cbn [fst snd] in *; [|by rewrite Hp].
  pose proof (pending_recent w x1) as Hp1.
  destruct (pending w x1) as [p1 x2]; cbn [fst snd] in *.
  destruct (expected p1); cbn [fst snd]; [|by rewrite Hp1, Hp].
  pose proof (return_pending_reported w x2) as Hr.
  rewrite Hp1, Hp in Hr. exact Hr.
Qed.

Lemma advance_frame_recent (result : StepResult) (x : McpScriptExecutor) :
  recent (_advance_frame result x).2 = recent x.
Proof.
  unfold _advance_frame. destruct (stack x) as [|[frame|frame] rest]; try done.
  by destruct (advance result frame).
Qed.

Lemma resume_parent_recent (result : ScriptCallResult) (x : McpScriptExecutor) :
  recent x `prefix_of` recent (resume_parent result x).2.
Proof.
  unfold resume_parent. destruct (stack x) as [|[parent|parent] below]; try done.
  destruct (current_step parent) as [[[a|l|call]|] parent1]; try done.
  rewrite advance_frame_recent. cbn. by apply prefix_app_r.
Qed.

Lemma pop_frame_recent (x : McpScriptExecutor) :
  recent x `prefix_of` recent (_pop_frame x).2.
Proof.
  unfold _pop_frame. destruct (stack x) as [|[frame|frame] rest]; try done.
  match goal with |- context [resume_parent ?r ?y] =>
    exact (resume_parent_recent r y) end.
Qed.

Lemma reported_prefix (l l' : list ExecutedStep) (fl : Flow)
    (x' : McpScriptExecutor) :
  l `prefix_of` l' -> reported l' fl x' -> reported l fl x'.
Proof.
  intros Hl. destruct fl; [by etrans| |by etrans].
  intros [Hr He]. split; [by etrans|done].
Qed.

Lemma loop_body_reported (s : McpScriptExecutor * World) :
  reported (recent s.1) (loop_body s).1 (loop_body s).2.1.
Proof.
  destruct s as [x w]. unfold loop_body. cbn [fst snd].
  destruct (stack x) as [|[top|top] rest] eqn:Hs; [cbn; reflexivity| |].
  2: { pose proof (return_pending_reported w x).
       by destruct (return_pending w x). }
  destruct (exception top).
  { pose proof (return_pending_reported w x).
    by destruct (return_pending w x). }
  destruct (current_step top) as [step top1].
  set (x1 := with_stack (Compiled top1 :: rest) x).
  assert (recent x1 = recent x) as Hx1 by done.
  destruct step as [[step|l|call]|].
  - assert (forall w exc, reported (recent x)
                            (fault w top1 rest step exc x1).1
                            (fault w top1 rest step exc x1).2) as Hfault.
    { intros w0 exc. unfold fault.
      match goal with |- context [return_pending w0 ?y] =>
        pose proof (return_pending_reported w0 y) as Hr end.
      eapply reported_prefix; [|exact Hr]. cbn. by apply prefix_app_r. }
    assert (forall w r d, reported (recent x)
                            (finish_auto w top1 rest step r d x1).1
                            (finish_auto w top1 rest step r d x1).2) as Hfinish.
    { intros w0 r d. unfold finish_auto, soft_failure.
      destruct (auto_success r); cbn [negb].
      - match goal with |- context [_advance_frame ?r ?y] =>
          pose proof (advance_frame_recent r y) as Ha;
          destruct (_advance_frame r y) as [[] x2] end;
          cbn [fst snd] in *; rewrite Ha; cbn; by apply prefix_app_r.
      - match goal with |- context [return_pending_asserting ?e w0 ?y] =>
          pose proof (return_pending_asserting_reported e w0 y) as Hr end.
        eapply reported_prefix; [|exact Hr]. cbn. by apply prefix_app_r. }
    destruct (_execute_auto_step step top1 w) as [[[r|r|r]|e out|] w'].
    + specialize (Hfinish w' (RShell r) (shell_error_detail r)).
      by destruct (finish_auto _ _ _ _ _ _ _).
    + specialize (Hfinish w' (RCall r) (call_error_detail r)).
      by destruct (finish_auto _ _ _ _ _ _ _).
    + specialize (Hfault w' r). by destruct (fault _ _ _ _ _ _).
    + match goal with |- context [fault w' top1 rest step ?e x1] =>
        specialize (Hfault w' e) end.
      by destruct (fault _ _ _ _ _ _).
    + cbn. reflexivity.
  - pose proof (return_pending_asserting_reported is_PendingLlmStep w x1) as Hr.
    rewrite Hx1 in Hr. by destruct (return_pending_asserting _ _ _).
  - destruct (load_script (name call) (request call) w) as [body target|target|msg].
    + cbn. by apply prefix_app_r.
    + match goal with |- context [return_pending_asserting ?e w ?y] =>
        pose proof (return_pending_asserting_reported e w y) as Hr;
        destruct (return_pending_asserting e w y) end.
      eapply reported_prefix; [|exact Hr]. cbn. by apply prefix_app_r.
    + match goal with |- context [_advance_frame ?r ?y] =>
        pose proof (advance_frame_recent r y) as Ha;
        destruct (_advance_frame r y) as [[] x2] end;
        cbn [fst snd] in *; rewrite Ha; cbn;
        rewrite <- app_assoc; by apply prefix_app_r.
  - pose proof (pop_frame_recent x1) as Hp. rewrite Hx1 in Hp.
    by destruct (_pop_frame x1) as [[]].
Qed.

(** X10.  Executed steps are reported once.  When [run_until_llm] returns,
    its result lists the steps recorded since the last report, those
    recorded before the call first, and the executor keeps none of them;
    the result has nothing pending exactly when the stack is empty.  When
    the loop raises instead, no recorded step is dropped. *)
Theorem run_until_llm_reports (fuel : nat) (s : McpScriptExecutor * World) :
  match (run_until_llm fuel s).1 with
  | Returned r =>
      recent s.1 `prefix_of` executed_steps r
      /\ recent (run_until_llm fuel s).2.1 = []
      /\ (rr_pending r = None <-> stack (run_until_llm fuel s).2.1 = [])
  | _ => recent s.1 `prefix_of` recent (run_until_llm fuel s).2.1
  end.
Proof.
  revert s. induction fuel as [|fuel IH]; intros [x w].
  - cbn [run_until_llm fst snd]. destruct (stack x) eqn:Hx; [|cbn; reflexivity].
    cbn. rewrite Hx. by split; [reflexivity|].
  - pose proof (ExecutorProps.run_until_llm_pending_iff_empty (S fuel) (x, w)) as Hiff.
    cbn [run_until_llm fst snd] in *.
    destruct (stack x) as [|a rest] eqn:Hx.
    { cbn. rewrite Hx. by split; [reflexivity|]. }
    pose proof (loop_body_reported (x, w)) as Hr. cbn [fst snd] in Hr.
    destruct (loop_body (x, w)) as [[|r|e] s1]; cbn [fst snd] in *.
    + specialize (IH s1).
      destruct (run_until_llm fuel s1) as [[r| |] s2]; cbn [fst snd] in *.
      * destruct IH as (Hpre & Hnone & _).
        split; [by etrans|]. split; [done|]. by apply Hiff.
      * by etrans.
      * by etrans.
    + destruct Hr as [Hpre Hnone]. split; [done|]. split; [done|]. by apply Hiff.
    + done.
Qed.

End WithHost.

End ReportProps.
(** * The executor and the world

    Apart from the execution of an auto step, the executor reads the world
    only through the script loader and the reader of the sources. *)

Module SourcesProps.
Import Runtime Executor Server VcrVocabulary.

Section WithHost.
Context `{H : Host}.

Lemma pending_same (w w' : World) (x : McpScriptExecutor) :
  same_sources w w' -> pending w x = pending w' x.
Proof.
  intros [_ Hnl]. unfold pending, _load_nl_source.
  destruct (stack x) as [|[top|top] rest]; [done| |].
  - destruct (exception top); [by rewrite Hnl|].
    destruct (current_step top) as [[[]|] top1]; try done.
    by rewrite Hnl.
  - by rewrite Hnl.
Qed.

Lemma return_pending_same (w w' : World) (x : McpScriptExecutor) :
  same_sources w w' -> return_pending w x = return_pending w' x.
Proof. intros Hs. unfold return_pending. by rewrite (pending_same w w'). Qed.

Lemma return_pending_asserting_same (expected : option Pending -> bool)
    (w w' : World) (x : McpScriptExecutor) :
  same_sources w w' ->
  return_pending_asserting expected w x = return_pending_asserting expected w' x.
Proof.
  intros Hs. unfold return_pending_asserting.
  rewrite (pending_same w w') by done.
  destruct (pending w' x) as [[p|] x1]; [|done].
  rewrite (pending_same w w') by done.
  destruct (pending w' x1) as [p2 x2].
  destruct (expected p2); [by apply return_pending_same|done].
Qed.

Lemma fault_same (w w' : World) (frame : CompiledScriptFrame)
    (rest : list ExecutionFrame) (step : Auto) (exc : AutoException)
    (x : McpScriptExecutor) :
  same_sources w w' ->
  fault w frame rest step exc x = fault w' frame rest step exc x.
Proof. intros Hs. unfold fault. by apply return_pending_same. Qed.

Lemma finish_auto_same (w w' : World) (frame : CompiledScriptFrame)
    (rest : list ExecutionFrame) (step : Auto) (result : AutoResult)
    (detail : string) (x : McpScriptExecutor) :
  same_sources w w' ->
  finish_auto w frame rest step result detail x
  = finish_auto w' frame rest step result detail x.
Proof.
  intros Hs. unfold finish_auto, soft_failure.
  destruct (negb (auto_success result)); [|done].
  by apply return_pending_asserting_same.
Qed.

(** Once the auto step is executed, the pass does not touch the world. *)
Lemma after_auto_same (o : AutoStepOutcome) (w w' : World) (step : Auto)
    (frame : CompiledScriptFrame) (rest : list ExecutionFrame)
    (x : McpScriptExecutor) :
  same_sources w w' ->
  exists fl x',
    after_auto o w step frame rest x = (fl, (x', w))
    /\ after_auto o w' step frame rest x = (fl, (x', w')).
Proof.
  intros Hs. unfold after_auto.
  destruct o as [[r|r|r]|exc output|].
  - rewrite (finish_auto_same w w') by done.
    destruct (finish_auto w' _ _ _ _ _ _) as [fl x']. eauto.
  - rewrite (finish_auto_same w w') by done.
    destruct (finish_auto w' _ _ _ _ _ _) as [fl x']. eauto.
  - rewrite (fault_same w w') by done.
    destruct (fault w' _ _ _ _ _) as [fl x']. eauto.
  - rewrite (fault_same w w') by done.
    destruct (fault w' _ _ _ _ _) as [fl x']. eauto.
  - eauto.
Qed.

(** A pass that executes an auto step. *)
Lemma loop_body_auto (x : McpScriptExecutor) (w : World) (step : Auto)
    (frame : CompiledScriptFrame) (rest : list ExecutionFrame) :
  next_auto x = Some (step, frame, rest) ->
  loop_body (x, w)
  = after_auto (_execute_auto_step step frame w).1
      (_execute_auto_step step frame w).2 step frame rest
      (with_stack (Compiled frame :: rest) x).
Proof.
  unfold next_auto, loop_body.
  destruct (stack x) as [|[top|top] rest0]; try done.
  destruct (exception top); [done|].
  destruct (current_step top) as [[[s|s|s]|] top1]; try done.
  intros [= -> -> ->].
  destruct (_execute_auto_step step frame w) as [[[r|r|r]|exc output|] w1]; done.
Qed.

(** A pass that executes none leaves the world as it is and depends on it
    through the sources only. *)
Lemma loop_body_quiet (x : McpScriptExecutor) (w w' : World) :
  next_auto x = None -> same_sources w w' ->
  exists fl x',
    loop_body (x, w) = (fl, (x', w)) /\ loop_body (x, w') = (fl, (x', w')).
Proof.
  intros Hnext Hs. unfold next_auto in Hnext. unfold loop_body.
  destruct (stack x) as [|[top|top] rest] eqn:Hstack.
  - eauto.
  - destruct (exception top).
    { rewrite (return_pending_same w w') by done.
      destruct (return_pending w' x) as [fl x']. eauto. }
    destruct (current_step top) as [[[s|s|s]|] top1]; try done.
    + rewrite (return_pending_asserting_same _ w w') by done.
      destruct (return_pending_asserting _ w' _) as [fl x']. eauto.
    + destruct Hs as [Hload Hnl]. rewrite (Hload _ _).
      destruct (load_script (name s) (request s) w') as [body target|target|msg].
      * eauto.
      * rewrite (return_pending_asserting_same _ w w') by done.
        destruct (return_pending_asserting _ w' _) as [fl x']. eauto.
      * destruct (_advance_frame _ _) as [[|e] x']; eauto.
    + destruct (_pop_frame _) as [[|e] x']; eauto.
  - rewrite (return_pending_same w w') by done.
    destruct (return_pending w' x) as [fl x']. eauto.
Qed.

Lemma continue_after_llm_same (outputs : PyDictOf PyValue) (w w' : World)
    (x : McpScriptExecutor) :
  same_sources w w' ->
  continue_after_llm outputs w x = continue_after_llm outputs w' x.
Proof.
  intros Hs. unfold continue_after_llm.
  rewrite (pending_same w w') by done.
  destruct (pending w' x) as [p x1].
  destruct (is_PendingNLScript p || is_PendingNLFallback p); [done|].
  by rewrite (pending_same w w') by done.
Qed.

Lemma complete_nl_script_same (w w' : World) (x : McpScriptExecutor) :
  same_sources w w' -> complete_nl_script w x = complete_nl_script w' x.
Proof.
  intros Hs. unfold complete_nl_script.
  rewrite (pending_same w w') by done.
  destruct (pending w' x) as [p x1].
  destruct (is_PendingNLScript p); [done|].
  by rewrite (pending_same w w') by done.
Qed.

Lemma status_same (w w' : World) (x : McpScriptExecutor) :
  same_sources w w' -> status w x = status w' x.
Proof.
  intros Hs. unfold status.
  rewrite (pending_same w w') by done.
  destruct (pending w' x) as [[p|] x1]; [|done].
  by rewrite (pending_same w w') by done.
Qed.

Lemma push_script_same (name arguments working_dir : string) (w w' : World)
    (x : McpScriptExecutor) :
  same_sources w w' ->
  push_script name arguments working_dir w x
  = push_script name arguments working_dir w' x.
Proof. intros [Hload _]. unfold push_script. by rewrite (Hload _ _). Qed.

Lemma respond_split (r : Outcome RunResult * (McpScriptExecutor * World)) :
  respond r = (response_of r.1, r.2).
Proof.
  destruct r as [[result|e|] s]; try done.
  cbn. by destruct (_handle_run_result result).
Qed.

(** ** The four operations *)

Lemma start_ends_in_the_loop (fuel : nat) (name arguments : string)
    (working_dir : option string) :
  ends_in_the_loop fuel (start fuel name arguments working_dir).
Proof.
  intros x w w' Hs. unfold start.
  rewrite (push_script_same _ _ _ w w') by done.
  destruct (push_script _ _ _ w' x) as [[|e] x1]; [eauto|].
  left. destruct e; eauto.
Qed.

Lemma continue_ends_in_the_loop (fuel : nat) (outputs : PyDictOf PyValue) :
  ends_in_the_loop fuel (continue_compiled_script fuel outputs).
Proof.
  intros x w w' Hs. unfold continue_compiled_script.
  rewrite (pending_same w w') by done.
  destruct (pending w' x) as [p1 x1].
  destruct (is_PendingNLScript p1).
  { rewrite (pending_same w w') by done.
    destruct (pending w' x1) as [[[]|] x2]; eauto. }
  rewrite (pending_same w w') by done.
  destruct (pending w' x1) as [p2 x2].
  destruct (is_PendingNLFallback p2).
  { rewrite (pending_same w w') by done.
    destruct (pending w' x2) as [[[]|] x3]; eauto. }
  rewrite (pending_same w w') by done.
  destruct (pending w' x2) as [[p3|] x3]; [|eauto].
  rewrite (continue_after_llm_same outputs w w') by done.
  destruct (continue_after_llm outputs w' x3) as [[[|]|e] x4]; eauto.
Qed.

Lemma finish_ends_in_the_loop (fuel : nat) :
  ends_in_the_loop fuel (finish_nl_script fuel).
Proof.
  intros x w w' Hs. unfold finish_nl_script.
  rewrite (pending_same w w') by done.
  destruct (pending w' x) as [p1 x1].
  destruct (negb (is_PendingNLScript p1 || is_PendingNLFallback p1)).
  { rewrite (pending_same w w') by done.
    destruct (pending w' x1) as [p2 x2]. destruct (is_PendingLlmStep p2); eauto. }
  rewrite (complete_nl_script_same w w') by done.
  destruct (complete_nl_script w' x1) as [[|e] x2]; eauto.
Qed.

Lemma status_ends_in_the_loop (fuel : nat) : ends_in_the_loop fuel status_op.
Proof.
  intros x w w' Hs. unfold status_op. cbn [fst snd].
  rewrite (status_same w w') by done.
  destruct (status w' x) as [[response|e] x1]; eauto.
Qed.

End WithHost.

End SourcesProps.

(** * Properties of recording and replay *)

Module VcrAutoProps.
Import Cassette Runtime Executor FromDict CassetteFile VcrAuto VcrServer VcrVocabulary.
Import Server SourcesProps.

(** ** Equality of values *)

Lemma PyValue_nested_ind (P : PyValue -> Prop) :
  P PyNone -> (forall b, P (PyBool b)) -> (forall z, P (PyInt z)) ->
  (forall s, P (PyStr s)) ->
  (forall l, Forall P l -> P (PyList l)) ->
  (forall d, Forall (fun kv => P kv.2) d -> P (PyDict d)) ->
  forall v, P v.
Proof.
  intros HNone HBool HInt HStr HList HDict.
  fix IH 1. intros [| b | z | s | l | d].
  - exact HNone.
  - apply HBool.
  - apply HInt.
  - apply HStr.
  - apply HList. induction l as [|x l IHl]; constructor; [apply IH|exact IHl].
  - apply HDict. induction d as [|[k x] d IHd]; constructor; [apply IH|exact IHd].
Qed.

Lemma py_eq_dict (d e : PyDictOf PyValue) :
  py_eq (PyDict d) (PyDict e)
  = Nat.eqb (length d) (length e)
    && forallb (fun kv => existsb (fun kv' => bool_decide (kv.1 = kv'.1)
                                              && py_eq kv.2 kv'.2) e) d.
Proof.
  cbn [py_eq]. f_equal.
  induction d as [|[k v] d IH]; [done|].
  simpl. rewrite <- IH. f_equal. clear IH.
  induction e as [|[k' v'] e IHe]; [done|].
  simpl. f_equal. exact IHe.
Qed.

Lemma py_eq_refl (v : PyValue) : py_eq v v = true.
Proof.
  induction v as [| b | z | s | l IH | d IH] using PyValue_nested_ind.
  - done.
  - by destruct b.
  - apply Z.eqb_refl.
  - by apply bool_decide_eq_true.
  - induction IH as [|x l Hx _ IHl]; [done|].
    cbn [py_eq] in *. by rewrite Hx, IHl.
  - rewrite py_eq_dict, Nat.eqb_refl. cbn [andb].
    apply forallb_forall. intros [k x] Hin.
    apply existsb_exists. exists (k, x). split; [done|].
    cbn [fst snd]. rewrite bool_decide_eq_true_2 by done.
    rewrite Forall_forall in IH. apply (IH (k, x)). by apply list_elem_of_In.
Qed.

Lemma inputs_eq_refl (i : AutoStepInputs) : inputs_eq i i = true.
Proof.
  unfold inputs_eq. rewrite !bool_decide_eq_true_2 by done.
  destruct (kwargs i); [apply py_eq_refl|done].
Qed.

(** ** One auto step *)

Lemma reconstruct_build (step : Auto) (result : AutoResult) (working_dir : string) :
  reconstruct_auto_step_result
    (build_recorded_auto_step_event step result working_dir) = result.
Proof. by destruct result as [[]|[]|[? [] ? ?]]. Qed.

Section Vcr.
Context `{S : Surroundings} `{R : Repr} `{E : YamlEmitter}.

#[local] Existing Instance vcr_host.

Local Abbreviation auto_step := (_execute_auto_step (H := vcr_host)).

Ltac vcr_norm := cbn [World vcr_host fst snd] in *.

Lemma save_keeps (c : VCRCassette) :
  _events (save c).1 = _events c /\ mode (save c).1 = mode c.
Proof.
  unfold save. repeat case_bool_decide; try done.
  by destruct (drop _ _).
Qed.

Lemma record_and_save_recording (event : VcrEvent) (w : VcrWorld) :
  mode (cassette w) = ModeRecord ->
  exists w', record_and_save event w = (Ok tt, w')
             /\ taped w' = taped w ++ [event]
             /\ mode (cassette w') = ModeRecord
             /\ machine w' = machine w.
Proof.
  intros Hmode. unfold record_and_save, record_event, bind, gets, modify.
  rewrite Hmode. cbn [bool_decide decide_rel].
  rewrite bool_decide_eq_false_2 by (by intros []).
  pose proof (save_keeps (set_events (fun evs => evs ++ [event]) (cassette w)))
    as [Hev Hm].
  destruct (save _) as [c ops]. eexists. split; [done|].
  unfold taped. cbn in *. by rewrite Hev, Hm.
Qed.

Lemma consume_event_at (c : VCRCassette) (cls : option EventClass)
    (event : VcrEvent) :
  mode c = ModeReplay ->
  _events c !! _replay_event_index c = Some event ->
  (forall k, cls = Some k -> type_of event = k) ->
  consume_event cls c = (Ok event, set_replay_event_index (fun n => n + 1) c).
Proof.
  intros Hmode Hev Hcls.
  unfold consume_event, bind, gets, modify, raise, ret. rewrite Hmode.
  rewrite (bool_decide_eq_false_2 (ModeReplay <> ModeReplay)) by (by intros []).
  apply lookup_lt_Some in Hev as Hlt.
  rewrite bool_decide_eq_false_2 by lia. rewrite Hev.
  destruct cls as [k|]; [|done].
  unfold isinstance. by rewrite bool_decide_eq_true_2 by auto.
Qed.

(** Recording: a run of the inner executor that ends with a result is
    passed on and recorded as one event. *)
Lemma recording_step (step : Auto) (frame : CompiledScriptFrame) (w : VcrWorld) :
  mode (cassette w) = ModeRecord ->
  ends_with_result (inner_execute step (c_working_dir frame) (machine w)).1 ->
  exists final w',
    final_of step (inner_execute step (c_working_dir frame) (machine w)).1
    = Some final
    /\ _execute_auto_step step frame w = (AutoReturned final, w')
    /\ taped w'
       = taped w ++ [EvAutoStep (build_recorded_auto_step_event step final
                                   (c_working_dir frame))]
    /\ mode (cassette w') = ModeRecord
    /\ machine w' = (inner_execute step (c_working_dir frame) (machine w)).2.
Proof.
  intros Hmode Hends.
  unfold _execute_auto_step. cbn [execute vcr_host].
  unfold VcrAutoExecutor_execute. rewrite Hmode.
  destruct (inner_execute step (c_working_dir frame) (machine w))
    as [[ys en] m].
  unfold ends_with_result, final_of in *. cbn [fst snd inner_ending inner_yielded] in *.
  set (w0 := {| cassette := cassette w; file := file w; machine := m |}).
  assert (forall final,
            exists w', record_and_save
                         (EvAutoStep (build_recorded_auto_step_event step final
                                        (c_working_dir frame))) w0 = (Ok tt, w')
              /\ taped w'
                 = taped w ++ [EvAutoStep (build_recorded_auto_step_event step final
                                             (c_working_dir frame))]
              /\ mode (cassette w') = ModeRecord /\ machine w' = m) as Hrec.
  { intros final. by apply (record_and_save_recording _ w0). }
  destruct en as [|exc output|exc|exc]; [| | done |].
  - rewrite app_nil_r.
    destruct (last ys) as [final|] eqn:Hlast.
    2: { by apply last_None in Hlast. }
    destruct (Hrec final) as (w' & -> & Htape & Hm & Hmach).
    exists final, w'. cbn. by rewrite Hlast.
  - rewrite last_snoc.
    destruct (Hrec (raised_result step exc output)) as (w' & -> & Htape & Hm & Hmach).
    exists (raised_result step exc output), w'. cbn. by rewrite last_snoc.
  - rewrite last_snoc.
    destruct (Hrec (raised_result step exc "")) as (w' & -> & Htape & Hm & Hmach).
    exists (raised_result step exc ""), w'. cbn. by rewrite last_snoc.
Qed.

(** Replay: on the event recorded for the step, the recorded result comes
    back, the event is consumed, and nothing else changes. *)
Lemma replaying_step (step : Auto) (frame : CompiledScriptFrame) (w : VcrWorld)
    (final : AutoResult) :
  mode (cassette w) = ModeReplay ->
  _events (cassette w) !! _replay_event_index (cassette w)
  = Some (EvAutoStep (build_recorded_auto_step_event step final
                        (c_working_dir frame))) ->
  _execute_auto_step step frame w
  = (AutoReturned final,
     with_cassette (set_replay_event_index (fun n => n + 1) (cassette w)) w).
Proof.
  intros Hmode Hev.
  unfold _execute_auto_step. cbn [execute vcr_host].
  unfold VcrAutoExecutor_execute. rewrite Hmode.
  rewrite (consume_event_at _ _ _ Hmode Hev) by (by intros ? [= <-]).
  cbn [build_recorded_auto_step_event step_inputs step_working_dir].
  rewrite inputs_eq_refl. cbn [negb].
  rewrite bool_decide_eq_true_2 by done. cbn [negb ending yielded last].
  by rewrite reconstruct_build.
Qed.

(** ** Replay follows the recording *)

Lemma stable_same (w w' : VcrWorld) : stable_sources -> same_sources w w'.
Proof. intros [Hs Hn]. split; intros; cbn; [apply Hs|apply Hn]. Qed.

Lemma prefix_snoc_lookup {A} (l tape : list A) (a : A) :
  l ++ [a] `prefix_of` tape -> tape !! length l = Some a.
Proof.
  intros [k ->]. rewrite <- app_assoc.
  rewrite lookup_app_r by lia. by rewrite Nat.sub_diag.
Qed.

Lemma execute_grows (step : Auto) (frame : CompiledScriptFrame) :
  inner_ends_with_result ->
  grows (fun s : VcrState =>
           let r := _execute_auto_step step frame s.2 in (r.1, (s.1, r.2))).
Proof.
  intros Hends x w Hmode. cbn [fst snd].
  destruct (recording_step step frame w Hmode (Hends _ _ _))
    as (final & w1 & _ & -> & Htape & Hm & _).
  cbn [fst snd]. split; [done|]. rewrite Htape. by apply prefix_app_r.
Qed.

Lemma execute_replays (tape : list VcrEvent) (step : Auto)
    (frame : CompiledScriptFrame) :
  inner_ends_with_result ->
  replays tape (fun s : VcrState =>
                  let r := _execute_auto_step step frame s.2 in (r.1, (s.1, r.2))).
Proof.
  intros Hends x w w' (Hrec & Hrep & Htape & Hpre & Hpos). cbn [fst snd].
  destruct (recording_step step frame w Hrec (Hends _ _ _))
    as (final & w1 & _ & -> & Hw1 & Hm & _).
  cbn [fst snd]. intros Hpre1. unfold taped in *. rewrite Hw1 in Hpre1.
  pose proof (prefix_snoc_lookup _ _ _ Hpre1) as Hev.
  rewrite (replaying_step step frame w' final Hrep).
  2: { rewrite Htape, Hpos. exact Hev. }
  eexists. split; [done|]. split; [|done].
  repeat split; try done.
  - by rewrite Hw1.
  - cbn. rewrite Hpos, Hw1, length_app. done.
Qed.

Lemma grows_refl {B} (b : B) : grows (fun s : VcrState => (b, s)).
Proof. intros x w Hmode. split; [done|reflexivity]. Qed.

Lemma loop_body_grows : inner_ends_with_result -> stable_sources -> grows loop_body.
Proof.
  intros Hends Hstable x w Hmode.
  destruct (next_auto x) as [[[step frame] rest]|] eqn:Hnext.
  - pose proof (loop_body_auto (H := vcr_host) x w step frame rest Hnext) as Hw.
    destruct (execute_grows step frame Hends x w Hmode) as [Hm Hpre].
    destruct (after_auto_same (H := vcr_host) (auto_step step frame w).1
                (auto_step step frame w).2
                (auto_step step frame w).2 step frame rest
                (with_stack (Compiled frame :: rest) x))
      as (fl & x' & Ha & _); [by apply stable_same|].
    vcr_norm. rewrite Hw, Ha. by split.
  - destruct (loop_body_quiet (H := vcr_host) x w w Hnext) as (fl & x' & Hq & _);
      [by apply stable_same|].
    vcr_norm. rewrite Hq. split; [done|reflexivity].
Qed.

Lemma loop_body_replays (tape : list VcrEvent) :
  inner_ends_with_result -> stable_sources -> replays tape loop_body.
Proof.
  intros Hends Hstable x w w' Hfollows.
  destruct (next_auto x) as [[[step frame] rest]|] eqn:Hnext.
  - pose proof (loop_body_auto (H := vcr_host) x w step frame rest Hnext) as Hw.
    pose proof (loop_body_auto (H := vcr_host) x w' step frame rest Hnext) as Hw'.
    pose proof (execute_replays tape step frame Hends x w w' Hfollows) as Hexec.
    destruct (after_auto_same (H := vcr_host) (auto_step step frame w).1
                (auto_step step frame w).2
                (auto_step step frame w).2 step frame rest
                (with_stack (Compiled frame :: rest) x))
      as (fl & x' & Hafter & _); [by apply stable_same|].
    vcr_norm. rewrite Hw, Hw', Hafter. clear Hw Hw'. cbn [fst snd]. intros Hpre.
    destruct (Hexec Hpre) as (w2 & Hexec' & Hfollows' & Hsealed).
    injection Hexec' as Ho Hw. rewrite Ho, Hw.
    destruct (after_auto_same (H := vcr_host) (auto_step step frame w).1
                (auto_step step frame w).2 w2 step frame rest
                (with_stack (Compiled frame :: rest) x))
      as (fl2 & x2 & Hafter2 & Hafter3); [by apply stable_same|].
    vcr_norm. rewrite Hafter in Hafter2. injection Hafter2 as <- <-.
    rewrite Hafter3. by exists w2.
  - destruct (loop_body_quiet (H := vcr_host) x w w' Hnext) as (fl & x' & Hw & Hw');
      [by apply stable_same|].
    vcr_norm. rewrite Hw, Hw'.
    intros _. by exists w'.
Qed.

Lemma run_until_llm_grows (fuel : nat) :
  inner_ends_with_result -> stable_sources -> grows (run_until_llm fuel).
Proof.
  intros Hends Hstable. induction fuel as [|fuel IH]; intros x w Hmode.
  - cbn [run_until_llm fst snd]. by destruct (stack x).
  - cbn [run_until_llm fst snd]. destruct (stack x) eqn:Hstack; [done|].
    destruct (loop_body_grows Hends Hstable x w Hmode) as [Hm Hpre].
    match goal with
    | |- context [@loop_body ?h ?s] =>
        destruct (@loop_body h s) as [[|r|e0] [x1 w1]]
    end; cbn [fst snd] in *; [|done..].
    destruct (IH x1 w1 Hm) as [Hm2 Hpre2].
    split; [done|]. by etrans.
Qed.

Lemma run_until_llm_replays (tape : list VcrEvent) (fuel : nat) :
  inner_ends_with_result -> stable_sources -> replays tape (run_until_llm fuel).
Proof.
  intros Hends Hstable.
  induction fuel as [|fuel IH]; intros x w w' Hfollows.
  - cbn [run_until_llm fst snd]. destruct (stack x); intros _; by exists w'.
  - cbn [run_until_llm fst snd]. destruct (stack x) eqn:Hstack.
    { intros _. by exists w'. }
    pose proof (loop_body_replays tape Hends Hstable x w w' Hfollows) as Hpass.
    pose proof (loop_body_grows Hends Hstable x w (proj1 Hfollows)) as [Hm Hpre].
    match goal with
    | |- context [@loop_body ?h ?s] =>
        destruct (@loop_body h s) as [[|r|e0] [x1 w1]] eqn:Hbody
    end; cbn [fst snd] in *.
    + intros Hend.
      pose proof (run_until_llm_grows fuel Hends Hstable x1 w1 Hm) as [_ Hpre2].
      destruct Hpass as (w2 & -> & Hfollows2 & Hmach & Hfile); [by etrans|].
      destruct (IH x1 w1 w2 Hfollows2 Hend) as (w3 & -> & Hfollows3 & Hmach3 & Hfile3).
      exists w3. split; [done|]. split; [exact Hfollows3|]. split; congruence.
    + intros Hend. destruct (Hpass Hend) as (w2 & -> & Hfollows2 & Hsealed).
      by exists w2.
    + intros Hend. destruct (Hpass Hend) as (w2 & -> & Hfollows2 & Hsealed).
      by exists w2.
Qed.

(** *** The four operations of the inner server *)

Lemma grows_map {B C} (g : B -> C) (op : VcrState -> B * VcrState) :
  grows op -> grows (fun s => (g (op s).1, (op s).2)).
Proof. intros Hop x w Hmode. exact (Hop x w Hmode). Qed.

Lemma replays_map {B C} (tape : list VcrEvent) (g : B -> C)
    (op : VcrState -> B * VcrState) :
  replays tape op -> replays tape (fun s => (g (op s).1, (op s).2)).
Proof.
  intros Hop x w w' Hfollows Hpre.
  destruct (Hop x w w' Hfollows Hpre) as (w2 & Heq & Hrest).
  exists w2. split; [|done]. cbn [fst snd]. by rewrite Heq.
Qed.

Lemma quiet_grows {B} (b : B) (x' : McpScriptExecutor) (x : McpScriptExecutor)
    (w : VcrWorld) :
  mode (cassette w) = ModeRecord ->
  mode (cassette (b, (x', w)).2.2) = ModeRecord
  /\ taped w `prefix_of` taped (b, (x', w)).2.2.
Proof. intros Hmode. split; [done|reflexivity]. Qed.

Section Operations.
Context (Hends : inner_ends_with_result) (Hstable : stable_sources).

Lemma responding_grows (fuel : nat) :
  grows (fun s : VcrState => respond (run_until_llm fuel s)).
Proof using Hends Hstable.
  intros x w Hmode. rewrite respond_split.
  exact (run_until_llm_grows fuel Hends Hstable x w Hmode).
Qed.

Lemma responding_replays (tape : list VcrEvent) (fuel : nat) :
  replays tape (fun s : VcrState => respond (run_until_llm fuel s)).
Proof using Hends Hstable.
  intros x w w' Hfollows. rewrite !respond_split.
  exact (replays_map tape response_of _
           (run_until_llm_replays tape fuel Hends Hstable) x w w' Hfollows).
Qed.

Lemma loop_end_grows (fuel : nat)
    (op : VcrState -> Outcome string * VcrState) :
  ends_in_the_loop (H := vcr_host) fuel op -> grows op.
Proof using Hends Hstable.
  intros Hop x w Hmode.
  destruct (Hop x w w (stable_same w w Hstable))
    as [(o & x' & Heq & _)|(x1 & Heq & _)]; vcr_norm; rewrite Heq.
  - split; [done|reflexivity].
  - exact (responding_grows fuel x1 w Hmode).
Qed.

Lemma loop_end_replays (tape : list VcrEvent) (fuel : nat)
    (op : VcrState -> Outcome string * VcrState) :
  ends_in_the_loop (H := vcr_host) fuel op -> replays tape op.
Proof using Hends Hstable.
  intros Hop x w w' Hfollows.
  destruct (Hop x w w' (stable_same w w' Hstable))
    as [(o & x' & Heq & Heq')|(x1 & Heq & Heq')]; vcr_norm; rewrite Heq, Heq'.
  - intros _. by exists w'.
  - exact (responding_replays tape fuel x1 w w' Hfollows).
Qed.

(** *** A recorded call *)

Lemma record_event_recording (event : VcrEvent) (c : VCRCassette) :
  mode c = ModeRecord ->
  record_event event c = (Ok tt, set_events (fun evs => evs ++ [event]) c).
Proof.
  intros Hmode. unfold record_event, bind, gets, modify. rewrite Hmode.
  by rewrite bool_decide_eq_false_2 by (by intros []).
Qed.

Lemma has_remaining_events_replaying (c : VCRCassette) :
  mode c = ModeReplay ->
  has_remaining_events c
  = (Ok (bool_decide (_replay_event_index c < length (_events c))), c).
Proof.
  intros Hmode. unfold has_remaining_events, bind, gets, ret. rewrite Hmode.
  by rewrite bool_decide_eq_false_2 by (by intros []).
Qed.

(** What a recorded call that returns has done. *)
Lemma recorded_call_returned (method : string) (input : VcrEvent)
    (inner : VcrState -> Outcome string * VcrState)
    (x x1 : McpScriptExecutor) (w w3 : VcrWorld) (response : string) :
  mode (cassette w) = ModeRecord ->
  grows inner ->
  recorded_call method input inner (x, w) = (Returned response, (x1, w3)) ->
  exists w2,
    inner (x, with_cassette (set_events (fun evs => evs ++ [input]) (cassette w)) w)
    = (Returned response, (x1, w2))
    /\ taped w ++ [input] `prefix_of` taped w2
    /\ mode (cassette w2) = ModeRecord
    /\ taped w3 = taped w2 ++ [EvToolOutput {| out_tool := method;
                                               out_output := response |}]
    /\ mode (cassette w3) = ModeRecord.
Proof using Type.
  intros Hmode Hgrows. unfold recorded_call. rewrite Hmode.
  rewrite (record_event_recording input _ Hmode).
  set (w1 := with_cassette _ w). intros Hcall.
  destruct (Hgrows x w1 Hmode) as [Hm2 Hpre2].
  destruct (inner (x, w1)) as [[r|e|] [x2 w2]]; [|done..].
  cbn [fst snd] in *.
  destruct (record_and_save_recording
              (EvToolOutput {| out_tool := method; out_output := r |}) w2 Hm2)
    as (w3' & Hrs & Htape & Hm3 & _).
  rewrite Hrs in Hcall. injection Hcall as -> -> ->.
  exists w2. done.
Qed.

Lemma recorded_call_grows (method : string) (input : VcrEvent)
    (inner : VcrState -> Outcome string * VcrState) :
  grows inner -> grows (recorded_call method input inner).
Proof using Type.
  intros Hgrows x w Hmode. unfold recorded_call. rewrite Hmode.
  rewrite (record_event_recording input _ Hmode).
  set (w1 := with_cassette _ w).
  destruct (Hgrows x w1 Hmode) as [Hm2 Hpre2].
  assert (taped w `prefix_of` taped w1) as Hpre1 by (by apply prefix_app_r).
  destruct (inner (x, w1)) as [[r|e|] [x2 w2]]; cbn [fst snd] in *.
  - destruct (record_and_save_recording
                (EvToolOutput {| out_tool := method; out_output := r |}) w2 Hm2)
      as (w3 & -> & Htape & Hm3 & _).
    cbn [fst snd]. split; [done|]. rewrite Htape.
    etrans; [exact Hpre1|]. etrans; [exact Hpre2|]. by apply prefix_app_r.
  - split; [done|]. by etrans.
  - split; [done|]. by etrans.
Qed.

(** One turn of the driver on a call that was recorded. *)
Lemma driver_turn (tape : list VcrEvent) (method : string) (input : VcrEvent)
    (inner : VcrState -> Outcome string * VcrState) (fuel turns : nat)
    (x x1 : McpScriptExecutor) (w w3 w' : VcrWorld) (response : string) :
  grows inner -> replays tape inner ->
  replayed fuel input = Some (recorded_call method input inner) ->
  follows tape w w' ->
  recorded_call method input inner (x, w) = (Returned response, (x1, w3)) ->
  taped w3 `prefix_of` tape ->
  exists w4,
    run (Datatypes.S turns) fuel (x, w') = run turns fuel (x1, w4)
    /\ follows tape w3 w4
    /\ machine w4 = machine w' /\ file w4 = file w'.
Proof using Type.
  intros Hgrows Hreplays Hreplayed Hfollows Hcall Hpre3.
  pose proof Hfollows as (Hrec & Hrep & Htape & Hpre & Hpos).
  destruct (recorded_call_returned _ _ _ _ _ _ _ _ Hrec Hgrows Hcall)
    as (w2 & Hinner & Hpre2 & Hm2 & Htape3 & Hm3).
  set (w1 := with_cassette (set_events (fun evs => evs ++ [input]) (cassette w)) w)
    in *.
  assert (taped w2 ++ [EvToolOutput {| out_tool := method; out_output := response |}]
          `prefix_of` tape) as Hout by (by rewrite <- Htape3).
  assert (taped w2 `prefix_of` tape) as Hpre2'.
  { etrans; [|exact Hout]. by apply prefix_app_r. }
  assert (taped w ++ [input] `prefix_of` tape) as Hin.
  { etrans; [exact Hpre2|exact Hpre2']. }
  pose proof (prefix_snoc_lookup _ _ _ Hin) as Hinput.
  pose proof (prefix_snoc_lookup _ _ _ Hout) as Houtput.
  cbn [run].
  rewrite (has_remaining_events_replaying _ Hrep).
  apply lookup_lt_Some in Hinput as Hlt. unfold taped in *.
  rewrite bool_decide_eq_true_2 by (rewrite Htape, Hpos; exact Hlt).
  rewrite (consume_event_at (cassette w') None input Hrep)
    by (try done; rewrite Htape, Hpos; exact Hinput).
  rewrite Hreplayed.
  set (w1' := with_cassette (set_replay_event_index (fun n => n + 1) (cassette w')) w').
  assert (follows tape w1 w1') as Hfollows1.
  { repeat split; try done. cbn. rewrite length_app, Hpos. done. }
  assert (taped (inner (x, w1)).2.2 `prefix_of` tape) as Hpre_inner.
  { rewrite Hinner. exact Hpre2'. }
  destruct (Hreplays x w1 w1' Hfollows1 Hpre_inner)
    as (w2' & Hinner' & Hfollows2 & Hmach2 & Hfile2).
  rewrite Hinner in Hinner', Hfollows2. cbn [fst snd] in Hinner', Hfollows2.
  destruct Hfollows2 as (_ & Hrep2 & Htape2 & _ & Hpos2).
  unfold recorded_call.
  replace (mode (cassette w1')) with ModeReplay by done.
  rewrite Hinner'.
  rewrite (consume_event_at (cassette w2') (Some ClsMcpToolOutputEvent)
             (EvToolOutput {| out_tool := method; out_output := response |}) Hrep2)
    by (try (by intros ? [= <-]); rewrite Htape2, Hpos2; exact Houtput).
  cbn [out_output]. rewrite bool_decide_eq_true_2 by done. cbn [negb].
  eexists. split; [reflexivity|]. split; [|by split].
  repeat split; try done.
  cbn. rewrite Htape3, length_app, Hpos2. done.
Qed.


(** *** A session *)

Lemma tool_recorded (fuel : nat) (c : ToolCall) :
  exists method inner,
    tool fuel c = recorded_call method (input_of c) inner
    /\ ends_in_the_loop (H := vcr_host) fuel inner
    /\ replayed fuel (input_of c) = Some (recorded_call method (input_of c) inner).
Proof using Type.
  destruct c as [name arguments working_dir|outputs| |].
  - exists "start", (Server.start fuel name arguments working_dir).
    split; [done|]. split; [apply start_ends_in_the_loop|done].
  - exists "continue_compiled_script", (Server.continue_compiled_script fuel outputs).
    split; [done|]. split; [apply continue_ends_in_the_loop|done].
  - exists "finish_nl_script", (Server.finish_nl_script fuel).
    split; [done|]. split; [apply finish_ends_in_the_loop|done].
  - exists "status", (status_op (H := vcr_host)).
    split; [done|]. split; [apply status_ends_in_the_loop|done].
Qed.

Lemma tool_grows (fuel : nat) (c : ToolCall) : grows (tool fuel c).
Proof using Hends Hstable.
  destruct (tool_recorded fuel c) as (method & inner & -> & Hinner & _).
  apply recorded_call_grows. by apply (loop_end_grows fuel).
Qed.

Lemma tools_grows (fuel : nat) (cs : list ToolCall) : grows (tools fuel cs).
Proof using Hends Hstable.
  induction cs as [|c cs IH]; intros x w Hmode.
  { split; [done|reflexivity]. }
  cbn [tools]. destruct (tool_grows fuel c x w Hmode) as [Hm1 Hpre1].
  destruct (tool fuel c (x, w)) as [[r|e|] [x1 w1]]; cbn [fst snd] in *; [|done..].
  destruct (IH x1 w1 Hm1) as [Hm2 Hpre2].
  destruct (tools fuel cs (x1, w1)) as [[rs|e|] [x2 w2]]; cbn [fst snd] in *;
    (split; [done|by etrans]).
Qed.

(** The driver on the tape of a session follows the session to its end. *)
Lemma session_replays (tape : list VcrEvent) (fuel : nat) (cs : list ToolCall) :
  forall (x : McpScriptExecutor) (w w' : VcrWorld) (responses : list string)
         (s_end : VcrState) (turns : nat),
    follows tape w w' ->
    tools fuel cs (x, w) = (Returned responses, s_end) ->
    taped s_end.2 = tape ->
    length cs <= turns ->
    exists w_end,
      run turns fuel (x, w') = (Returned tt, (s_end.1, w_end))
      /\ follows tape s_end.2 w_end
      /\ machine w_end = machine w' /\ file w_end = file w'.
Proof using Hends Hstable.
  induction cs as [|c cs IH]; intros x w w' responses s_end turns Hfollows Htools Htape Hturns.
  - injection Htools as <- <-. cbn [fst snd] in *.
    pose proof Hfollows as (Hrec & Hrep & Hevents & Hpre & Hpos).
    exists w'. split; [|done].
    assert (run turns fuel (x, w') = (Returned tt, (x, with_cassette (cassette w') w')))
      as ->.
    { destruct turns; cbn [run]; rewrite (has_remaining_events_replaying _ Hrep);
        rewrite bool_decide_eq_false_2; try done;
        rewrite Hevents, Hpos, <- Htape; unfold taped; lia. }
    by destruct w'.
  - cbn [tools] in Htools.
    destruct (tool fuel c (x, w)) as [[r|e|] [x1 w1]] eqn:Htool; [|done..].
    destruct (tools fuel cs (x1, w1)) as [[rs|e|] s2] eqn:Hrest; [|done..].
    injection Htools as <- <-.
    destruct turns as [|turns]; [cbn in Hturns; lia|].
    destruct (tool_recorded fuel c) as (method & inner & Hc & Hinner & Hreplayed).
    rewrite Hc in Htool.
    pose proof (tool_grows fuel c x w (proj1 Hfollows)) as [Hm1 _].
    rewrite Hc, Htool in Hm1. cbn [fst snd] in Hm1.
    pose proof (tools_grows fuel cs x1 w1 Hm1) as [_ Hpre1].
    rewrite Hrest in Hpre1. cbn [fst snd] in Hpre1. rewrite Htape in Hpre1.
    destruct (driver_turn tape method (input_of c) inner fuel turns x x1 w w1 w' r
                (loop_end_grows fuel inner Hinner)
                (loop_end_replays tape fuel inner Hinner)
                Hreplayed Hfollows Htool Hpre1)
      as (w4 & -> & Hfollows4 & Hmach4 & Hfile4).
    destruct (IH x1 w1 w4 rs s2 turns Hfollows4 Hrest Htape) as (w_end & Hrun & Hf & Hm & Hfi).
    { cbn in Hturns. lia. }
    exists w_end. rewrite Hrun. split; [done|]. split; [exact Hf|].
    split; congruence.
Qed.

End Operations.

(** ** The round trips *)

(** X4.  An auto step that is recorded replays: when the inner executor
    ends with a result, recording passes that result on and adds exactly
    one event to the tape; replaying the step on a cassette positioned at
    that event gives the same result, consumes that one event, and touches
    neither the machine nor the cassette file. *)
Theorem recorded_step_replays (step : Auto) (frame : CompiledScriptFrame)
    (w : VcrWorld) :
  mode (cassette w) = ModeRecord ->
  ends_with_result (inner_execute step (c_working_dir frame) (machine w)).1 ->
  exists final w1,
    let event :=
      EvAutoStep (build_recorded_auto_step_event step final (c_working_dir frame)) in
    _execute_auto_step step frame w = (AutoReturned final, w1)
    /\ taped w1 = taped w ++ [event]
    /\ forall w',
         mode (cassette w') = ModeReplay ->
         _events (cassette w') !! _replay_event_index (cassette w') = Some event ->
         exists w2,
           _execute_auto_step step frame w' = (AutoReturned final, w2)
           /\ _replay_event_index (cassette w2)
              = _replay_event_index (cassette w') + 1
           /\ _events (cassette w2) = _events (cassette w')
           /\ machine w2 = machine w' /\ file w2 = file w'.
Proof.
  intros Hmode Hends.
  destruct (recording_step step frame w Hmode Hends)
    as (final & w1 & _ & Hexec & Htape & _).
  exists final, w1. cbn zeta. split; [done|]. split; [done|].
  intros w' Hreplay Hevent.
  rewrite (replaying_step step frame w' final Hreplay Hevent).
  by eexists.
Qed.

(** X5.  A recorded session replays.  When every call of a session on a
    recording server returns, the test driver on the cassette holding the
    recorded events runs to the end without raising: each response equals
    the recorded one, every event is consumed, the executor ends in the
    state in which the recording session left it, and neither the machine
    nor the cassette file is touched.  It takes that the inner executor
    ends each step with a result and that the scripts do not change. *)
Theorem recorded_session_replays (fuel : nat) (cs : list ToolCall)
    (p wd : string) (f f' : File) (m m' : Machine) (responses : list string)
    (s0 s_end : VcrState) (turns : nat) :
  inner_ends_with_result -> stable_sources ->
  recording_server p wd f m = Ok s0 ->
  tools fuel cs s0 = (Returned responses, s_end) ->
  length cs <= turns ->
  exists s0' w_end,
    MekaraServerTestDriver_init
      (loaded p [("working_dir", PyStr wd)] (taped s_end.2)) f' m' = Ok s0'
    /\ run turns fuel s0' = (Returned tt, (s_end.1, w_end))
    /\ _replay_event_index (cassette w_end) = length (taped s_end.2)
    /\ machine w_end = m' /\ file w_end = f'.
Proof.
  intros Hends Hstable Hserver Htools Hturns.
  injection Hserver as <-.
  set (w0' := {| cassette := loaded p [("working_dir", PyStr wd)] (taped s_end.2);
                 file := f'; machine := m' |}).
  set (w0 := {| cassette := new_record p [("working_dir", PyStr wd)];
                file := f; machine := m |}) in *.
  exists (new_executor wd, w0').
  destruct (session_replays Hends Hstable (taped s_end.2) fuel cs
              (new_executor wd) w0 w0' responses s_end turns)
    as (w_end & Hrun & Hfollows & Hmach & Hfile); try done.
  { repeat split; try done. apply prefix_nil. }
  exists w_end. split; [done|]. split; [done|]. split; [|done].
  by destruct Hfollows as (_ & _ & _ & _ & ->).
Qed.

End Vcr.

(** ** The real executor *)

Section Real.
Context `{P : Processes}.

Lemma real_ends_with_result
    (scripts : string -> string -> Computer -> LoadedScript)
    (nl_prompt : ResolvedTarget -> string -> Computer -> string) :
  inner_ends_with_result (S := real_surroundings scripts nl_prompt).
Proof.
  intros step working_dir m. cbn [inner_execute real_surroundings].
  unfold RealAutoExecutor_execute, _execute_shell, ends_with_result.
  destruct (Runtime.action step) as [cmd|func kw].
  - by destruct (subprocess cmd working_dir m) as [[exc|[[rc out] err]] m1].
  - by destruct (call_func func kw working_dir m) as [[[[exc|v] out] err] m1].
Qed.


End Real.

End VcrAutoProps.

(** * Properties of replay on its own *)

Module VcrReplayProps.
Import Cassette Runtime Executor FromDict CassetteFile VcrAuto VcrServer VcrVocabulary.
Import FromDictProps VcrAutoProps.

Section Vcr.
Context `{S : Surroundings} `{R : Repr} `{E : YamlEmitter}.

#[local] Existing Instance vcr_host.

(** [consume_event] in replay mode, by what is under the cursor. *)
Lemma consume_event_replaying (c : VCRCassette) (cls : EventClass) :
  mode c = ModeReplay ->
  match _events c !! _replay_event_index c with
  | Some event =>
      if isinstance event cls
      then consume_event (Some cls) c
           = (Ok event, set_replay_event_index (fun n => n + 1) c)
      else exists e, consume_event (Some cls) c = (Raise e, c)
  | None => exists e, consume_event (Some cls) c = (Raise e, c)
  end.
Proof.
  intros Hmode.
  unfold consume_event, bind, gets, modify, raise, ret. rewrite Hmode.
  rewrite (bool_decide_eq_false_2 (ModeReplay <> ModeReplay)) by (by intros []).
  destruct (_events c !! _replay_event_index c) as [event|] eqn:Hev.
  - apply lookup_lt_Some in Hev as Hlt.
    rewrite bool_decide_eq_false_2 by lia.
    destruct (isinstance event cls); cbn [negb]; eauto.
  - apply lookup_ge_None in Hev.
    rewrite bool_decide_eq_true_2 by lia. eauto.
Qed.

(** X7.  An auto step in replay mode.  The machine, the file and the
    events of the cassette are left alone, and the step never ends on the
    failed assertion.  It returns a result only when the event under the
    cursor is an auto step recorded with equal inputs in the same working
    directory: the result is the recorded one and the cursor moves by one.
    Everything else is an [AutoExecutionError] without output, a fault of
    the script: with the cursor where it was when the cassette is at its
    end or holds another kind of event there, and with the event consumed
    when its inputs or its working directory differ. *)
Theorem replayed_step_outcomes (step : Auto) (frame : CompiledScriptFrame)
    (w : VcrWorld) :
  mode (cassette w) = ModeReplay ->
  let out := _execute_auto_step (H := vcr_host) step frame w in
  let i := _replay_event_index (cassette w) in
  machine out.2 = machine w /\ file out.2 = file w
  /\ _events (cassette out.2) = _events (cassette w)
  /\ match out.1 with
     | AutoReturned result =>
         exists recorded,
           _events (cassette w) !! i = Some (EvAutoStep recorded)
           /\ inputs_eq (step_inputs recorded) (AutoStepInputs_from_step step) = true
           /\ step_working_dir recorded = c_working_dir frame
           /\ result = reconstruct_auto_step_result recorded
           /\ _replay_event_index (cassette out.2) = i + 1
     | AutoExecutionError exc output =>
         output = ""
         /\ match _events (cassette w) !! i with
            | Some (EvAutoStep recorded) =>
                (inputs_eq (step_inputs recorded) (AutoStepInputs_from_step step)
                 = false
                 \/ step_working_dir recorded <> c_working_dir frame)
                /\ _replay_event_index (cassette out.2) = i + 1
            | _ => _replay_event_index (cassette out.2) = i
            end
     | AutoAssertionError => False
     end.
Proof.
  intros Hmode. cbn zeta.
  unfold _execute_auto_step. cbn [execute vcr_host].
  unfold VcrAutoExecutor_execute. rewrite Hmode.
  pose proof (consume_event_replaying (cassette w) ClsAutoStepEvent Hmode) as Hc.
  destruct (_events (cassette w) !! _replay_event_index (cassette w))
    as [event|] eqn:Hev.
  2: { destruct Hc as [err ->]. by cbn. }
  destruct event as [?|?| | |?|recorded]; unfold isinstance in Hc; cbn [type_of] in Hc;
    try (rewrite bool_decide_eq_false_2 in Hc by done;
         destruct Hc as [err ->]; by cbn).
  rewrite bool_decide_eq_true_2 in Hc by done. rewrite Hc.
  destruct (inputs_eq (step_inputs recorded) (AutoStepInputs_from_step step))
    eqn:Hin; cbn [negb].
  2: { cbn. repeat (split; [done|]). split; [by left|done]. }
  case_bool_decide as Hwd; cbn [negb].
  2: { cbn. repeat (split; [done|]). split; [|done]. right. congruence. }
  cbn. repeat (split; [done|]). exists recorded. by rewrite Hin.
Qed.

(** X8.  A tool call in replay mode returns exactly when the inner server
    returns and the event then under the cursor is a tool output holding
    the same text: the response is the inner server's, and that one event
    is consumed.  Neither the tool named in the recorded output nor the
    input of the call is compared with anything. *)
Theorem replayed_response (method : string) (input : VcrEvent)
    (inner : VcrState -> Outcome string * VcrState)
    (x x' : McpScriptExecutor) (w w' : VcrWorld) (response : string) :
  mode (cassette w) = ModeReplay ->
  recorded_call method input inner (x, w) = (Returned response, (x', w'))
  <-> exists w1 tool,
        inner (x, w) = (Returned response, (x', w1))
        /\ mode (cassette w1) = ModeReplay
        /\ _events (cassette w1) !! _replay_event_index (cassette w1)
           = Some (EvToolOutput {| out_tool := tool; out_output := response |})
        /\ w' = with_cassette
                  (set_replay_event_index (fun n => n + 1) (cassette w1)) w1.
Proof.
  intros Hmode. unfold recorded_call. rewrite Hmode. split.
  - destruct (inner (x, w)) as [[r| |] [x1 w1]] eqn:Hinner; try done.
    destruct (mode (cassette w1)) eqn:Hm1.
    { unfold consume_event, bind, gets, raise. rewrite Hm1.
      by rewrite bool_decide_eq_true_2 by done. }
    pose proof (consume_event_replaying (cassette w1) ClsMcpToolOutputEvent Hm1) as Hc.
    destruct (_events (cassette w1) !! _replay_event_index (cassette w1))
      as [event|] eqn:Hev.
    2: { destruct Hc as [err ->]. done. }
    destruct event as [?|?| | |[tool output]|?]; unfold isinstance in Hc; cbn [type_of] in Hc;
      try (rewrite bool_decide_eq_false_2 in Hc by done;
           destruct Hc as [err ->]; done).
    rewrite bool_decide_eq_true_2 in Hc by done. rewrite Hc.
    cbn [out_output]. case_bool_decide as Hout; cbn [negb]; [|done].
    intros [= -> -> <-]. exists w1, tool. by subst.
  - intros (w1 & tool & -> & Hm1 & Hev & ->).
    rewrite (consume_event_at _ _ _ Hm1 Hev) by (by intros ? [= <-]).
    cbn [out_output]. by rewrite bool_decide_eq_true_2.
Qed.

(** X9.  A cassette that [_load] accepts and the test driver.  The driver
    starts, with the executor in the recorded working directory, exactly
    when [working_dir] holds a string.  [_load] only asks for the key: a
    cassette whose [working_dir] is null or of another type loads, and the
    driver's constructor raises. *)
Theorem loaded_cassette_and_driver (p : string) (data : PyValue)
    (c : VCRCassette) (f : File) (m : Machine) :
  _load p data = Built c ->
  match dict_lookup "working_dir" (initial_state c) with
  | Some (PyStr working_dir) =>
      MekaraServerTestDriver_init c f m
      = Ok (new_executor working_dir, {| cassette := c; file := f; machine := m |})
  | _ => exists e, MekaraServerTestDriver_init c f m = Raise e
  end.
Proof.
  intros Hload.
  apply load_shape in Hload as (_ & _ & init & events & _ & _ & _ & Hwd & _ & ->).
  unfold MekaraServerTestDriver_init, VcrMekaraServer_init, get_working_dir.
  cbn [loaded mode initial_state].
  rewrite bool_decide_eq_false_2 by (by intros []).
  destruct Hwd as [v ->]. destruct v; eauto.
Qed.

End Vcr.

End VcrReplayProps.
(** * The properties of recording and replay on the example scripts *)

Module VcrScenarioProps.
Import Cassette Runtime Executor FromDict CassetteFile VcrAuto VcrServer VcrVocabulary.
Import Scenarios VcrScenarios.

Lemma load_document_witness :
  _load (R := test_reprs) "cassette.yaml"
    (document BlockYaml.initial [BlockYaml.ev_start; BlockYaml.ev_started])
  = Built (loaded "cassette.yaml" BlockYaml.initial
             [BlockYaml.ev_start; BlockYaml.ev_started]).
Proof.
  apply (FromDictProps.load_document (R := test_reprs)).
  eexists. reflexivity.
Defined.

Lemma event_from_dict_known_witness :
  event_from_dict (R := test_reprs) old_record = Built old_record_read
  /\ type_of_data old_record = type_of_data (to_dict old_record_read)
  /\ forall k, k ∈ keys_of old_record ->
       k ∈ keys_of (to_dict old_record_read)
       \/ (k = "index" /\ type_of old_record_read = ClsAutoStepEvent).
Proof.
  split; [reflexivity|].
  apply (FromDictProps.event_from_dict_known (R := test_reprs)).
  reflexivity.
Defined.


Lemma recorded_step_replays_witness :
  exists final w1,
    _execute_auto_step (H := vcr_host (R := test_reprs) (E := BlockYaml.emitter))
      greet helper_frame studio.2 = (AutoReturned final, w1)
    /\ taped w1
       = [EvAutoStep (build_recorded_auto_step_event
                        greet final "/work")].
Proof.
  destruct (VcrAutoProps.recorded_step_replays
              (S := test_surroundings) (R := test_reprs) (E := BlockYaml.emitter)
              greet helper_frame studio.2)
    as (final & w1 & Hstep & Htape & _).
  - reflexivity.
  - vm_compute. discriminate.
  - exists final, w1. split; [exact Hstep|exact Htape].
Defined.

Lemma recorded_session_replays_witness :
  exists s0' w_end,
    MekaraServerTestDriver_init (S := test_surroundings)
      (loaded "cassette.yaml" [("working_dir", PyStr "/work")]
         (taped wrapper_recording.2.2)) None [] = Ok s0'
    /\ run (R := test_reprs) (E := BlockYaml.emitter) 3 10 s0'
       = (Returned tt, (wrapper_recording.2.1, w_end))
    /\ _replay_event_index (cassette w_end) = 7.
Proof.
  destruct (VcrAutoProps.recorded_session_replays
              (S := test_surroundings) (R := test_reprs) (E := BlockYaml.emitter)
              10 wrapper_session "cassette.yaml" "/work" None None [] []
              (match wrapper_recording.1 with Returned r => r | _ => [] end)
              studio wrapper_recording.2 3)
    as (s0' & w_end & Hinit & Hrun & Hidx & _).
  - apply VcrAutoProps.real_ends_with_result.
  - split; reflexivity.
  - reflexivity.
  - vm_compute. reflexivity.
  - simpl. lia.
  - exists s0', w_end. split; [exact Hinit|]. split; [exact Hrun|exact Hidx].
Defined.

Lemma replayed_step_outcomes_witness :
  exists exc w',
    _execute_auto_step (H := vcr_host (R := test_reprs) (E := BlockYaml.emitter))
      greet helper_frame (replaying_world [greeted_elsewhere])
    = (AutoExecutionError exc "", w')
    /\ _replay_event_index (cassette w') = 1.
Proof.
  pose proof (VcrReplayProps.replayed_step_outcomes
                (S := test_surroundings) (R := test_reprs) (E := BlockYaml.emitter)
                greet helper_frame (replaying_world [greeted_elsewhere]) eq_refl)
    as H.
  cbv zeta in H.
  match type of H with context [@_execute_auto_step ?h ?s ?f ?w] =>
    destruct (@_execute_auto_step h s f w) as [[result|exc output|] w'] eqn:Hstep
  end.
  - vm_compute in Hstep. discriminate.
  - destruct H as (_ & _ & _ & -> & _ & Hidx).
    exists exc, w'. split; [reflexivity|exact Hidx].
  - destruct H as (_ & _ & _ & []).
Defined.

Lemma replayed_response_witness :
  recorded_call (R := test_reprs) (E := BlockYaml.emitter) "status" EvStatus
    (answering "fine")
    (new_executor "/work",
     replaying_world [EvToolOutput {| out_tool := "start"; out_output := "fine" |}])
  = (Returned "fine",
     (new_executor "/work",
      with_cassette
        (set_replay_event_index (fun n => n + 1)
           (cassette (replaying_world
                        [EvToolOutput {| out_tool := "start"; out_output := "fine" |}])))
        (replaying_world
           [EvToolOutput {| out_tool := "start"; out_output := "fine" |}]))).
Proof.
  apply (VcrReplayProps.replayed_response
           (S := test_surroundings) (R := test_reprs) (E := BlockYaml.emitter)).
  - reflexivity.
  - eexists _, "start". split; [reflexivity|]. split; [reflexivity|].
    split; reflexivity.
Defined.

Lemma loaded_cassette_and_driver_witness :
  _load (R := test_reprs) "cassette.yaml" null_dir_document
  = Built (loaded "cassette.yaml" [("working_dir", PyNone)] [])
  /\ exists e,
       MekaraServerTestDriver_init (S := test_surroundings)
         (loaded "cassette.yaml" [("working_dir", PyNone)] []) None [] = Raise e.
Proof.
  split; [reflexivity|].
  apply (VcrReplayProps.loaded_cassette_and_driver
           (S := test_surroundings) (R := test_reprs)
           "cassette.yaml" null_dir_document
           (loaded "cassette.yaml" [("working_dir", PyNone)] []) None []).
  reflexivity.
Defined.

End VcrScenarioProps.
